(** * wonderwall: the knob reader and the LED frame encoder of [lights.py]

    A shallow embedding of [src/lights.py]: the two components that carry
    state or a protocol, and the pipeline around them.

    - [KnobReader]: the polling state machine over a serial line ([read]),
      the ten-entry moving average ([buffered_read]) and the calibration
      ([voltage_to_value]);
    - the encoder: [dnrgb_header], [send_rgb] and [send_quadrant], which
      splits a frame into four quadrants, reverses every odd row of each in
      place, and sends one datagram per quadrant;
    - the camera pipeline: [crop_square], [zoom], the gamma table,
      [noise_effect] and [hue_effect], and the loop of [start_cam] from the
      resized frame on.

    Python exceptions are values of [exn]; a call either returns, raises or
    (for [readline] on a line that is not complete yet) blocks.  Code that
    mutates objects is written in a state-and-exception monad over the
    objects it can reach: the reader with its serial handle, or the frame
    (which the quadrants are views of) with the socket.  Python's [int] is
    [Z], its [float] a model of binary64 with rational values, compared
    with the primitive floats of the kernel.

    The file has the program first, then the vocabulary of the
    specification, then the proofs: the reader, the encoder, the
    calibration, and after them further properties of the same code and of
    the pipeline. *)

From Stdlib Require Import ZArith List Bool Lia String Ascii Permutation.
From Stdlib Require Import QArith Qround Qabs Qpower Lqa.
From Stdlib Require Floats Uint63.
Import ListNotations.
Open Scope Z_scope.

(* ================================================================== *)
(** * Python outcomes and the state-and-exception monad *)

(** The exceptions this program can raise.  [ValueError] and [OSError]
    carry their message; [StructError] is [struct.error]. *)
Inductive exn : Type :=
| ValueError (msg : string)
| IndexError
| OverflowError
| ZeroDivisionError
| StructError
| OSError (msg : string).

(** What a call does: it returns a value, raises, or never comes back
    because it waits on the serial device. *)
Inductive outcome (A : Type) : Type :=
| Returns (a : A)
| Raises (e : exn)
| Blocks.
Arguments Returns {A} a.
Arguments Raises {A} e.
Arguments Blocks {A}.

(** A computation over a mutable store [S].  The store is threaded through
    exceptions too: what was written before a raise stays written. *)
Definition M (S A : Type) : Type := S -> outcome A * S.

Definition ret {S A} (a : A) : M S A := fun s => (Returns a, s).

Definition bind {S A B} (m : M S A) (f : A -> M S B) : M S B :=
  fun s =>
    match m s with
    | (Returns a, s') => f a s'
    | (Raises e, s') => (Raises e, s')
    | (Blocks, s') => (Blocks, s')
    end.

Definition raise {S A} (e : exn) : M S A := fun s => (Raises e, s).
Definition block {S A} : M S A := fun s => (Blocks, s).
Definition gets {S A} (f : S -> A) : M S A := fun s => (Returns (f s), s).
Definition modify {S} (f : S -> S) : M S unit := fun s => (Returns tt, f s).

(** [try: m except ValueError: h] *)
Definition try_except_ValueError {S A} (m : M S A) (h : M S A) : M S A :=
  fun s =>
    match m s with
    | (Raises (ValueError _), s') => h s'
    | r => r
    end.

(** A pure computation that may raise, run inside [M]. *)
Definition lift {S A} (o : outcome A) : M S A := fun s => (o, s).

Declare Scope py_scope.
Delimit Scope py_scope with py.
Notation "x <- m ;; k" := (bind m (fun x => k))
  (at level 61, m at next level, right associativity) : py_scope.
Notation "m ;;; k" := (bind m (fun _ => k))
  (at level 61, right associativity) : py_scope.

(** [for x in xs: body x] *)
Fixpoint for_each {S A} (xs : list A) (body : A -> M S unit) : M S unit :=
  match xs with
  | [] => ret tt
  | x :: xs' => bind (body x) (fun _ => for_each xs' body)
  end.

(** The same for code that only raises (no store). *)
Definition obind {A B} (o : outcome A) (f : A -> outcome B) : outcome B :=
  match o with
  | Returns a => f a
  | Raises e => Raises e
  | Blocks => Blocks
  end.
Notation "x <~ o ;; k" := (obind o (fun x => k))
  (at level 61, o at next level, right associativity) : py_scope.

(* ================================================================== *)
(** * Bytes of the serial line *)

(** A [bytes] object is a [string]: one [ascii] per byte. *)
Definition bytes := string.
Bind Scope string_scope with bytes.

Definition TAB : ascii := "009"%char.
Definition NL : ascii := "010"%char.

Definition byte_of (c : ascii) : bytes := String c EmptyString.

(** [Py_ISSPACE]: the bytes [int()] skips on both sides. *)
Definition is_space (c : ascii) : bool :=
  let n := N_of_ascii c in
  ((9 <=? n) && (n <=? 13) || (n =? 32))%N.

Definition digit_val (c : ascii) : option Z :=
  let n := N_of_ascii c in
  if ((48 <=? n) && (n <=? 57))%N then Some (Z.of_N n - 48) else None.

Fixpoint lstrip (s : bytes) : bytes :=
  match s with
  | EmptyString => EmptyString
  | String c r => if is_space c then lstrip r else s
  end.

Fixpoint rstrip (s : bytes) : bytes :=
  match s with
  | EmptyString => EmptyString
  | String c r =>
      match rstrip r with
      | EmptyString => if is_space c then EmptyString else byte_of c
      | r' => String c r'
      end
  end.

(** The digits of a base-10 literal: at least one digit, and an underscore
    only between two digits.  [prev] tells whether the byte before was a
    digit. *)
Fixpoint parse_digits (s : bytes) (acc : Z) (prev : bool) : option Z :=
  match s with
  | EmptyString => if prev then Some acc else None
  | String c r =>
      match digit_val c with
      | Some d => parse_digits r (10 * acc + d) true
      | None =>
          if (Ascii.eqb c "_" && prev)%bool then parse_digits r acc false
          else None
      end
  end.

(** The syntax of [int(b)] for a [bytes] argument, base 10: optional white
    space, an optional sign, the digits, optional white space. *)
Definition int_syntax (s : bytes) : option Z :=
  match rstrip (lstrip s) with
  | String "+" r => parse_digits r 0 false
  | String "-" r => option_map Z.opp (parse_digits r 0 false)
  | t => parse_digits t 0 false
  end.

(** The digits of a literal, as the length limit of [int()] counts them:
    leading zeros count, the sign, the underscores and the white space do
    not. *)
Fixpoint count_digits (s : bytes) : nat :=
  match s with
  | EmptyString => 0
  | String c r =>
      match digit_val c with
      | Some _ => S (count_digits r)
      | None => count_digits r
      end
  end.

(** [sys.int_info.default_max_str_digits]: the interpreter refuses to
    convert a decimal literal of more digits. *)
Definition MAX_STR_DIGITS : nat := 4300.

(** The value of [int(b)], or [None] when it raises [ValueError]: for
    bytes that are no literal, and for a literal of more than 4300
    digits. *)
Definition int_literal (s : bytes) : option Z :=
  match int_syntax s with
  | Some z => if (MAX_STR_DIGITS <? count_digits s)%nat then None else Some z
  | None => None
  end.

(** The message of the [ValueError] of [int(b)], cut to its fixed part (the
    interpreter appends the operand, or the number of digits; the program
    never shows the message). *)
Definition int_message (s : bytes) : string :=
  match int_syntax s with
  | Some _ => "Exceeds the limit (4300 digits) for integer string conversion"
  | None => "invalid literal for int() with base 10"
  end.

Definition int (s : bytes) : outcome Z :=
  match int_literal s with
  | Some z => Returns z
  | None => Raises (ValueError (int_message s))
  end.

(** [s.split(b"\t")]: the fields between tabs, never an empty list. *)
Fixpoint split_tab (s : bytes) : list bytes :=
  match s with
  | EmptyString => [EmptyString]
  | String c r =>
      if Ascii.eqb c TAB then EmptyString :: split_tab r
      else match split_tab r with
           | f :: fs => String c f :: fs
           | [] => [byte_of c]
           end
  end.

(** [values[i]] on a list. *)
Definition index {A} (values : list A) (i : nat) : outcome A :=
  match nth_error values i with
  | Some v => Returns v
  | None => Raises IndexError
  end.

(* ================================================================== *)
(** * The serial transport *)

(** The handle [ser]: the bytes the device has delivered and the program
    has not consumed yet, and the bytes the program has written. *)
Record Serial : Type := mkSerial { rx : bytes; tx : bytes }.

Definition in_waiting (s : Serial) : Z := Z.of_nat (String.length (rx s)).

Definition write (b : bytes) (s : Serial) : Serial :=
  {| rx := rx s; tx := (tx s ++ b)%string |}.

(** The first line of a buffer, terminator included, and what follows it;
    [None] when the buffer holds no terminator. *)
Fixpoint take_line (s : bytes) : option (bytes * bytes) :=
  match s with
  | EmptyString => None
  | String c r =>
      if Ascii.eqb c NL then Some (byte_of c, r)
      else match take_line r with
           | Some (l, r') => Some (String c l, r')
           | None => None
           end
  end.

(** [ser.readline()] on a port opened without a timeout: it consumes one
    line, and waits for the device when no complete line is buffered. *)
Definition readline (s : Serial) : option (bytes * Serial) :=
  match take_line (rx s) with
  | Some (l, r) => Some (l, {| rx := r; tx := tx s |})
  | None => None
  end.

(** The device delivers more bytes between two calls. *)
Definition deliver (b : bytes) (s : Serial) : Serial :=
  {| rx := (rx s ++ b)%string; tx := tx s |}.

(* ================================================================== *)
(** * KnobReader *)

Definition reading : Type := (Z * Z)%type.

(** The object and the standard output it prints to. *)
Record KnobReader : Type := mkKnobReader {
  ser : Serial;
  last_values : reading;
  waiting : bool;
  buffer : list reading;
  stdout : list string
}.

(** [KnobReader.__init__] *)
Definition init (initial_value : Z) (s : Serial) : KnobReader :=
  {| ser := s;
     last_values := (initial_value, initial_value);
     waiting := false;
     buffer := repeat (initial_value, initial_value) 10;
     stdout := [] |}.

Definition set_ser (s : Serial) (k : KnobReader) : KnobReader :=
  {| ser := s; last_values := last_values k; waiting := waiting k;
     buffer := buffer k; stdout := stdout k |}.
Definition set_last_values (v : reading) (k : KnobReader) : KnobReader :=
  {| ser := ser k; last_values := v; waiting := waiting k;
     buffer := buffer k; stdout := stdout k |}.
Definition set_waiting (b : bool) (k : KnobReader) : KnobReader :=
  {| ser := ser k; last_values := last_values k; waiting := b;
     buffer := buffer k; stdout := stdout k |}.
Definition set_buffer (l : list reading) (k : KnobReader) : KnobReader :=
  {| ser := ser k; last_values := last_values k; waiting := waiting k;
     buffer := l; stdout := stdout k |}.
Definition print (line : string) (k : KnobReader) : KnobReader :=
  {| ser := ser k; last_values := last_values k; waiting := waiting k;
     buffer := buffer k; stdout := stdout k ++ [line] |}.

(** The body of the [try]: split on tabs, convert the first two fields. *)
Definition parse_values (line : bytes) : outcome reading :=
  (let values := split_tab line in
   v0 <~ index values 0 ;;
   a <~ int v0 ;;
   v1 <~ index values 1 ;;
   b <~ int v1 ;;
   Returns (a, b))%py.

(** [repr(b)] of a [bytes] object, which is what an f-string puts in for
    it: the prefix [b], a quote, the bytes with the quote, the backslash
    and everything that is not printable ASCII escaped, and the quote
    again.  The quote is the single one, unless the bytes hold a single
    quote and no double quote. *)
Definition APOSTROPHE : ascii := "039"%char.
Definition QUOTATION : ascii := "034"%char.
Definition BACKSLASH : ascii := "092"%char.
Definition CR : ascii := "013"%char.

Fixpoint contains (c : ascii) (s : bytes) : bool :=
  match s with
  | EmptyString => false
  | String d r => Ascii.eqb c d || contains c r
  end.

Definition repr_quote (s : bytes) : ascii :=
  if contains APOSTROPHE s && negb (contains QUOTATION s)
  then QUOTATION else APOSTROPHE.

Definition hexdigit (n : N) : ascii :=
  match String.get (N.to_nat n) "0123456789abcdef" with
  | Some c => c
  | None => "0"%char
  end.

Definition repr_byte (quote c : ascii) : string :=
  let n := N_of_ascii c in
  if Ascii.eqb c quote || Ascii.eqb c BACKSLASH
  then String BACKSLASH (String c EmptyString)
  else if Ascii.eqb c TAB then String BACKSLASH "t"
  else if Ascii.eqb c NL then String BACKSLASH "n"
  else if Ascii.eqb c CR then String BACKSLASH "r"
  else if ((n <? 32) || (127 <=? n))%N
  then String BACKSLASH
         (String "x" (String (hexdigit (n / 16)) (String (hexdigit (n mod 16))
                                                        EmptyString)))
  else String c EmptyString.

Fixpoint repr_bytes_body (quote : ascii) (s : bytes) : string :=
  match s with
  | EmptyString => EmptyString
  | String c r => (repr_byte quote c ++ repr_bytes_body quote r)%string
  end.

Definition repr_bytes (s : bytes) : string :=
  let quote := repr_quote s in
  String "b" (String quote (repr_bytes_body quote s ++ String quote EmptyString)).

(** The diagnostic of the handler: [f"invalid value(s) in {line}"]. *)
Definition invalid_message (line : bytes) : string :=
  ("invalid value(s) in " ++ repr_bytes line)%string.

(** [KnobReader.read] *)
Definition read : M KnobReader reading :=
  (w <- gets waiting ;;
   if negb w then
     s <- gets ser ;;
     modify (set_ser (write (byte_of NL) s)) ;;;
     modify (set_waiting true) ;;;
     gets last_values
   else
     s <- gets ser ;;
     if in_waiting s <? 12 then gets last_values
     else
       match readline s with
       | None => block
       | Some (line, s') =>
           modify (set_ser s') ;;;
           retval <- try_except_ValueError
                       (lift (parse_values line))
                       (modify (print (invalid_message line)) ;;;
                        ret (0, 0)) ;;
           modify (set_waiting false) ;;;
           modify (set_last_values retval) ;;;
           ret retval
       end)%py.

(** [sum] over one component, and Python's [//]: [Z.div] rounds toward
    minus infinity as [//] does. *)
Definition sum_fst (l : list reading) : Z := fold_right Z.add 0 (map fst l).
Definition sum_snd (l : list reading) : Z := fold_right Z.add 0 (map snd l).

(** [tuple(m // len(b) for m in map(sum, zip( *b )))] for a buffer of
    pairs.  An empty buffer gives the empty tuple in Python; the buffer is
    never empty here, and the model answers [(0, 0)] through [Z.div] by 0. *)
Definition mean (b : list reading) : reading :=
  (sum_fst b / Z.of_nat (List.length b), sum_snd b / Z.of_nat (List.length b)).

(** [list.pop()] then [list.insert(0, x)].  [pop] from an empty list
    raises [IndexError]. *)
Definition pop_then_push (x : reading) (b : list reading)
  : outcome (list reading) :=
  match b with
  | [] => Raises IndexError
  | _ => Returns (x :: removelast b)
  end.

(** [KnobReader.buffered_read] *)
Definition buffered_read : M KnobReader reading :=
  (result <- read ;;
   b <- gets buffer ;;
   b' <- lift (pop_then_push result b) ;;
   modify (set_buffer b') ;;;
   ret (mean b'))%py.

(* ================================================================== *)
(** * Python floats

    A [float] is an IEEE 754 binary64 value.  A finite one is kept as the
    rational it denotes (in lowest terms), so the arithmetic below is the
    standard's: the exact result, rounded to nearest with ties to even,
    with gradual underflow and overflow to infinity.  The two zeros are one
    value here: no operation of this program tells them apart. *)

Inductive float : Type :=
| Fin (q : Q)
| Inf (neg : bool)
| NaN.

Definition pow2 (e : Z) : Q := Qpower 2 e.

(** The integer [k] with [2^k <= x < 2^(k+1)], for [x > 0]. *)
Definition ilog2 (x : Q) : Z :=
  let k := Z.log2 (Qnum x) - Z.log2 (Zpos (Qden x)) in
  if Qle_bool (pow2 k) x then k else k - 1.

(** The nearest integer, the even one of two that are equally near. *)
Definition round_half_even (x : Q) : Z :=
  let f := Qfloor x in
  match Qcompare (x - inject_Z f)%Q (1 # 2) with
  | Lt => f
  | Gt => f + 1
  | Eq => if Z.even f then f else f + 1
  end.

(** The exponent of the last place of [x]: 53 significant bits, and never
    below the subnormal spacing [2^-1074]. *)
Definition ulp_exp (x : Q) : Z := Z.max (ilog2 (Qabs x) - 52) (-1074).

(** Rounding a real result to binary64. *)
Definition round64 (x : Q) : float :=
  match Qcompare x 0 with
  | Eq => Fin 0
  | _ =>
      let e := ulp_exp x in
      let y := (inject_Z (round_half_even (x / pow2 e)) * pow2 e)%Q in
      if Qle_bool (pow2 1024) (Qabs y) then Inf (Qle_bool x 0)
      else Fin (Qred y)
  end.

Definition is_zero (q : Q) : bool := Qeq_bool q 0.
Definition is_neg (q : Q) : bool := negb (Qle_bool 0 q).

(** [x * y] *)
Definition float_mul (x y : float) : float :=
  match x, y with
  | NaN, _ | _, NaN => NaN
  | Fin a, Fin b => round64 (a * b)%Q
  | Inf s, Inf t => Inf (xorb s t)
  | Inf s, Fin b => if is_zero b then NaN else Inf (xorb s (is_neg b))
  | Fin a, Inf t => if is_zero a then NaN else Inf (xorb (is_neg a) t)
  end.

(** [x - y] *)
Definition float_sub (x y : float) : float :=
  match x, y with
  | NaN, _ | _, NaN => NaN
  | Fin a, Fin b => round64 (a - b)%Q
  | Inf s, Inf t => if Bool.eqb s t then NaN else Inf s
  | Inf s, Fin _ => Inf s
  | Fin _, Inf t => Inf (negb t)
  end.

(** [x / y]: Python raises on a zero divisor instead of answering an
    infinity or a NaN. *)
Definition float_truediv (x y : float) : outcome float :=
  match x, y with
  | NaN, Fin b => if is_zero b then Raises ZeroDivisionError else Returns NaN
  | NaN, _ | _, NaN => Returns NaN
  | Fin a, Fin b =>
      if is_zero b then Raises ZeroDivisionError else Returns (round64 (a / b)%Q)
  | Inf s, Inf t => Returns NaN
  | Inf s, Fin b =>
      if is_zero b then Raises ZeroDivisionError
      else Returns (Inf (xorb s (is_neg b)))
  | Fin a, Inf t => Returns (Fin 0)
  end.

(** [x < y]; false when either side is a NaN. *)
Definition float_lt (x y : float) : bool :=
  match x, y with
  | NaN, _ | _, NaN => false
  | Fin a, Fin b => negb (Qle_bool b a)
  | Inf s, Inf t => s && negb t
  | Inf s, Fin _ => s
  | Fin _, Inf t => negb t
  end.

(** [x > y] *)
Definition float_gt (x y : float) : bool := float_lt y x.

(** A float literal of the source: the nearest binary64 value. *)
Definition literal (q : Q) : float := round64 q.

(** An [int] operand of a float operation is converted first; Python
    raises [OverflowError] when the integer is beyond the finite floats. *)
Definition float_of_int (z : Z) : outcome float :=
  match round64 (inject_Z z) with
  | Inf _ => Raises OverflowError
  | f => Returns f
  end.

(** [KnobReader.voltage_to_value], called on the integers that
    [buffered_read] returns. *)
Definition voltage_to_value (voltage : Z) : outcome float :=
  (v <~ float_of_int voltage ;;
   d <~ float_of_int 65535 ;;
   voltage <~ float_truediv (float_mul v (literal (33 # 10))) d ;;
   let voltage := if float_gt voltage (literal (28 # 10))
                  then literal (28 # 10) else voltage in
   let voltage := if float_lt voltage (literal (5 # 100))
                  then literal (5 # 100) else voltage in
   float_truediv (float_sub voltage (literal (5 # 100)))
                 (literal (275 # 100)))%py.

(** [KnobReader.get_knob_values] *)
Definition get_knob_values : M KnobReader (float * float) :=
  (r <- buffered_read ;;
   a <- lift (voltage_to_value (fst r)) ;;
   b <- lift (voltage_to_value (snd r)) ;;
   ret (a, b))%py.

(** ** The same computation on the floats of the kernel

    Rocq's primitive floats are binary64 values computed by the machine.
    The calibration is written once more on them, to compare the model
    above with the arithmetic Python runs on. *)

(** The float of a small integer (below [2^63]). *)
Definition binary64_of_int (n : Z) : PrimFloat.float :=
  PrimFloat.of_uint63 (Uint63.of_Z n).

(** A literal [n/d] with [n] and [d] small: the correctly rounded quotient
    is the nearest binary64 value. *)
Definition binary64_literal (n d : Z) : PrimFloat.float :=
  PrimFloat.div (binary64_of_int n) (binary64_of_int d).

Definition binary64_voltage_to_value (raw : Z) : PrimFloat.float :=
  let voltage :=
    PrimFloat.div (PrimFloat.mul (binary64_of_int raw) (binary64_literal 33 10))
                  (binary64_of_int 65535) in
  let voltage :=
    if PrimFloat.ltb (binary64_literal 28 10) voltage
    then binary64_literal 28 10 else voltage in
  let voltage :=
    if PrimFloat.ltb voltage (binary64_literal 5 100)
    then binary64_literal 5 100 else voltage in
  PrimFloat.div (PrimFloat.sub voltage (binary64_literal 5 100))
                (binary64_literal 275 100).

(** The value a binary64 float denotes. *)
Definition float_of_spec (f : SpecFloat.spec_float) : float :=
  match f with
  | SpecFloat.S754_zero _ => Fin 0
  | SpecFloat.S754_infinity s => Inf s
  | SpecFloat.S754_nan => NaN
  | SpecFloat.S754_finite s m e =>
      Fin (Qred ((if s then - inject_Z (Zpos m) else inject_Z (Zpos m))
                 * pow2 e)%Q)
  end.

Definition float_eqb (x y : float) : bool :=
  match x, y with
  | Fin a, Fin b => Qeq_bool a b
  | Inf s, Inf t => Bool.eqb s t
  | NaN, NaN => true
  | _, _ => false
  end.

Definition agrees_with_binary64 (raw : Z) : bool :=
  match voltage_to_value raw with
  | Returns v =>
      float_eqb v (float_of_spec
                     (FloatOps.Prim2SF (binary64_voltage_to_value raw)))
  | _ => false
  end.

(** Raw values to compare on: one in every 97 over the 16-bit range, every
    value around the two clamps (0.05 V near 993, 2.8 V near 55606), and a
    few beyond 16 bits. *)
Definition sampled_raw_values : list Z :=
  map (fun n => Z.of_nat n * 97) (seq 0 676)
  ++ map (fun n => 900 + Z.of_nat n) (seq 0 200)
  ++ map (fun n => 55500 + Z.of_nat n) (seq 0 200)
  ++ [65535; 65536; 70000; 1000000; 2 ^ 40; 2 ^ 53 + 1; 2 ^ 62].

(* ================================================================== *)
(** * Frames

    A frame is a NumPy array of shape [(H, W, 3)] and type [uint8]: [H] rows
    of [W] pixels.  The shape is part of the array (an array without rows
    still has a width).  Basic slicing and [np.split] give views: windows on
    the buffer of the array they come from, so that writing through a view
    writes the frame. *)

Definition pixel : Type := (Z * Z * Z)%type.

Definition grid : Type := list (list pixel).

Record ndarray : Type := mkArray {
  shape0 : nat;
  shape1 : nat;
  data : grid
}.

(** What NumPy guarantees of every array: the buffer has the shape. *)
Definition rectangular (a : ndarray) : Prop :=
  List.length (data a) = shape0 a /\
  Forall (fun row => List.length row = shape1 a) (data a).

(** A view [a[row0 : row0+nrows, col0 : col0+ncols]] of the frame. *)
Record view : Type := mkView {
  row0 : nat;
  col0 : nat;
  nrows : nat;
  ncols : nat
}.

Definition whole (a : ndarray) : view :=
  {| row0 := 0; col0 := 0; nrows := shape0 a; ncols := shape1 a |}.

Definition split_message : string :=
  "array split does not result in an equal division".

(** [np.split(v, 2)]: two halves along the rows, or [ValueError]. *)
Definition split_axis0 (v : view) : outcome (list view) :=
  if Nat.even (nrows v) then
    let h := Nat.div2 (nrows v) in
    Returns [ {| row0 := row0 v; col0 := col0 v; nrows := h; ncols := ncols v |};
              {| row0 := row0 v + h; col0 := col0 v; nrows := h; ncols := ncols v |} ]
  else Raises (ValueError split_message).

(** [np.split(v, 2, axis=1)]: two halves along the columns. *)
Definition split_axis1 (v : view) : outcome (list view) :=
  if Nat.even (ncols v) then
    let w := Nat.div2 (ncols v) in
    Returns [ {| row0 := row0 v; col0 := col0 v; nrows := nrows v; ncols := w |};
              {| row0 := row0 v; col0 := col0 v + w; nrows := nrows v; ncols := w |} ]
  else Raises (ValueError split_message).

(** [[f(x) for x in xs]] for an [f] that may raise. *)
Fixpoint comprehension {A B} (f : A -> outcome B) (xs : list A)
  : outcome (list B) :=
  match xs with
  | [] => Returns []
  | x :: xs' =>
      (y <~ f x ;; ys <~ comprehension f xs' ;; Returns (y :: ys))%py
  end.

(** The rows a view shows. *)
Definition window {A} (c0 n : nat) (row : list A) : list A :=
  firstn n (skipn c0 row).

Definition slice (v : view) (g : grid) : grid :=
  map (window (col0 v) (ncols v)) (firstn (nrows v) (skipn (row0 v) g)).

(** [l[1::2]] *)
Fixpoint odd_rows {A} (l : list A) : list A :=
  match l with
  | _ :: x :: t => x :: odd_rows t
  | _ => []
  end.

(** Writing a segment over a row from column [c0] on. *)
Definition splice {A} (c0 : nat) (seg row : list A) : list A :=
  firstn c0 row ++ seg ++ skipn (c0 + List.length seg) row.

Fixpoint update_nth {A} (i : nat) (f : A -> A) (l : list A) : list A :=
  match l, i with
  | [], _ => []
  | x :: t, O => f x :: t
  | x :: t, S j => x :: update_nth j f t
  end.

(** Storing the rows [segs] at rows [r], [r + 2], [r + 4], ... from column
    [c0] on. *)
Fixpoint store_rows (r c0 : nat) (segs : grid) (g : grid) : grid :=
  match segs with
  | [] => g
  | seg :: segs' => store_rows (r + 2) c0 segs' (update_nth r (splice c0 seg) g)
  end.

(** [q[1::2, :] = q[1::2, ::-1]].  The two sides are views of the same
    rows: NumPy reads the right-hand side in full before it writes. *)
Definition reverse_odd_rows (q : view) (g : grid) : grid :=
  let rhs := map (@rev pixel) (odd_rows (slice q g)) in
  store_rows (row0 q + 1) (col0 q) rhs g.

(* ================================================================== *)
(** * The DNRGB datagrams *)

(** A byte string going out: a list of byte values. *)
Definition datagram : Type := list Z.

Definition DNRGB_PROTOCOL_VALUE : Z := 4.

(** [struct.pack(">BBH", a, b, c)]: two unsigned bytes and a big-endian
    16-bit unsigned; [struct.error] for a value out of its range. *)
Definition struct_pack_BBH (a b c : Z) : outcome datagram :=
  if (0 <=? a) && (a <=? 255) && (0 <=? b) && (b <=? 255)
     && (0 <=? c) && (c <=? 65535)
  then Returns [a; b; Z.shiftr c 8; Z.land c 255]
  else Raises StructError.

(** [dnrgb_header] *)
Definition dnrgb_header (wait_time start_index : Z) : outcome datagram :=
  if wait_time >? 255 then
    Raises (ValueError "Wait time must be within 0-255")
  else if start_index >? 2 ^ 16 - 1 then
    Raises (ValueError "Start index must be a nonnegative 16-bit number")
  else struct_pack_BBH DNRGB_PROTOCOL_VALUE wait_time start_index.

(** What the encoder can reach: the frame it was handed, and the socket,
    kept as the list of datagrams that went out through it.  The socket is
    the UDP socket over IPv4 of the main block; the route to the server is
    taken to be there, and what becomes of a datagram on its way is not
    part of the program. *)
Record World : Type := mkWorld {
  frame : ndarray;
  sent : list datagram
}.

Definition set_data (g : grid) (w : World) : World :=
  {| frame := {| shape0 := shape0 (frame w); shape1 := shape1 (frame w);
                 data := g |};
     sent := sent w |}.

(** The most bytes a UDP datagram carries over IPv4: the 65535 of the
    length field of IP, less the 20 bytes of the IP header and the 8 of the
    UDP header. *)
Definition MAX_UDP_PAYLOAD : Z := 65507.

Definition message_too_long : string := "[Errno 90] Message too long".

(** [sock.sendto(byte_string, server)]: the datagram goes out, or the
    system call fails with [EMSGSIZE] and nothing goes out. *)
Definition sendto (d : datagram) : M World unit :=
  fun w =>
    if Z.of_nat (List.length d) <=? MAX_UDP_PAYLOAD
    then (Returns tt, {| frame := frame w; sent := sent w ++ [d] |})
    else (Raises (OSError message_too_long), w).

(** [send_rgb]: [rgb_values] is a flat [uint8] array, [bytes] of it its
    values. *)
Definition send_rgb (rgb_values : list Z) (start_index : Z) : M World unit :=
  (header <- lift (dnrgb_header 5 start_index) ;;
   let byte_string := header ++ rgb_values in
   sendto byte_string)%py.

(** [np.cumsum] *)
Fixpoint cumsum_from (acc : Z) (l : list Z) : list Z :=
  match l with
  | [] => []
  | x :: t => (acc + x) :: cumsum_from (acc + x) t
  end.
Definition cumsum (l : list Z) : list Z := cumsum_from 0 l.

Definition QUADRANT_LEADING_LEDS : list nat := [1; 1; 1; 1]%nat.

(** [q.reshape(-1, 3)]: the pixels of a view, row after row. *)
Definition reshape (rows : grid) : list pixel := List.concat rows.

(** [np.pad(q, ((n_leading, 0), (0, 0)), constant_values=0)] *)
Definition pad (n_leading : nat) (q : list pixel) : list pixel :=
  repeat (0, 0, 0) n_leading ++ q.

(** [q.flatten()] *)
Definition flatten (q : list pixel) : list Z :=
  flat_map (fun p => let '(r, g, b) := p in [r; g; b]) q.

(** The body of [send_quadrant] up to its last loop: the four flattened
    segments, each with its start index. *)
Definition quadrant_segments : M World (list (list Z * Z)) :=
  (f <- gets frame ;;
   halves <- lift (split_axis0 (whole f)) ;;
   split <- lift (comprehension split_axis1 halves) ;;
   let quadrants := List.concat split in
   for_each quadrants
     (fun q => modify (fun w => set_data (reverse_odd_rows q (data (frame w))) w)) ;;;
   g <- gets (fun w => data (frame w)) ;;
   let quadrants := map (fun q => reshape (slice q g)) quadrants in
   let quadrants :=
     map (fun nq => pad (fst nq) (snd nq))
         (combine QUADRANT_LEADING_LEDS quadrants) in
   let positions :=
     0 :: cumsum (map (fun q => Z.of_nat (List.length q)) (removelast quadrants)) in
   let quadrants := map flatten quadrants in
   ret (combine quadrants positions))%py.

(** [send_quadrant], on the frame of the world. *)
Definition send_quadrant : M World unit :=
  (segments <- quadrant_segments ;;
   for_each segments (fun qp => send_rgb (fst qp) (snd qp)))%py.

(* ================================================================== *)
(** * The camera pipeline

    What [start_cam] does to a frame of the webcam before it hands it to
    [send_quadrant]: the crop to a square, the zoom, the mirror, the gamma
    table, the two knob effects, the rotation and the ring light. *)

(** ** Basic slicing *)

(** One bound of a slice on an axis of [n] entries: a negative bound
    counts from the end, and every bound is clipped to the axis. *)
Definition clip (n i : Z) : Z :=
  if i <? 0 then Z.max (i + n) 0 else Z.min i n.

(** [start:stop] on an axis of [n] entries, [None] for a bound left out:
    the first entry selected and the number of entries. *)
Definition slice_bounds (n : nat) (start stop : option Z) : nat * nat :=
  let lo := match start with Some i => clip (Z.of_nat n) i | None => 0 end in
  let hi := match stop with
            | Some i => clip (Z.of_nat n) i
            | None => Z.of_nat n
            end in
  (Z.to_nat lo, Z.to_nat (hi - lo)).

(** [a[r : r', c : c', :]] *)
Definition getitem (rows cols : option Z * option Z) (a : ndarray) : ndarray :=
  let '(r0, nr) := slice_bounds (shape0 a) (fst rows) (snd rows) in
  let '(c0, nc) := slice_bounds (shape1 a) (fst cols) (snd cols) in
  {| shape0 := nr; shape1 := nc;
     data := slice {| row0 := r0; col0 := c0; nrows := nr; ncols := nc |}
                   (data a) |}.

(** [a[r : r', c : c'] = v], one pixel value for the whole region. *)
Definition setitem (rows cols : option Z * option Z) (v : pixel) (a : ndarray)
  : ndarray :=
  let '(r0, nr) := slice_bounds (shape0 a) (fst rows) (snd rows) in
  let '(c0, nc) := slice_bounds (shape1 a) (fst cols) (snd cols) in
  {| shape0 := shape0 a; shape1 := shape1 a;
     data := firstn r0 (data a)
             ++ map (fun row => firstn c0 row ++ repeat v nc ++ skipn (c0 + nc) row)
                    (firstn nr (skipn r0 (data a)))
             ++ skipn (r0 + nr) (data a) |}.

(** ** [crop_square] and [zoom] *)

(** An [assert] that fails raises [AssertionError].  The reader and the
    encoder have no [assert] and [exn] does not list the exception: the
    one function that asserts answers in a type of its own. *)
Inductive asserted (A : Type) : Type :=
| Passes (a : A)
| AssertionError.
Arguments Passes {A} a.
Arguments AssertionError {A}.

(** [crop_square] *)
Definition crop_square (frame : ndarray) : asserted ndarray :=
  let h := Z.of_nat (shape0 frame) in
  let w := Z.of_nat (shape1 frame) in
  if w >? h then
    let diff := w - h in
    let edge := diff / 2 in
    let frame := getitem (None, None) (Some edge, Some (- edge)) frame in
    let h := shape0 frame in
    let w := shape1 frame in
    if (h =? w)%nat then Passes frame else AssertionError
  else AssertionError.

(** [round(x)] of a float: the nearest integer, the even one of two that
    are equally near. *)
Definition round_float (x : float) : outcome Z :=
  match x with
  | Fin q => Returns (round_half_even q)
  | Inf _ => Raises OverflowError
  | NaN => Raises (ValueError "cannot convert float NaN to integer")
  end.

(** [zoom] *)
Definition zoom (frame : ndarray) : outcome ndarray :=
  (let l := Z.of_nat (shape0 frame) in
   l' <~ float_of_int l ;;
   q <~ float_truediv l' (literal (13 # 10)) ;;
   l_final <~ round_float q ;;
   let to_remove := l - l_final in
   Returns (getitem (Some to_remove, None)
                    (Some (to_remove / 2), Some (- (to_remove / 2)))
                    frame))%py.

(** ** Mirror, gamma table, rotation, ring light *)

Definition map_rows (f : list pixel -> list pixel) (a : ndarray) : ndarray :=
  {| shape0 := shape0 a; shape1 := shape1 a; data := map f (data a) |}.

(** [frame[:, :, :] = frame[:, ::-1, :]]: the right-hand side is read in
    full before the frame is written. *)
Definition mirror (frame : ndarray) : ndarray := map_rows (@rev pixel) frame.

Definition GAMMA : list Z :=
  [ 0; 0; 0; 0; 0; 0; 0; 0; 0; 0; 0; 0; 0; 0; 0; 0;
    0; 0; 0; 0; 0; 0; 0; 0; 0; 0; 0; 0; 1; 1; 1; 1;
    1; 1; 1; 1; 1; 1; 1; 1; 1; 2; 2; 2; 2; 2; 2; 2;
    2; 3; 3; 3; 3; 3; 3; 3; 4; 4; 4; 4; 4; 5; 5; 5;
    5; 6; 6; 6; 6; 7; 7; 7; 7; 8; 8; 8; 9; 9; 9; 10;
    10; 10; 11; 11; 11; 12; 12; 13; 13; 13; 14; 14; 15; 15; 16; 16;
    17; 17; 18; 18; 19; 19; 20; 20; 21; 21; 22; 22; 23; 24; 24; 25;
    25; 26; 27; 27; 28; 29; 29; 30; 31; 32; 32; 33; 34; 35; 35; 36;
    37; 38; 39; 39; 40; 41; 42; 43; 44; 45; 46; 47; 48; 49; 50; 50;
    51; 52; 54; 55; 56; 57; 58; 59; 60; 61; 62; 63; 64; 66; 67; 68;
    69; 70; 72; 73; 74; 75; 77; 78; 79; 81; 82; 83; 85; 86; 87; 89;
    90; 92; 93; 95; 96; 98; 99; 101; 102; 104; 105; 107; 109; 110; 112; 114;
    115; 117; 119; 120; 122; 124; 126; 127; 129; 131; 133; 135; 137; 138; 140; 142;
    144; 146; 148; 150; 152; 154; 156; 158; 160; 162; 164; 167; 169; 171; 173; 175;
    177; 180; 182; 184; 186; 189; 191; 193; 196; 198; 200; 203; 205; 208; 210; 213;
    215; 218; 220; 223; 225; 228; 231; 233; 236; 239; 241; 244; 247; 249; 252; 255 ].

Definition map_channels (f : Z -> Z) (a : ndarray) : ndarray :=
  map_rows (map (fun p : pixel => let '(r, g, b) := p in (f r, f g, f b))) a.

(** [cv2.LUT(frame, lut)] on a [uint8] frame: every channel value is
    replaced by the entry of the table at that value. *)
Definition LUT (frame : ndarray) (lut : list Z) : ndarray :=
  map_channels (fun v => nth (Z.to_nat v) lut 0) frame.

(** [frame.astype(np.uint8)]: the low eight bits of every value. *)
Definition astype_uint8 (frame : ndarray) : ndarray :=
  map_channels (fun v => v mod 256) frame.

(** [np.transpose] of the two image axes, and [np.flip] along each. *)
Definition transpose (a : ndarray) : ndarray :=
  {| shape0 := shape1 a; shape1 := shape0 a;
     data := map (fun j => map (fun row => nth j row (0, 0, 0)) (data a))
                 (seq 0 (shape1 a)) |}.

Definition flip0 (a : ndarray) : ndarray :=
  {| shape0 := shape0 a; shape1 := shape1 a; data := rev (data a) |}.

Definition flip1 (a : ndarray) : ndarray := map_rows (@rev pixel) a.

(** [np.rot90(m, k)], as NumPy composes it of flips and a transposition. *)
Definition rot90 (m : ndarray) (k : Z) : ndarray :=
  let k := k mod 4 in
  if k =? 0 then m
  else if k =? 2 then flip1 (flip0 m)
  else if k =? 1 then transpose (flip1 m)
  else flip1 (transpose m).

Definition RING_LIGHT_VALUE : pixel := (255, 255, 255).
Definition FRAME_WIDTH : Z := 3.

(** The four assignments of the ring light. *)
Definition ring_light (frame : ndarray) : ndarray :=
  let frame := setitem (None, Some FRAME_WIDTH) (None, None)
                       RING_LIGHT_VALUE frame in
  let frame := setitem (Some (- FRAME_WIDTH), None) (None, None)
                       RING_LIGHT_VALUE frame in
  let frame := setitem (None, None) (None, Some FRAME_WIDTH)
                       RING_LIGHT_VALUE frame in
  setitem (None, None) (Some (- FRAME_WIDTH), None) RING_LIGHT_VALUE frame.

(** ** The knob effects *)

(** The generator behind [random.random()]: the floats it is going to
    answer, and how many it has answered. *)
Record Random : Type := mkRandom {
  draws : nat -> float;
  drawn : nat
}.

(** [random.random()] *)
Definition random : M Random float :=
  fun s => (Returns (draws s (drawn s)),
            {| draws := draws s; drawn := S (drawn s) |}).

(** A mask: an [int8] array of the shape of the image. *)
Definition mask : Type := list (list Z).

(** The inner loop of [sp_noise_mask]: one row of the mask. *)
Fixpoint noise_row (w : nat) (prob thres : float) : M Random (list Z) :=
  match w with
  | O => ret []
  | S w' =>
      (rdn <- random ;;
       let m := if float_lt rdn prob then -1
                else if float_gt rdn thres then 1
                else 0 in
       rest <- noise_row w' prob thres ;;
       ret (m :: rest))%py
  end.

(** The outer loop. *)
Fixpoint noise_rows (h w : nat) (prob thres : float) : M Random mask :=
  match h with
  | O => ret []
  | S h' =>
      (row <- noise_row w prob thres ;;
       rest <- noise_rows h' w prob thres ;;
       ret (row :: rest))%py
  end.

(** [sp_noise_mask] *)
Definition sp_noise_mask (shape : nat * nat) (prob : float) : M Random mask :=
  let thres := float_sub (Fin 1) prob in
  noise_rows (fst shape) (snd shape) prob thres.

(** [noise_effect] *)
Definition noise_effect (frame : ndarray) (value : float) : M Random mask :=
  let noise_shape := (shape0 frame, shape1 frame) in
  if float_lt value (literal (83 # 100)) then
    (prob <- lift (float_truediv value (Fin 3)) ;;
     sp_noise_mask noise_shape prob)%py
  else ret (repeat (repeat 1 (snd noise_shape)) (fst noise_shape)).

(** [x % 1] on floats: the remainder has the sign of the divisor. *)
Definition float_mod_1 (x : float) : float :=
  match x with
  | Fin q =>
      let t := if Qle_bool 0 q then Qfloor q else Qceiling q in
      let m := (q - inject_Z t)%Q in
      if is_neg m then round64 (m + 1)%Q else Fin (Qred m)
  | _ => NaN
  end.

(** A boolean mask fits the image it indexes when it has its shape;
    NumPy raises [IndexError] otherwise. *)
Definition fits (noise : mask) (a : ndarray) : bool :=
  (List.length noise =? shape0 a)%nat
  && forallb (fun row => (List.length row =? shape1 a)%nat) noise.

(** [frame[noise == m] = v] *)
Definition paint (noise : mask) (m : Z) (v : pixel) (a : ndarray)
  : outcome ndarray :=
  if fits noise a then
    Returns {| shape0 := shape0 a; shape1 := shape1 a;
               data := map (fun nr =>
                              map (fun np => if fst np =? m then v else snd np)
                                  (combine (fst nr) (snd nr)))
                           (combine noise (data a)) |}
  else Raises IndexError.

Section Effects.

(** [hue_to_rgb] is the colour conversion of OpenCV, which is not part of
    the program: the effect is written for any such conversion. *)
Variable hue_to_rgb : Z -> pixel.

(** [hue_effect]; [monotonic] is what [time.monotonic()] answers when the
    effect asks for it. *)
Definition hue_effect (frame : ndarray) (noise : mask) (value : float)
           (monotonic : float) : outcome ndarray :=
  (let HUE_THRESHOLD := literal (1 # 10) in
   let RAINBOW_THRESHOLD := literal (9 # 10) in
   let low := (0, 0, 0) in
   high <~ (if float_lt value HUE_THRESHOLD then Returns (255, 255, 255)
            else if float_lt value RAINBOW_THRESHOLD then
              hue <~ float_truediv (float_sub value HUE_THRESHOLD)
                                   (float_sub RAINBOW_THRESHOLD HUE_THRESHOLD) ;;
              n <~ round_float (float_mul hue (Fin 255)) ;;
              Returns (hue_to_rgb n)
            else
              let CYCLE_TIME := Fin 10 in
              t <~ float_truediv monotonic CYCLE_TIME ;;
              let cycle_position := float_mod_1 t in
              let hue := cycle_position in
              n <~ round_float (float_mul hue (Fin 255)) ;;
              Returns (hue_to_rgb n)) ;;
   frame <~ paint noise (-1) low frame ;;
   paint noise 1 high frame)%py.

End Effects.

(** The pixel at row [i] and column [j] of an array. *)
Definition pixel_at (a : ndarray) (i j : nat) : option pixel :=
  match nth_error (data a) i with
  | Some row => nth_error row j
  | None => None
  end.

(** ** The loop of [start_cam], from the resized frame on

    What the loop reaches besides the frame: the knob reader (or [None]
    when no serial device was found), the random generator, and the
    socket, kept as the datagrams that went out through it. *)
Record Program : Type := mkProgram {
  knob_reader : option KnobReader;
  random_state : Random;
  sock : list datagram
}.

Section Camera.

Variable hue_to_rgb : Z -> pixel.

(** [if knob_reader is not None: ...], with the reading of the clock that
    [hue_effect] may ask for. *)
Definition knob_effects (frame : ndarray) (monotonic : float)
  : M Program ndarray :=
  fun s =>
    match knob_reader s with
    | None => (Returns frame, s)
    | Some k =>
        match get_knob_values k with
        | (Returns (knob1, knob2), k') =>
            match noise_effect frame knob1 (random_state s) with
            | (Returns noise, g') =>
                (hue_effect hue_to_rgb frame noise knob2 monotonic,
                 {| knob_reader := Some k'; random_state := g';
                    sock := sock s |})
            | (Raises e, g') =>
                (Raises e, {| knob_reader := Some k'; random_state := g';
                              sock := sock s |})
            | (Blocks, g') =>
                (Blocks, {| knob_reader := Some k'; random_state := g';
                            sock := sock s |})
            end
        | (Raises e, k') =>
            (Raises e, {| knob_reader := Some k';
                          random_state := random_state s; sock := sock s |})
        | (Blocks, k') =>
            (Blocks, {| knob_reader := Some k';
                        random_state := random_state s; sock := sock s |})
        end
    end.

(** [send_quadrant(frame)] on the socket of the program. *)
Definition send_frame (frame : ndarray) : M Program unit :=
  fun s =>
    let '(r, w) := send_quadrant {| frame := frame; sent := sock s |} in
    (r, {| knob_reader := knob_reader s; random_state := random_state s;
           sock := sent w |}).

(** One turn of the loop of [start_cam] after [cv2.resize]: the mirror,
    the gamma table, the knob effects, the rotation, the ring light and
    the four datagrams. *)
Definition start_cam_body (frame : ndarray) (monotonic : float)
  : M Program unit :=
  (let frame := mirror frame in
   let frame := LUT frame GAMMA in
   let frame := astype_uint8 frame in
   frame <- knob_effects frame monotonic ;;
   let orientation := 3 in
   let frame := if orientation =? 1 then rot90 frame 1
                else if orientation =? 2 then rot90 frame 2
                else if orientation =? 3 then rot90 frame 3
                else frame in
   let RING_LIGHT_ON := true in
   let frame := if RING_LIGHT_ON then ring_light frame else frame in
   send_frame frame)%py.

End Camera.

(* ================================================================== *)
(** * The specification's vocabulary

    The definitions below are not code of the program: they say, in the
    words of the specification, what the encoder and the reader are
    compared with. *)

(** Applying [f] to the elements at odd positions (0-indexed). *)
Fixpoint map_odd {A} (f : A -> A) (l : list A) : list A :=
  match l with
  | a :: b :: t => a :: f b :: map_odd f t
  | _ => l
  end.

(** Serpentine order: every odd row of a quadrant reversed. *)
Definition serpentine (q : grid) : grid := map_odd (@rev pixel) q.

(** The four quadrants of an [2h] by [2w] frame, top-left, top-right,
    bottom-left, bottom-right. *)
Definition quadrant_views (h w : nat) : list view :=
  [ {| row0 := 0; col0 := 0; nrows := h; ncols := w |};
    {| row0 := 0; col0 := w; nrows := h; ncols := w |};
    {| row0 := h; col0 := 0; nrows := h; ncols := w |};
    {| row0 := h; col0 := w; nrows := h; ncols := w |} ].

Definition quadrants_of (a : ndarray) : list grid :=
  map (fun q => slice q (data a))
      (quadrant_views (Nat.div2 (shape0 a)) (Nat.div2 (shape1 a))).

(** The LEDs of a quadrant: one black placeholder, then its pixels in
    serpentine order, row after row. *)
Definition leds (q : grid) : list pixel :=
  (0, 0, 0) :: List.concat (serpentine q).

(** Exclusive cumulative sum: each entry is the sum of the entries before. *)
Fixpoint exclusive_cumsum (acc : Z) (l : list Z) : list Z :=
  match l with
  | [] => []
  | x :: t => acc :: exclusive_cumsum (acc + x) t
  end.

(** Putting quadrants side by side and on top of each other. *)
Fixpoint beside (l r : grid) : grid :=
  match l, r with
  | a :: l', b :: r' => (a ++ b) :: beside l' r'
  | _, _ => []
  end.

Definition assemble (qs : list grid) : grid :=
  match qs with
  | [tl; tr; bl; br] => beside tl tr ++ beside bl br
  | _ => []
  end.

(** The frame with every quadrant in serpentine order. *)
Definition serpentine_frame (a : ndarray) : ndarray :=
  {| shape0 := shape0 a; shape1 := shape1 a;
     data := assemble (map serpentine (quadrants_of a)) |}.

(** Reading a datagram back: the start index of its header, and the number
    of LEDs of its payload. *)
Definition start_index_of (d : datagram) : Z :=
  nth 2 d 0 * 256 + nth 3 d 0.

Definition payload_of (d : datagram) : list Z := skipn 4 d.

Definition led_count (d : datagram) : Z :=
  Z.of_nat (List.length (payload_of d)) / 3.

(** The datagram of one segment. *)
Definition datagram_of (segment : list Z * Z) : datagram :=
  [DNRGB_PROTOCOL_VALUE; 5; Z.shiftr (snd segment) 8; Z.land (snd segment) 255]
  ++ fst segment.

(** Truncation toward zero, the other way to make a mean an integer. *)
Definition truncated_mean (b : list reading) : reading :=
  (Z.quot (sum_fst b) (Z.of_nat (List.length b)),
   Z.quot (sum_snd b) (Z.of_nat (List.length b))).

(** [n] calls of [read] in a row, the device delivering nothing in between:
    the values returned, and the reader after the last call. *)
Fixpoint reads (n : nat) (k : KnobReader) : list (outcome reading) * KnobReader :=
  match n with
  | O => ([], k)
  | S n' =>
      let '(r, k') := read k in
      let '(rs, k'') := reads n' k' in
      (r :: rs, k'')
  end.

(** Some frames and lines to run the code on. *)
Definition px (n : Z) : pixel := (n, n, n).

Definition numbered (h w : nat) : ndarray :=
  {| shape0 := h; shape1 := w;
     data := map (fun i => map (fun j => px (Z.of_nat (i * w + j))) (seq 0 w))
                 (seq 0 h) |}.

Definition black (n : nat) : ndarray :=
  {| shape0 := n; shape1 := n; data := repeat (repeat (0, 0, 0) n) n |}.

Definition line (a b : bytes) : bytes :=
  (a ++ byte_of TAB ++ b ++ byte_of NL)%string.

Definition idle_serial : Serial := {| rx := ""%string; tx := ""%string |}.

(** The literal of [n] digits 1. *)
Fixpoint ones (n : nat) : bytes :=
  match n with
  | O => EmptyString
  | S n' => String "1" (ones n')
  end.

(** A reader after its first [read], which sent the request, and after the
    device has delivered [b]. *)
Definition awaiting (initial_value : Z) (b : bytes) : KnobReader :=
  let k := snd (read (init initial_value idle_serial)) in
  set_ser (deliver b (ser k)) k.

(** [f] applied at the odd positions when [odd] is false at the head, at
    the even ones otherwise: [map_odd] with the parity of the head made
    explicit. *)
Fixpoint map_alt {A} (odd : bool) (f : A -> A) (l : list A) : list A :=
  match l with
  | [] => []
  | x :: t => (if odd then f x else x) :: map_alt (negb odd) f t
  end.

(** The grids with [h] rows of [w] pixels. *)
Definition has_shape (h w : nat) (g : grid) : Prop :=
  List.length g = h /\ Forall (fun row => List.length row = w) g.

(** A row with the window [c0 .. c0 + n) reversed in place. *)
Definition rev_window {A} (c0 n : nat) (row : list A) : list A :=
  splice c0 (rev (window c0 n row)) row.

(** The four segments the spec describes, each with its start index. *)
Definition segments_of (a : ndarray) : list (list Z * Z) :=
  combine (map (fun q => flatten (leds q)) (quadrants_of a))
          (exclusive_cumsum 0
             (map (fun q => Z.of_nat (List.length (leds q))) (quadrants_of a))).

(** The LEDs of one quadrant of a frame: the placeholder and a quarter of
    the pixels. *)
Definition leds_per_quadrant (a : ndarray) : Z :=
  1 + Z.of_nat (Nat.div2 (shape0 a) * Nat.div2 (shape1 a)).

Definition start_index_message : string :=
  "Start index must be a nonnegative 16-bit number".

(** The bytes of each of the four datagrams of a frame: the header and
    three bytes for every LED. *)
Definition datagram_size (a : ndarray) : Z := 4 + 3 * leds_per_quadrant a.

(* ================================================================== *)
(** * The vocabulary of the further properties

    Not code of the program either: the closed forms, the ranges and the
    sample inputs that the properties proved after the claims are stated
    with. *)

(** The rows [zoom] keeps of [l]: [l / 1.3] rounded to the nearest
    integer, in integer arithmetic. *)
Definition rows_kept (l : nat) : nat :=
  Z.to_nat ((20 * Z.of_nat l + 13) / 26).

(** The ring of [FRAME_WIDTH] pixels along the four sides of an [h] by [w]
    image. *)
Definition on_border (h w i j : nat) : bool :=
  ((i <? 3) || (h - 3 <=? i) || (j <? 3) || (w - 3 <=? j))%nat.

(** The readers a program can get to: it makes one, the device delivers
    bytes, and the program calls [read] and [buffered_read]. *)
Inductive reachable (initial_value : Z) : KnobReader -> Prop :=
| reach_init : forall s : Serial, reachable initial_value (init initial_value s)
| reach_deliver : forall (k : KnobReader) (b : bytes),
    reachable initial_value k ->
    reachable initial_value (set_ser (deliver b (ser k)) k)
| reach_read : forall k : KnobReader,
    reachable initial_value k -> reachable initial_value (snd (read k))
| reach_buffered_read : forall k : KnobReader,
    reachable initial_value k -> reachable initial_value (snd (buffered_read k)).

(** Both components of a reading between two bounds. *)
Definition within (lo hi : Z) (r : reading) : Prop :=
  lo <= fst r <= hi /\ lo <= snd r <= hi.

(** The place of a pixel in the segment of its quadrant: the placeholder
    first, then the rows of [w] pixels, the odd ones from right to left. *)
Definition led_position (w r c : nat) : nat :=
  (1 + r * w + (if Nat.odd r then w - 1 - c else c))%nat.

(** A float that is not above zero: a finite value at most 0, or minus
    infinity. *)
Definition nonpositive (f : float) : Prop :=
  match f with
  | Fin q => (q <= 0)%Q
  | Inf s => s = true
  | NaN => False
  end.

(** A float that is at least [B]: a finite value from [B] on, or plus
    infinity. *)
Definition at_least (B : Q) (f : float) : Prop :=
  match f with
  | Fin q => (B <= q)%Q
  | Inf s => s = false
  | NaN => False
  end.

(** The two clamps and the rescaling, the last three statements of
    [voltage_to_value]. *)
Definition clamp_and_rescale (voltage : float) : outcome float :=
  let voltage := if float_gt voltage (literal (28 # 10))
                 then literal (28 # 10) else voltage in
  let voltage := if float_lt voltage (literal (5 # 100))
                 then literal (5 # 100) else voltage in
  float_truediv (float_sub voltage (literal (5 # 100))) (literal (275 # 100)).

(** The entry of a mask at row [i] and column [j]. *)
Definition mask_at (noise : mask) (i j : nat) : option Z :=
  match nth_error noise i with
  | Some row => nth_error row j
  | None => None
  end.

(** The generator after [n] more draws. *)
Definition advance (n : nat) (g : Random) : Random :=
  {| draws := draws g; drawn := drawn g + n |}.

(** The branch of [sp_noise_mask] on one draw. *)
Definition noise_entry (prob thres rdn : float) : Z :=
  if float_lt rdn prob then -1 else if float_gt rdn thres then 1 else 0.

(** A channel value of a [uint8] image. *)
Definition uint8 (v : Z) : Prop := 0 <= v <= 255.

(** The entry of the gamma table for a channel value. *)
Definition gamma (v : Z) : Z := nth (Z.to_nat v) GAMMA 0.

(** The frame on the LEDs when no knob is read: mirrored, gamma-corrected,
    turned, with the ring light. *)
Definition shown (frame : ndarray) : ndarray :=
  ring_light (rot90 (astype_uint8 (LUT (mirror frame) GAMMA)) 3).

(** A frame of one colour. *)
Definition plain (h w : nat) (p : pixel) : ndarray :=
  {| shape0 := h; shape1 := w; data := repeat (repeat p w) h |}.

(** Some programs to run the loop on. *)
Definition silent_generator : Random :=
  {| draws := fun _ => Fin 0; drawn := 0 |}.

Definition program_without_knobs : Program :=
  {| knob_reader := None; random_state := silent_generator; sock := [] |}.

(** A generator whose draws go through 0, 1/2 and 15/16. *)
Definition cycling_generator : Random :=
  {| draws := fun n => match (n mod 3)%nat with
                       | 0%nat => Fin 0
                       | 1%nat => Fin (1 # 2)
                       | _ => Fin (15 # 16)
                       end;
     drawn := 0 |}.

(** A program whose reader has sent its request and holds the answer of the
    device, with both knobs near the middle. *)
Definition program_with_knobs : Program :=
  {| knob_reader := Some (awaiting 30000 (line "30000" "60000"));
     random_state := cycling_generator; sock := [] |}.

(* ================================================================== *)
(** * The reader: what [read] does in each state *)

Section Read.

Variable k : KnobReader.

(** A reader without an outstanding request sends one byte, notes that
    it waits, and answers the held reading. *)
Lemma read_idle :
  waiting k = false ->
  read k = (Returns (last_values k),
            set_waiting true (set_ser (write (byte_of NL) (ser k)) k)).
Proof.
  intros Hw. unfold read, bind, gets, modify. simpl. rewrite Hw. reflexivity.
Qed.

(** With a request outstanding and fewer than twelve bytes buffered,
    nothing moves. *)
Lemma read_short :
  waiting k = true -> in_waiting (ser k) < 12 ->
  read k = (Returns (last_values k), k).
Proof.
  intros Hw Hn. unfold read, bind, gets. simpl. rewrite Hw. simpl.
  apply Z.ltb_lt in Hn. rewrite Hn. reflexivity.
Qed.

(** With twelve bytes or more, one line is consumed and the [try] block
    decides: the parsed pair, the sentinel after a [ValueError], or the
    exception the handler does not name. *)
Lemma read_line :
  forall l s',
    waiting k = true -> 12 <= in_waiting (ser k) ->
    readline (ser k) = Some (l, s') ->
    read k =
    match parse_values l with
    | Returns v =>
        (Returns v, set_last_values v (set_waiting false (set_ser s' k)))
    | Raises (ValueError _) =>
        (Returns (0, 0),
         set_last_values (0, 0)
           (set_waiting false (print (invalid_message l) (set_ser s' k))))
    | Raises e => (Raises e, set_ser s' k)
    | Blocks => (Blocks, set_ser s' k)
    end.
Proof.
  intros l s' Hw Hn Hl. unfold read, bind, gets. simpl. rewrite Hw. simpl.
  apply Z.ltb_ge in Hn. rewrite Hn, Hl.
  unfold modify, try_except_ValueError, lift, ret. simpl.
  destruct (parse_values l) as [v | e | ]; try reflexivity.
  destruct e; reflexivity.
Qed.

(** With twelve bytes or more and no line terminator among them,
    [readline] waits for the device. *)
Lemma read_blocks :
  waiting k = true -> 12 <= in_waiting (ser k) ->
  readline (ser k) = None ->
  read k = (Blocks, k).
Proof.
  intros Hw Hn Hl. unfold read, bind, gets. simpl. rewrite Hw. simpl.
  apply Z.ltb_ge in Hn. rewrite Hn, Hl. reflexivity.
Qed.

End Read.

(** [read] never touches the history buffer. *)
Lemma read_keeps_buffer :
  forall k, buffer (snd (read k)) = buffer k.
Proof.
  intros k. destruct (waiting k) eqn:Hw.
  - destruct (Z.ltb_spec (in_waiting (ser k)) 12) as [Hn | Hn].
    + rewrite read_short by assumption. reflexivity.
    + destruct (readline (ser k)) as [[l s'] | ] eqn:Hl.
      * rewrite (read_line k l s') by assumption.
        destruct (parse_values l) as [v | [] | ]; reflexivity.
      * rewrite read_blocks by assumption. reflexivity.
  - rewrite read_idle by assumption. reflexivity.
Qed.

(** What the [try] block computes, field by field. *)
Lemma parse_values_fields :
  forall l f0 f1 rest,
    split_tab l = f0 :: f1 :: rest ->
    parse_values l =
    match int_literal f0, int_literal f1 with
    | Some a, Some b => Returns (a, b)
    | Some _, None => Raises (ValueError (int_message f1))
    | None, _ => Raises (ValueError (int_message f0))
    end.
Proof.
  intros l f0 f1 rest H. unfold parse_values. rewrite H.
  unfold index, int. simpl.
  destruct (int_literal f0); simpl; [ | reflexivity ].
  destruct (int_literal f1); reflexivity.
Qed.

(** A line without a tab has one field: when it is an integer literal, the
    second index is out of range. *)
Lemma parse_values_one_field :
  forall l f0,
    split_tab l = [f0] ->
    parse_values l =
    match int_literal f0 with
    | Some _ => Raises IndexError
    | None => Raises (ValueError (int_message f0))
    end.
Proof.
  intros l f0 H. unfold parse_values. rewrite H. unfold index, int. simpl.
  destruct (int_literal f0); reflexivity.
Qed.

(** [split] never answers the empty list. *)
Lemma split_tab_nonempty : forall s, split_tab s <> [].
Proof.
  induction s as [ | c r IH]; simpl; [ discriminate | ].
  destruct (Ascii.eqb c TAB); [ discriminate | ].
  destruct (split_tab r); discriminate.
Qed.

(** Polling a silent device: the answers and the reader after [n] calls. *)
Lemma reads_short :
  forall n k,
    waiting k = true -> in_waiting (ser k) < 12 ->
    reads n k = (repeat (Returns (last_values k)) n, k).
Proof.
  induction n as [ | n IH]; intros k Hw Hn; simpl; [ reflexivity | ].
  rewrite read_short by assumption.
  rewrite IH by assumption. reflexivity.
Qed.

(** C3: while a request is outstanding and fewer than 12 bytes are
    buffered, [read] returns the held reading and changes nothing, so the
    state stays AWAITING_RESPONSE; and on a device that never delivers
    enough, any number of consecutive calls, from either state, all return
    the held reading and leave the reader awaiting the response. *)
Theorem read_holds_while_awaiting :
  forall k : KnobReader,
    in_waiting (ser k) < 12 ->
    (waiting k = true -> read k = (Returns (last_values k), k)) /\
    (forall n : nat,
        fst (reads n k) = repeat (Returns (last_values k)) n /\
        last_values (snd (reads n k)) = last_values k /\
        (waiting k = true -> snd (reads n k) = k) /\
        (0 < n -> waiting (snd (reads n k)) = true)%nat).
Proof.
  intros k Hn. split.
  - intros Hw. now apply read_short.
  - intros n. destruct (waiting k) eqn:Hw.
    + rewrite reads_short by assumption. simpl.
      repeat split; auto.
    + destruct n as [ | n]; simpl.
      * repeat split; auto. intros H. inversion H.
      * rewrite read_idle by assumption.
        rewrite reads_short; simpl; auto.
        repeat split; auto. discriminate.
Qed.

Lemma read_holds_while_awaiting_witness :
  read (awaiting 7 "12"%string) = (Returns (7, 7), awaiting 7 "12"%string) /\
  fst (reads 3 (init 7 idle_serial)) =
    [Returns (7, 7); Returns (7, 7); Returns (7, 7)] /\
  waiting (snd (reads 3 (init 7 idle_serial))) = true.
Proof.
  assert (H1 : in_waiting (ser (awaiting 7 "12"%string)) < 12) by (vm_compute; reflexivity).
  assert (H2 : in_waiting (ser (init 7 idle_serial)) < 12) by (vm_compute; reflexivity).
  split; [ | split ].
  - exact (proj1 (read_holds_while_awaiting _ H1) eq_refl).
  - exact (proj1 (proj2 (read_holds_while_awaiting _ H2) 3%nat)).
  - apply (proj2 (proj2 (proj2 (proj2 (read_holds_while_awaiting _ H2) 3%nat)))).
    repeat constructor.
Defined.

(* ================================================================== *)
(** * The reader: malformed lines *)

(** A line with a tab in it never makes [read] raise: it yields the two
    parsed fields or, after a [ValueError], the sentinel. *)
Lemma read_line_with_tab :
  forall k l s' f0 f1 rest,
    waiting k = true -> 12 <= in_waiting (ser k) ->
    readline (ser k) = Some (l, s') ->
    split_tab l = f0 :: f1 :: rest ->
    read k =
    match int_literal f0, int_literal f1 with
    | Some a, Some b =>
        (Returns (a, b),
         set_last_values (a, b) (set_waiting false (set_ser s' k)))
    | _, _ =>
        (Returns (0, 0),
         set_last_values (0, 0)
           (set_waiting false (print (invalid_message l) (set_ser s' k))))
    end.
Proof.
  intros k l s' f0 f1 rest Hw Hn Hl Hs.
  rewrite (read_line k l s' Hw Hn Hl), (parse_values_fields l f0 f1 rest Hs).
  destruct (int_literal f0); [ destruct (int_literal f1) | ]; reflexivity.
Qed.

(** [int()] refuses a literal of more than 4300 digits, and takes one of
    4300. *)
Lemma int_literal_over_limit :
  forall s : bytes,
    (MAX_STR_DIGITS < count_digits s)%nat -> int_literal s = None.
Proof.
  intros s H. unfold int_literal. apply Nat.ltb_lt in H. rewrite H.
  destruct (int_syntax s); reflexivity.
Qed.

Example int_literal_at_the_limit :
  (exists z : Z, int_literal (ones 4300) = Some z) /\
  int_literal (ones 4301) = None /\
  int (ones 4301)
  = Raises (ValueError
              "Exceeds the limit (4300 digits) for integer string conversion").
Proof.
  split; [ | split ].
  - destruct (int_literal (ones 4300)) as [z | ] eqn:E.
    + exists z. reflexivity.
    + exfalso. vm_compute in E. discriminate.
  - vm_compute. reflexivity.
  - vm_compute. reflexivity.
Qed.

(** A field of 4301 digits is a parse failure like any other: the sentinel,
    and one diagnostic. *)
Example read_long_literal :
  fst (read (awaiting 7 (line (ones 4301) "34"))) = Returns (0, 0) /\
  stdout (snd (read (awaiting 7 (line (ones 4301) "34"))))
  = [invalid_message (line (ones 4301) "34")].
Proof. vm_compute. split; reflexivity. Qed.

(** The diagnostic shows the line as [repr] does: behind the prefix [b]
    and between quotes, the tab and the line terminator each escaped as a
    backslash and a letter (the strings of this file have no escapes: a
    backslash in them is a backslash). *)
Example invalid_message_abc_34 :
  invalid_message (line "      abc" "34")
  = "invalid value(s) in b'      abc\t34\n'"%string.
Proof. vm_compute. reflexivity. Qed.

(** The spec's example: ["abc\t34\n"] (behind padding, to reach twelve
    bytes) gives the sentinel and one diagnostic. *)
Example read_abc_34 :
  read (awaiting 7 (line "      abc" "34")) =
  (Returns (0, 0),
   set_last_values (0, 0)
     (set_waiting false
        (print (invalid_message (line "      abc" "34"))
               (awaiting 7 "")))).
Proof. vm_compute. reflexivity. Qed.

(** The spec's example of a well-formed answer: ["12\t34\n"] (behind
    padding) is parsed into [(12, 34)], held, and the reader is idle. *)
Example read_12_34 :
  read (awaiting 7 (line "      12" " 34")) =
  (Returns (12, 34),
   set_last_values (12, 34) (set_waiting false (awaiting 7 ""))).
Proof. vm_compute. reflexivity. Qed.

(** A line without a tab whose content is an integer literal: the second
    index is out of range, the handler does not apply, and the exception
    leaves [read] with the line consumed and the request still marked
    outstanding. *)
Lemma read_line_without_tab :
  forall k l s' f0 a,
    waiting k = true -> 12 <= in_waiting (ser k) ->
    readline (ser k) = Some (l, s') ->
    split_tab l = [f0] -> int_literal f0 = Some a ->
    read k = (Raises IndexError, set_ser s' k).
Proof.
  intros k l s' f0 a Hw Hn Hl Hs Ha.
  rewrite (read_line k l s' Hw Hn Hl), (parse_values_one_field l f0 Hs), Ha.
  reflexivity.
Qed.

(** C4 (the code departs from it): a line that holds an integer and no tab
    makes [read] raise.  Twelve bytes are buffered, the line is consumed,
    its only field converts, and [values[1]] raises [IndexError], which
    [except ValueError] does not catch: no sentinel, no diagnostic, and the
    reader still awaits a response. *)
Theorem read_raises_on_line_without_tab :
  in_waiting (ser (awaiting 7 ("12345678901" ++ byte_of NL)%string)) = 12 /\
  read (awaiting 7 ("12345678901" ++ byte_of NL)%string) =
  (Raises IndexError, awaiting 7 ""%string).
Proof. vm_compute. split; reflexivity. Qed.

(** C6, as the spec words it, fails: a line of two fields [-1] is returned
    as [(-1, -1)], not as the sentinel. *)
Lemma read_minus_one_is_not_sentinel :
  in_waiting (ser (awaiting 7 (line "-1" "-1" ++ line "-1" "-1")%string)) = 12 /\
  fst (read (awaiting 7 (line "-1" "-1" ++ line "-1" "-1")%string))
  = Returns (-1, -1) /\
  fst (read (awaiting 7 (line "-1" "-1" ++ line "-1" "-1")%string))
  <> Returns (0, 0).
Proof. vm_compute. repeat split. discriminate. Qed.

(** C6, amended: when [read] consumes a line, two fields that are integer
    literals are returned as parsed, whatever their values ([-1] is one of
    them); the sentinel [(0, 0)], with a diagnostic, stands for a field that
    [int()] rejects and for nothing else.  Either way the reading is held
    and the reader is idle again. *)
Theorem read_returns_fields_as_parsed :
  forall (k : KnobReader) (l : bytes) (s' : Serial) (f0 f1 : bytes)
         (rest : list bytes),
    waiting k = true ->
    12 <= in_waiting (ser k) ->
    readline (ser k) = Some (l, s') ->
    split_tab l = f0 :: f1 :: rest ->
    (forall a b : Z,
        int_literal f0 = Some a -> int_literal f1 = Some b ->
        fst (read k) = Returns (a, b) /\
        last_values (snd (read k)) = (a, b) /\
        waiting (snd (read k)) = false /\
        stdout (snd (read k)) = stdout k) /\
    (int_literal f0 = None \/ int_literal f1 = None ->
     fst (read k) = Returns (0, 0) /\
     last_values (snd (read k)) = (0, 0) /\
     waiting (snd (read k)) = false /\
     stdout (snd (read k)) = stdout k ++ [invalid_message l]).
Proof.
  intros k l s' f0 f1 rest Hw Hn Hl Hs.
  pose proof (read_line_with_tab k l s' f0 f1 rest Hw Hn Hl Hs) as R.
  split.
  - intros a b Ha Hb. rewrite Ha, Hb in R. rewrite R. simpl. auto.
  - intros [H0 | H1].
    + rewrite H0 in R. rewrite R. simpl. auto.
    + rewrite H1 in R. destruct (int_literal f0); rewrite R; simpl; auto.
Qed.

Lemma read_returns_fields_as_parsed_witness :
  fst (read (awaiting 7 (line "-1" "-1" ++ line "-1" "-1")%string))
  = Returns (-1, -1) /\
  last_values (snd (read (awaiting 7 (line "-1" "-1" ++ line "-1" "-1")%string)))
  = (-1, -1).
Proof.
  pose proof (read_returns_fields_as_parsed
                (awaiting 7 (line "-1" "-1" ++ line "-1" "-1")%string)
                (line "-1" "-1")
                (ser (awaiting 7 (line "-1" "-1")))
                "-1"%string ("-1" ++ byte_of NL)%string []
                eq_refl) as H.
  assert (Hn : 12 <= in_waiting (ser (awaiting 7 (line "-1" "-1" ++ line "-1" "-1")%string)))
    by (vm_compute; discriminate).
  specialize (H Hn eq_refl eq_refl).
  destruct (proj1 H (-1) (-1) eq_refl eq_refl) as (A & B & _).
  exact (conj A B).
Defined.

(* ================================================================== *)
(** * The reader: the moving average *)

Lemma removelast_length :
  forall {A} (l : list A), List.length (removelast l) = pred (List.length l).
Proof.
  induction l as [ | a [ | b t] IH]; simpl in *; auto.
Qed.

(** [buffered_read] after a [read] that returned. *)
Lemma buffered_read_run :
  forall k v k',
    buffer k <> [] ->
    read k = (Returns v, k') ->
    buffered_read k =
    (Returns (mean (v :: removelast (buffer k))),
     set_buffer (v :: removelast (buffer k)) k').
Proof.
  intros k v k' Hb Hr.
  assert (Hk : buffer k' = buffer k).
  { pose proof (read_keeps_buffer k) as H. rewrite Hr in H. exact H. }
  unfold buffered_read, bind. rewrite Hr. unfold gets, lift, modify, ret.
  rewrite Hk. unfold pop_then_push.
  destruct (buffer k) as [ | x t]; [ congruence | reflexivity ].
Qed.

(** A [read] that raises or blocks leaves the buffer alone. *)
Lemma buffered_read_propagates :
  forall k e k',
    read k = (Raises e, k') -> buffered_read k = (Raises e, k').
Proof.
  intros k e k' Hr. unfold buffered_read, bind. rewrite Hr. reflexivity.
Qed.

(** C7, as the spec words it, fails on negative readings: after ten
    [(0, 0)] and one [(-1, -1)] the component sums are [-1], the code
    answers [(-1, -1)] (its [//] rounds down), and the truncated mean of
    the same buffer is [(0, 0)]. *)
Lemma buffered_read_floors_negative_mean :
  fst (buffered_read (awaiting 0 (line "-1" "-1" ++ line "-1" "-1")%string))
  = Returns (-1, -1) /\
  truncated_mean
    (buffer (snd (buffered_read
                    (awaiting 0 (line "-1" "-1" ++ line "-1" "-1")%string))))
  = (0, 0).
Proof. vm_compute. split; reflexivity. Qed.

(** C7, amended: every call of [buffered_read] whose [read] returns pushes
    that one reading in front of the ten-entry buffer and drops the oldest,
    so the buffer keeps ten entries, and returns, per component, the
    arithmetic mean of the buffer rounded down (toward minus infinity);
    that is the truncated mean whenever the component sums are not
    negative.  Ten [(10, 10)] followed by one [(0, 0)] give [(9, 9)]. *)
Theorem buffered_read_pushes_and_floors :
  (forall (k k' : KnobReader) (v : reading),
      List.length (buffer k) = 10%nat ->
      read k = (Returns v, k') ->
      buffered_read k =
        (Returns (mean (v :: removelast (buffer k))),
         set_buffer (v :: removelast (buffer k)) k') /\
      List.length (v :: removelast (buffer k)) = 10%nat /\
      10 * fst (mean (v :: removelast (buffer k)))
        <= sum_fst (v :: removelast (buffer k))
        < 10 * fst (mean (v :: removelast (buffer k))) + 10 /\
      10 * snd (mean (v :: removelast (buffer k)))
        <= sum_snd (v :: removelast (buffer k))
        < 10 * snd (mean (v :: removelast (buffer k))) + 10 /\
      (0 <= sum_fst (v :: removelast (buffer k)) ->
       0 <= sum_snd (v :: removelast (buffer k)) ->
       mean (v :: removelast (buffer k))
       = truncated_mean (v :: removelast (buffer k)))) /\
  buffer (init 10 idle_serial) = repeat (10, 10) 10 /\
  fst (read (awaiting 10 (line "         0" "0"))) = Returns (0, 0) /\
  fst (buffered_read (awaiting 10 (line "         0" "0"))) = Returns (9, 9).
Proof.
  split; [ | vm_compute; repeat split ].
  intros k k' v Hlen Hr.
  assert (Hne : buffer k <> []) by (intros E; rewrite E in Hlen; discriminate).
  assert (L : List.length (v :: removelast (buffer k)) = 10%nat).
  { simpl. rewrite removelast_length, Hlen. reflexivity. }
  split; [ now apply buffered_read_run | ].
  split; [ exact L | ].
  unfold mean, truncated_mean. rewrite L. cbn [fst snd].
  change (Z.of_nat 10) with 10.
  split; [ | split ].
  - pose proof (Z.div_mod (sum_fst (v :: removelast (buffer k))) 10 ltac:(lia)).
    pose proof (Z.mod_pos_bound (sum_fst (v :: removelast (buffer k))) 10 ltac:(lia)).
    lia.
  - pose proof (Z.div_mod (sum_snd (v :: removelast (buffer k))) 10 ltac:(lia)).
    pose proof (Z.mod_pos_bound (sum_snd (v :: removelast (buffer k))) 10 ltac:(lia)).
    lia.
  - intros Ha Hb.
    rewrite !Z.quot_div_nonneg by lia. reflexivity.
Qed.

Lemma buffered_read_pushes_and_floors_witness :
  buffered_read (awaiting 10 (line "         0" "0"))
  = (Returns (9, 9),
     set_buffer ((0, 0) :: repeat (10, 10) 9)
       (set_last_values (0, 0) (set_waiting false (awaiting 10 "")))).
Proof.
  exact (proj1 (proj1 buffered_read_pushes_and_floors
                  (awaiting 10 (line "         0" "0"))
                  (set_last_values (0, 0) (set_waiting false (awaiting 10 "")))
                  (0, 0) eq_refl eq_refl)).
Defined.

(* ================================================================== *)
(** * Lists: odd positions, windows and stores *)

Section ListFacts.

Context {A : Type}.

(** Induction two elements at a time, as [l[1::2]] recurses. *)
Lemma list_ind2 (P : list A -> Prop) :
  P [] -> (forall a, P [a]) -> (forall a b t, P t -> P (a :: b :: t)) ->
  forall l, P l.
Proof.
  intros H0 H1 H2 l.
  assert (H : P l /\ forall a, P (a :: l)).
  { induction l as [ | x l [IHl IHxl]]; split; auto. }
  exact (proj1 H).
Qed.

Lemma map_odd_alt (f : A -> A) (l : list A) :
  map_odd f l = map_alt false f l.
Proof.
  induction l as [ | a | a b t IH] using list_ind2; simpl; try reflexivity.
  now rewrite IH.
Qed.

Lemma map_alt_length (f : A -> A) (l : list A) (o : bool) :
  List.length (map_alt o f l) = List.length l.
Proof.
  revert o. induction l as [ | x t IH]; intros o; simpl; [ reflexivity | ].
  now rewrite IH.
Qed.

Lemma map_odd_length (f : A -> A) (l : list A) :
  List.length (map_odd f l) = List.length l.
Proof. rewrite map_odd_alt. apply map_alt_length. Qed.

(** The element at position [i] of [map_odd f l]. *)
Lemma map_alt_nth_error (f : A -> A) (l : list A) :
  forall (o : bool) (i : nat),
    nth_error (map_alt o f l) i =
    option_map (fun x => if xorb o (Nat.odd i) then f x else x)
               (nth_error l i).
Proof.
  induction l as [ | x t IH]; intros o i.
  - destruct i; reflexivity.
  - destruct i as [ | i]; simpl.
    + now destruct o.
    + rewrite IH. rewrite Nat.odd_succ, <- Nat.negb_odd.
      destruct (nth_error t i); simpl; [ | reflexivity ].
      now destruct o, (Nat.odd i).
Qed.

Lemma map_odd_nth_error (f : A -> A) (l : list A) (i : nat) :
  nth_error (map_odd f l) i =
  option_map (fun x => if Nat.odd i then f x else x) (nth_error l i).
Proof. rewrite map_odd_alt. apply map_alt_nth_error. Qed.

Lemma map_alt_Forall (P : A -> Prop) (f : A -> A) (l : list A) (o : bool) :
  (forall x, P x -> P (f x)) -> Forall P l -> Forall P (map_alt o f l).
Proof.
  intros Hf H. revert o. induction H as [ | x t Hx Ht IH]; intros o; simpl.
  - constructor.
  - constructor; [ destruct o; auto | apply IH ].
Qed.

Lemma map_alt_involutive (f : A -> A) (l : list A) (o : bool) :
  (forall x, f (f x) = x) -> map_alt o f (map_alt o f l) = l.
Proof.
  intros Hf. revert o. induction l as [ | x t IH]; intros o; simpl.
  - reflexivity.
  - rewrite IH. destruct o; [ rewrite Hf | ]; reflexivity.
Qed.

Lemma update_nth_app (f : A -> A) (pre l : list A) (i : nat) :
  update_nth (List.length pre + i) f (pre ++ l) = pre ++ update_nth i f l.
Proof.
  induction pre as [ | x pre IH]; simpl; [ reflexivity | ].
  now rewrite IH.
Qed.

(** The window of a row made of two halves. *)
Lemma window_left (w : nat) (l r : list A) :
  List.length l = w -> window 0 w (l ++ r) = l.
Proof.
  intros H. unfold window. simpl. subst w.
  rewrite firstn_app, Nat.sub_diag, firstn_all. simpl. apply app_nil_r.
Qed.

Lemma window_right (w : nat) (l r : list A) :
  List.length l = w -> List.length r = w -> window w w (l ++ r) = r.
Proof.
  intros Hl Hr. unfold window.
  rewrite skipn_app, Hl, Nat.sub_diag. simpl.
  rewrite skipn_all2 by lia. simpl. rewrite <- Hr. apply firstn_all.
Qed.

Lemma rev_window_left (w : nat) (l r : list A) :
  List.length l = w -> rev_window 0 w (l ++ r) = rev l ++ r.
Proof.
  intros H. unfold rev_window, splice. rewrite (window_left w l r H). simpl.
  rewrite length_rev, H, skipn_app, <- H, Nat.sub_diag.
  rewrite skipn_all. reflexivity.
Qed.

Lemma rev_window_right (w : nat) (l r : list A) :
  List.length l = w -> List.length r = w ->
  rev_window w w (l ++ r) = l ++ rev r.
Proof.
  intros Hl Hr. unfold rev_window, splice. rewrite (window_right w l r Hl Hr).
  rewrite length_rev, Hr.
  rewrite firstn_app, Hl, Nat.sub_diag, <- Hl, firstn_all. simpl.
  rewrite app_nil_r. f_equal.
  rewrite skipn_all2 by (rewrite length_app; lia).
  now rewrite app_nil_r.
Qed.

End ListFacts.

(* ================================================================== *)
(** * Grids: quadrants side by side, and the in-place reversal *)

Lemma has_shape_serpentine :
  forall h w q, has_shape h w q -> has_shape h w (serpentine q).
Proof.
  intros h w q [Hl Hr]. unfold serpentine. split.
  - now rewrite map_odd_length.
  - rewrite map_odd_alt. apply map_alt_Forall; [ | exact Hr ].
    intros x Hx. now rewrite length_rev.
Qed.

Lemma beside_length :
  forall l r : grid,
    List.length l = List.length r -> List.length (beside l r) = List.length l.
Proof.
  induction l as [ | a l IH]; intros [ | b r] H; simpl in *; try congruence.
  now rewrite IH by congruence.
Qed.

Lemma beside_row_lengths :
  forall (w : nat) (l r : grid),
    Forall (fun row => List.length row = w) l ->
    Forall (fun row => List.length row = w) r ->
    Forall (fun row => List.length row = w + w)%nat (beside l r).
Proof.
  intros w l r Hl. revert r.
  induction Hl as [ | a l Ha Hl IH]; intros r Hr; simpl; [ constructor | ].
  destruct Hr as [ | b r Hb Hr]; constructor.
  - rewrite length_app. lia.
  - now apply IH.
Qed.

(** The two windows of quadrants put side by side. *)
Lemma map_window_left :
  forall (w : nat) (l r : grid),
    Forall (fun row => List.length row = w) l ->
    List.length l = List.length r ->
    map (window 0 w) (beside l r) = l.
Proof.
  intros w l r Hl. revert r.
  induction Hl as [ | a l Ha Hl IH]; intros [ | b r] H; simpl in *;
    try congruence.
  rewrite (window_left w a b Ha), IH by congruence. reflexivity.
Qed.

Lemma map_window_right :
  forall (w : nat) (l r : grid),
    Forall (fun row => List.length row = w) l ->
    Forall (fun row => List.length row = w) r ->
    List.length l = List.length r ->
    map (window w w) (beside l r) = r.
Proof.
  intros w l r Hl. revert r.
  induction Hl as [ | a l Ha Hl IH]; intros [ | b r] Hr H; simpl in *;
    try congruence.
  apply Forall_cons_iff in Hr. destruct Hr as [Hb Hr'].
  rewrite (window_right w a b Ha Hb), IH by (auto; congruence). reflexivity.
Qed.

(** A block of rows of even width is its two halves side by side. *)
Lemma beside_windows :
  forall (w : nat) (g : grid),
    Forall (fun row => List.length row = w + w)%nat g ->
    beside (map (window 0 w) g) (map (window w w) g) = g.
Proof.
  intros w g H. induction H as [ | row g Hrow Hg IH]; simpl; [ reflexivity | ].
  rewrite IH. f_equal. unfold window. simpl.
  rewrite (firstn_all2 (n := w) (skipn w row))
    by (rewrite length_skipn; lia).
  apply firstn_skipn.
Qed.

Lemma map_window_shape :
  forall (c0 w : nat) (g : grid),
    Forall (fun row => c0 + w <= List.length row)%nat g ->
    has_shape (List.length g) w (map (window c0 w) g).
Proof.
  intros c0 w g H. split; [ apply length_map | ].
  induction H as [ | row g Hrow Hg IH]; simpl; constructor; auto.
  unfold window. rewrite length_firstn, length_skipn. lia.
Qed.

(** Reversing a half of every other row, on quadrants side by side. *)
Lemma map_alt_beside_left :
  forall (w : nat) (l r : grid) (o : bool),
    Forall (fun row => List.length row = w) l ->
    List.length l = List.length r ->
    map_alt o (rev_window 0 w) (beside l r)
    = beside (map_alt o (@rev pixel) l) r.
Proof.
  intros w l r o Hl. revert r o.
  induction Hl as [ | a l Ha Hl IH]; intros [ | b r] o H; simpl in *;
    try congruence.
  rewrite IH by congruence.
  destruct o; [ rewrite (rev_window_left w a b Ha) | ]; reflexivity.
Qed.

Lemma map_alt_beside_right :
  forall (w : nat) (l r : grid) (o : bool),
    Forall (fun row => List.length row = w) l ->
    Forall (fun row => List.length row = w) r ->
    List.length l = List.length r ->
    map_alt o (rev_window w w) (beside l r)
    = beside l (map_alt o (@rev pixel) r).
Proof.
  intros w l r o Hl. revert r o.
  induction Hl as [ | a l Ha Hl IH]; intros [ | b r] o Hr H; simpl in *;
    try congruence.
  apply Forall_cons_iff in Hr. destruct Hr as [Hb Hr'].
  rewrite IH by (auto; congruence).
  destruct o; [ rewrite (rev_window_right w a b Ha Hb) | ]; reflexivity.
Qed.

(** The store of [q[1::2, :] = q[1::2, ::-1]], on the rows of the view
    between the rows before and the rows after. *)
Lemma store_rows_app :
  forall (c0 w : nat) (block pre post : grid),
    store_rows (List.length pre + 1) c0
      (map (@rev pixel) (odd_rows (map (window c0 w) block)))
      (pre ++ block ++ post)
    = pre ++ map_odd (rev_window c0 w) block ++ post.
Proof.
  intros c0 w block.
  induction block as [ | a | a b t IH] using list_ind2; intros pre post;
    try reflexivity.
  cbn [map odd_rows store_rows map_odd app].
  rewrite update_nth_app. cbn [update_nth app].
  replace (pre ++ a :: splice c0 (rev (window c0 w b)) b :: t ++ post)
    with ((pre ++ [a; rev_window c0 w b]) ++ t ++ post)
    by (rewrite <- app_assoc; reflexivity).
  replace (List.length pre + 1 + 2)%nat
    with (List.length (pre ++ [a; rev_window c0 w b]) + 1)%nat
    by (rewrite length_app; simpl; lia).
  rewrite IH, <- app_assoc. reflexivity.
Qed.

Lemma reverse_odd_rows_blocks :
  forall (q : view) (pre block post : grid),
    List.length pre = row0 q ->
    List.length block = nrows q ->
    reverse_odd_rows q (pre ++ block ++ post)
    = pre ++ map_odd (rev_window (col0 q) (ncols q)) block ++ post.
Proof.
  intros q pre block post Hp Hb. unfold reverse_odd_rows, slice.
  rewrite skipn_app, <- Hp, Nat.sub_diag, skipn_all. simpl.
  rewrite firstn_app, <- Hb, Nat.sub_diag, firstn_all. simpl.
  rewrite app_nil_r.
  apply store_rows_app.
Qed.

Lemma slice_blocks :
  forall (q : view) (pre block post : grid),
    List.length pre = row0 q ->
    List.length block = nrows q ->
    slice q (pre ++ block ++ post) = map (window (col0 q) (ncols q)) block.
Proof.
  intros q pre block post Hp Hb. unfold slice.
  rewrite skipn_app, <- Hp, Nat.sub_diag, skipn_all. simpl.
  rewrite firstn_app, <- Hb, Nat.sub_diag, firstn_all. simpl.
  now rewrite app_nil_r.
Qed.

(** The same two facts for a quadrant named by its side, in the top band
    (rows after it) or in the bottom band (rows before it). *)
Lemma reverse_quadrant :
  forall (q : view) (left : bool) (pre post L R : grid),
    row0 q = List.length pre ->
    col0 q = (if left then 0 else ncols q)%nat ->
    has_shape (nrows q) (ncols q) L -> has_shape (nrows q) (ncols q) R ->
    reverse_odd_rows q (pre ++ beside L R ++ post)
    = pre ++ (if left then beside (serpentine L) R
              else beside L (serpentine R)) ++ post.
Proof.
  intros q left pre post L R Hr Hc [HL HLr] [HR HRr].
  rewrite reverse_odd_rows_blocks;
    [ | congruence | rewrite beside_length; congruence ].
  rewrite Hc, map_odd_alt. unfold serpentine.
  destruct left.
  - rewrite (map_alt_beside_left (ncols q)) by (auto; congruence).
    now rewrite map_odd_alt.
  - rewrite (map_alt_beside_right (ncols q)) by (auto; congruence).
    now rewrite map_odd_alt.
Qed.

Lemma slice_quadrant :
  forall (q : view) (left : bool) (pre post L R : grid),
    row0 q = List.length pre ->
    col0 q = (if left then 0 else ncols q)%nat ->
    has_shape (nrows q) (ncols q) L -> has_shape (nrows q) (ncols q) R ->
    slice q (pre ++ beside L R ++ post) = if left then L else R.
Proof.
  intros q left pre post L R Hr Hc [HL HLr] [HR HRr].
  rewrite slice_blocks;
    [ | congruence | rewrite beside_length; congruence ].
  rewrite Hc. destruct left.
  - apply map_window_left; auto; congruence.
  - apply map_window_right; auto; congruence.
Qed.

Lemma even_is_twice :
  forall n : nat, Nat.even n = true -> n = (Nat.div2 n + Nat.div2 n)%nat.
Proof.
  intros n H. apply Nat.even_spec in H. destruct H as [m ->].
  rewrite Nat.div2_double. lia.
Qed.

(** A rectangular frame of even height and width is its four quadrants,
    each of half the height and half the width. *)
Lemma frame_is_quadrants :
  forall a : ndarray,
    rectangular a ->
    Nat.even (shape0 a) = true -> Nat.even (shape1 a) = true ->
    exists TL TR BL BR : grid,
      quadrants_of a = [TL; TR; BL; BR] /\
      has_shape (Nat.div2 (shape0 a)) (Nat.div2 (shape1 a)) TL /\
      has_shape (Nat.div2 (shape0 a)) (Nat.div2 (shape1 a)) TR /\
      has_shape (Nat.div2 (shape0 a)) (Nat.div2 (shape1 a)) BL /\
      has_shape (Nat.div2 (shape0 a)) (Nat.div2 (shape1 a)) BR /\
      data a = beside TL TR ++ beside BL BR.
Proof.
  intros [H W g] [Hlen Hrows] EH EW. simpl in *.
  pose proof (even_is_twice H EH) as HH.
  pose proof (even_is_twice W EW) as HW.
  set (h := Nat.div2 H) in *. set (w := Nat.div2 W) in *.
  assert (Ltop : List.length (firstn h g) = h)
    by (rewrite length_firstn; lia).
  assert (Lbot : List.length (skipn h g) = h)
    by (rewrite length_skipn; lia).
  assert (Rboth : Forall (fun row => List.length row = (w + w)%nat) (firstn h g)
                  /\ Forall (fun row => List.length row = (w + w)%nat) (skipn h g)).
  { apply Forall_app. rewrite firstn_skipn, <- HW. exact Hrows. }
  destruct Rboth as [Rtop Rbot].
  assert (shape_of : forall c0 b,
             (c0 + w <= w + w)%nat ->
             List.length b = h ->
             Forall (fun row => List.length row = (w + w)%nat) b ->
             has_shape h w (map (window c0 w) b)).
  { intros c0 b Hc Hb Hr. rewrite <- Hb. apply map_window_shape.
    eapply Forall_impl; [ | exact Hr ]. simpl. intros row ->. exact Hc. }
  exists (map (window 0 w) (firstn h g)), (map (window w w) (firstn h g)),
         (map (window 0 w) (skipn h g)), (map (window w w) (skipn h g)).
  split; [ | repeat split ].
  - unfold quadrants_of, quadrant_views, slice. cbn [map shape0 shape1 data
      row0 col0 nrows ncols]. fold h. fold w.
    cbn [skipn]. rewrite (firstn_all2 (skipn h g)) by lia. reflexivity.
  - apply (proj1 (shape_of 0%nat _ ltac:(lia) Ltop Rtop)).
  - apply (proj2 (shape_of 0%nat _ ltac:(lia) Ltop Rtop)).
  - apply (proj1 (shape_of w _ ltac:(lia) Ltop Rtop)).
  - apply (proj2 (shape_of w _ ltac:(lia) Ltop Rtop)).
  - apply (proj1 (shape_of 0%nat _ ltac:(lia) Lbot Rbot)).
  - apply (proj2 (shape_of 0%nat _ ltac:(lia) Lbot Rbot)).
  - apply (proj1 (shape_of w _ ltac:(lia) Lbot Rbot)).
  - apply (proj2 (shape_of w _ ltac:(lia) Lbot Rbot)).
  - rewrite !beside_windows by assumption. symmetry. apply firstn_skipn.
Qed.

(* ================================================================== *)
(** * The encoder, run *)

Lemma for_each_modify :
  forall {S A} (F : A -> S -> S) (xs : list A) (w : S),
    for_each xs (fun x => modify (F x)) w
    = (Returns tt, fold_left (fun w x => F x w) xs w).
Proof.
  intros S A F xs. induction xs as [ | x xs IH]; intros w; simpl.
  - reflexivity.
  - unfold bind, modify at 1. apply IH.
Qed.

(** The four in-place reversals, one after the other, on a frame given by
    its quadrants. *)
Lemma reverse_all_quadrants :
  forall (h w : nat) (TL TR BL BR : grid),
    has_shape h w TL -> has_shape h w TR ->
    has_shape h w BL -> has_shape h w BR ->
    fold_left (fun g q => reverse_odd_rows q g) (quadrant_views h w)
              (beside TL TR ++ beside BL BR)
    = beside (serpentine TL) (serpentine TR)
      ++ beside (serpentine BL) (serpentine BR).
Proof.
  intros h w TL TR BL BR sTL sTR sBL sBR.
  pose proof (has_shape_serpentine _ _ _ sTL) as zTL.
  pose proof (has_shape_serpentine _ _ _ sTR) as zTR.
  pose proof (has_shape_serpentine _ _ _ sBL) as zBL.
  assert (Ltop : List.length (beside (serpentine TL) (serpentine TR)) = h).
  { rewrite beside_length; [ apply zTL | ].
    destruct zTL, zTR; congruence. }
  unfold quadrant_views. cbn [fold_left].
  rewrite (reverse_quadrant _ true [] (beside BL BR) TL TR)
    by (try reflexivity; assumption).
  rewrite (reverse_quadrant _ false [] (beside BL BR) (serpentine TL) TR)
    by (try reflexivity; assumption).
  cbn [app].
  rewrite <- (app_nil_r (beside BL BR)).
  rewrite (reverse_quadrant _ true _ [] BL BR)
    by (cbn [row0 col0 nrows ncols]; try reflexivity; auto).
  rewrite (reverse_quadrant _ false _ [] (serpentine BL) BR)
    by (cbn [row0 col0 nrows ncols]; try reflexivity; auto).
  now rewrite app_nil_r.
Qed.

(** Reading the four quadrants back. *)
Lemma slice_all_quadrants :
  forall (h w : nat) (TL TR BL BR : grid),
    has_shape h w TL -> has_shape h w TR ->
    has_shape h w BL -> has_shape h w BR ->
    map (fun q => slice q (beside TL TR ++ beside BL BR)) (quadrant_views h w)
    = [TL; TR; BL; BR].
Proof.
  intros h w TL TR BL BR sTL sTR sBL sBR.
  assert (Ltop : List.length (beside TL TR) = h).
  { rewrite beside_length; [ apply sTL | ].
    destruct sTL, sTR; congruence. }
  unfold quadrant_views. cbn [map].
  rewrite (slice_quadrant _ true [] (beside BL BR) TL TR)
    by (try reflexivity; assumption).
  rewrite (slice_quadrant _ false [] (beside BL BR) TL TR)
    by (try reflexivity; assumption).
  rewrite <- (app_nil_r (beside BL BR)).
  rewrite (slice_quadrant _ true _ [] BL BR)
    by (cbn [row0 col0 nrows ncols]; try reflexivity; auto).
  rewrite (slice_quadrant _ false _ [] BL BR)
    by (cbn [row0 col0 nrows ncols]; try reflexivity; auto).
  reflexivity.
Qed.

Lemma cumsum_exclusive :
  forall (l : list Z) (acc : Z),
    l <> [] ->
    acc :: cumsum_from acc (removelast l) = exclusive_cumsum acc l.
Proof.
  induction l as [ | x t IH]; intros acc Hne; [ congruence | ].
  destruct t as [ | y t']; [ reflexivity | ].
  cbn [removelast cumsum_from exclusive_cumsum].
  f_equal. apply IH. discriminate.
Qed.

(** The first part of [send_quadrant] on a frame of even height and width:
    the segments are those of the spec, and the frame is left with every
    quadrant in serpentine order. *)
Lemma quadrant_segments_run :
  forall (a : ndarray) (s : list datagram),
    rectangular a ->
    Nat.even (shape0 a) = true -> Nat.even (shape1 a) = true ->
    quadrant_segments {| frame := a; sent := s |}
    = (Returns (segments_of a), {| frame := serpentine_frame a; sent := s |}).
Proof.
  intros a s Hrect EH EW.
  destruct (frame_is_quadrants a Hrect EH EW)
    as (TL & TR & BL & BR & Hq & sTL & sTR & sBL & sBR & Hg).
  unfold segments_of, serpentine_frame. rewrite Hq.
  destruct a as [H W g]. cbn [shape0 shape1 data] in *. subst g.
  set (h := Nat.div2 H) in *. set (w := Nat.div2 W) in *.
  unfold quadrant_segments.
  unfold bind at 1. unfold gets at 1. cbn [frame].
  unfold bind at 1. unfold lift at 1, split_axis0, whole.
  cbn [nrows ncols row0 col0 shape0 shape1]. rewrite EH. fold h.
  unfold bind at 1. unfold lift at 1. cbn [comprehension obind].
  unfold split_axis1. cbn [nrows ncols row0 col0]. rewrite EW. fold w.
  cbn [obind List.concat app].
  change [ {| row0 := 0; col0 := 0; nrows := h; ncols := w |};
           {| row0 := 0; col0 := 0 + w; nrows := h; ncols := w |};
           {| row0 := 0 + h; col0 := 0; nrows := h; ncols := w |};
           {| row0 := 0 + h; col0 := 0 + w; nrows := h; ncols := w |} ]
    with (quadrant_views h w).
  unfold bind at 1.
  rewrite (for_each_modify
             (fun q w0 => set_data (reverse_odd_rows q (data (frame w0))) w0)).
  assert (Hfold :
    forall qs w0,
      fold_left (fun w1 q => set_data (reverse_odd_rows q (data (frame w1))) w1)
                qs w0
      = set_data (fold_left (fun g q => reverse_odd_rows q g) qs
                            (data (frame w0))) w0).
  { induction qs as [ | q qs IH]; intros [[H0 W0 g0] s0]; [ reflexivity | ].
    cbn [fold_left]. rewrite IH. reflexivity. }
  rewrite Hfold. cbn [frame data].
  rewrite (reverse_all_quadrants h w TL TR BL BR) by assumption.
  unfold bind at 1, gets at 1, set_data. cbn [frame data shape0 shape1 sent].
  set (G := beside (serpentine TL) (serpentine TR)
            ++ beside (serpentine BL) (serpentine BR)).
  rewrite <- !(map_map (fun q => slice q G) reshape). subst G.
  rewrite (slice_all_quadrants h w)
    by (apply has_shape_serpentine; assumption).
  reflexivity.
Qed.

(* ================================================================== *)
(** * Headers and the sending loop *)

Lemma byte_split :
  forall p : Z,
    0 <= p <= 65535 ->
    Z.shiftr p 8 = p / 256 /\ Z.land p 255 = p mod 256.
Proof.
  intros p Hp. split.
  - rewrite Z.shiftr_div_pow2 by lia. reflexivity.
  - change 255 with (Z.ones 8). rewrite Z.land_ones by lia. reflexivity.
Qed.

(** Deciding a boolean comparison of the header by arithmetic. *)
Ltac decide_comparison :=
  symmetry;
  first [ apply Z.leb_le; lia
        | rewrite Z.gtb_ltb; apply Z.ltb_ge; lia
        | rewrite Z.gtb_ltb; apply Z.ltb_lt; lia ].

Lemma dnrgb_header_accepts :
  forall wait_time start_index : Z,
    0 <= wait_time <= 255 -> 0 <= start_index <= 65535 ->
    dnrgb_header wait_time start_index
    = Returns [DNRGB_PROTOCOL_VALUE; wait_time;
               Z.shiftr start_index 8; Z.land start_index 255].
Proof.
  intros wt si Hw Hs. unfold dnrgb_header, struct_pack_BBH.
  replace (wt >? 255) with false by decide_comparison.
  replace (si >? 2 ^ 16 - 1) with false by decide_comparison.
  replace (0 <=? wt) with true by decide_comparison.
  replace (wt <=? 255) with true by decide_comparison.
  replace (0 <=? si) with true by decide_comparison.
  replace (si <=? 65535) with true by decide_comparison.
  reflexivity.
Qed.

Lemma dnrgb_header_rejects_start :
  forall wait_time start_index : Z,
    wait_time <= 255 -> 65535 < start_index ->
    dnrgb_header wait_time start_index = Raises (ValueError start_index_message).
Proof.
  intros wt si Hw Hs. unfold dnrgb_header.
  replace (wt >? 255) with false by decide_comparison.
  replace (si >? 2 ^ 16 - 1) with true by decide_comparison.
  reflexivity.
Qed.

(** One [send_rgb]: the header is built first, then the datagram is
    handed to the socket. *)
Lemma send_rgb_run :
  forall (q : list Z) (p : Z) (w : World),
    0 <= p ->
    send_rgb q p w =
    if p <=? 65535 then
      if 4 + Z.of_nat (List.length q) <=? MAX_UDP_PAYLOAD
      then (Returns tt,
            {| frame := frame w; sent := sent w ++ [datagram_of (q, p)] |})
      else (Raises (OSError message_too_long), w)
    else (Raises (ValueError start_index_message), w).
Proof.
  intros q p w Hp. unfold send_rgb, bind, lift.
  destruct (Z.leb_spec p 65535) as [Hle | Hgt].
  - rewrite dnrgb_header_accepts by lia. unfold sendto.
    cbn [List.length app]. rewrite !Nat2Z.inj_succ.
    replace (Z.succ (Z.succ (Z.succ (Z.succ (Z.of_nat (List.length q))))))
      with (4 + Z.of_nat (List.length q)) by lia.
    reflexivity.
  - rewrite dnrgb_header_rejects_start by lia. reflexivity.
Qed.

Lemma exclusive_cumsum_nonneg :
  forall (l : list Z) (acc : Z),
    0 <= acc -> Forall (fun x => 0 <= x) l ->
    Forall (fun x => 0 <= x) (exclusive_cumsum acc l).
Proof.
  induction l as [ | x t IH]; intros acc Ha Hl; simpl; constructor.
  - exact Ha.
  - apply Forall_cons_iff in Hl. destruct Hl as [Hx Ht].
    apply IH; [ lia | exact Ht ].
Qed.

Lemma combine_snd_Forall :
  forall {A B} (P : B -> Prop) (xs : list A) (ys : list B),
    Forall P ys -> Forall (fun xy => P (snd xy)) (combine xs ys).
Proof.
  intros A B P xs. induction xs as [ | x xs IH]; intros ys H; simpl.
  - constructor.
  - destruct H as [ | y ys Hy Hys]; constructor; auto.
Qed.

Lemma segments_of_nonneg :
  forall a : ndarray, Forall (fun sg => 0 <= snd sg) (segments_of a).
Proof.
  intros a. unfold segments_of. apply combine_snd_Forall.
  apply exclusive_cumsum_nonneg; [ lia | ].
  apply Forall_forall. intros x Hx. apply in_map_iff in Hx.
  destruct Hx as (q & <- & _). lia.
Qed.

(** [send_quadrant] on a frame of odd height or width: [np.split] raises
    before anything is written or sent. *)
Lemma send_quadrant_odd :
  forall (a : ndarray) (s : list datagram),
    Nat.even (shape0 a) = false \/ Nat.even (shape1 a) = false ->
    send_quadrant {| frame := a; sent := s |}
    = (Raises (ValueError split_message), {| frame := a; sent := s |}).
Proof.
  intros a s H. unfold send_quadrant, quadrant_segments, bind, gets, lift.
  cbn [frame]. unfold split_axis0, whole. cbn [nrows ncols row0 col0].
  destruct (Nat.even (shape0 a)) eqn:EH.
  - destruct H as [H | H]; [ discriminate | ].
    cbn [comprehension obind]. unfold split_axis1. cbn [ncols].
    rewrite H. reflexivity.
  - reflexivity.
Qed.

(* ================================================================== *)
(** * Segments: sizes and start indices *)

Lemma concat_shape_length :
  forall (h w : nat) (q : grid),
    has_shape h w q -> List.length (List.concat q) = (h * w)%nat.
Proof.
  intros h w q [Hl Hr]. subst h.
  induction Hr as [ | row q Hrow Hq IH]; simpl; [ reflexivity | ].
  rewrite length_app, IH, Hrow. reflexivity.
Qed.

Lemma flatten_length :
  forall l : list pixel, List.length (flatten l) = (3 * List.length l)%nat.
Proof.
  unfold flatten.
  induction l as [ | [[r g] b] t IH]; simpl; [ reflexivity | ].
  rewrite IH. lia.
Qed.

Lemma leds_length :
  forall (h w : nat) (q : grid),
    has_shape h w q -> Z.of_nat (List.length (leds q)) = 1 + Z.of_nat (h * w).
Proof.
  intros h w q Hq. unfold leds. cbn [List.length].
  rewrite (concat_shape_length h w) by (now apply has_shape_serpentine).
  lia.
Qed.

(** The four segments of a frame, spelled out: the LED sequences of the
    quadrants, each of [c] LEDs, at [0], [c], [2c], [3c]. *)
Lemma segments_of_explicit :
  forall a : ndarray,
    rectangular a ->
    Nat.even (shape0 a) = true -> Nat.even (shape1 a) = true ->
    exists p0 p1 p2 p3 : list Z,
      segments_of a =
        [ (p0, 0); (p1, leds_per_quadrant a);
          (p2, 2 * leds_per_quadrant a); (p3, 3 * leds_per_quadrant a) ] /\
      [p0; p1; p2; p3] = map (fun q => flatten (leds q)) (quadrants_of a) /\
      Forall (fun p => Z.of_nat (List.length p) = 3 * leds_per_quadrant a)
             [p0; p1; p2; p3].
Proof.
  intros a Hrect EH EW.
  destruct (frame_is_quadrants a Hrect EH EW)
    as (TL & TR & BL & BR & Hq & sTL & sTR & sBL & sBR & Hg).
  exists (flatten (leds TL)), (flatten (leds TR)),
         (flatten (leds BL)), (flatten (leds BR)).
  unfold segments_of. rewrite Hq. cbn [map combine exclusive_cumsum].
  rewrite (leds_length _ _ TL sTL), (leds_length _ _ TR sTR),
          (leds_length _ _ BL sBL).
  fold (leds_per_quadrant a).
  split; [ | split ].
  - set (c := leds_per_quadrant a).
    replace (0 + c) with c by lia.
    replace (c + c) with (2 * c) by lia.
    replace (2 * c + c) with (3 * c) by lia.
    reflexivity.
  - reflexivity.
  - repeat constructor; rewrite flatten_length, Nat2Z.inj_mul;
      [ rewrite (leds_length _ _ TL sTL) | rewrite (leds_length _ _ TR sTR)
      | rewrite (leds_length _ _ BL sBL) | rewrite (leds_length _ _ BR sBR) ];
      reflexivity.
Qed.

Lemma start_index_of_datagram :
  forall (q : list Z) (p : Z),
    0 <= p <= 65535 -> start_index_of (datagram_of (q, p)) = p.
Proof.
  intros q p Hp. unfold start_index_of, datagram_of. cbn [snd fst app nth].
  destruct (byte_split p Hp) as [-> ->].
  pose proof (Z.div_mod p 256 ltac:(lia)). lia.
Qed.

Lemma led_count_of_datagram :
  forall (q : list Z) (p c : Z),
    Z.of_nat (List.length q) = 3 * c -> led_count (datagram_of (q, p)) = c.
Proof.
  intros q p c Hq. unfold led_count, payload_of, datagram_of.
  cbn [fst snd app skipn]. rewrite Hq.
  rewrite Z.mul_comm. apply Z.div_mul. lia.
Qed.

Lemma leds_per_quadrant_pos : forall a, 1 <= leds_per_quadrant a.
Proof.
  intros a. unfold leds_per_quadrant.
  generalize (Nat.div2 (shape0 a) * Nat.div2 (shape1 a))%nat. intros n. lia.
Qed.

(** [send_quadrant] on a frame of even height and width.  The four
    datagrams have the same size.  When it fits a UDP datagram, the four
    start indices fit the header and all four go out; when it does not, the
    first [sendto] raises and none goes out.  Either way the frame has been
    written. *)
Lemma send_quadrant_run :
  forall (a : ndarray) (s : list datagram),
    rectangular a ->
    Nat.even (shape0 a) = true -> Nat.even (shape1 a) = true ->
    send_quadrant {| frame := a; sent := s |}
    = if datagram_size a <=? MAX_UDP_PAYLOAD
      then (Returns tt,
            {| frame := serpentine_frame a;
               sent := s ++ map datagram_of (segments_of a) |})
      else (Raises (OSError message_too_long),
            {| frame := serpentine_frame a; sent := s |}).
Proof.
  intros a s Hrect EH EW. unfold send_quadrant, bind.
  rewrite quadrant_segments_run by assumption.
  destruct (segments_of_explicit a Hrect EH EW)
    as (p0 & p1 & p2 & p3 & -> & _ & Hlen).
  pose proof (leds_per_quadrant_pos a) as Hpos.
  unfold datagram_size, MAX_UDP_PAYLOAD.
  apply Forall_cons_iff in Hlen. destruct Hlen as [L0 Hlen].
  apply Forall_cons_iff in Hlen. destruct Hlen as [L1 Hlen].
  apply Forall_cons_iff in Hlen. destruct Hlen as [L2 Hlen].
  apply Forall_cons_iff in Hlen. destruct Hlen as [L3 _].
  cbn [for_each fst snd]. unfold bind, ret.
  rewrite (send_rgb_run p0 0) by lia. cbn [frame sent].
  unfold MAX_UDP_PAYLOAD. rewrite L0. change (0 <=? 65535) with true. cbv iota.
  destruct (Z.leb_spec (4 + 3 * leds_per_quadrant a) 65507) as [Hfit | Hbig];
    [ | reflexivity ].
  rewrite (send_rgb_run p1 (leds_per_quadrant a)) by lia. cbn [frame sent].
  unfold MAX_UDP_PAYLOAD. rewrite L1.
  replace (leds_per_quadrant a <=? 65535) with true by decide_comparison.
  replace (4 + 3 * leds_per_quadrant a <=? 65507) with true
    by decide_comparison.
  rewrite (send_rgb_run p2 (2 * leds_per_quadrant a)) by lia. cbn [frame sent].
  unfold MAX_UDP_PAYLOAD. rewrite L2.
  replace (2 * leds_per_quadrant a <=? 65535) with true by decide_comparison.
  replace (4 + 3 * leds_per_quadrant a <=? 65507) with true
    by decide_comparison.
  rewrite (send_rgb_run p3 (3 * leds_per_quadrant a)) by lia. cbn [frame sent].
  unfold MAX_UDP_PAYLOAD. rewrite L3.
  replace (3 * leds_per_quadrant a <=? 65535) with true by decide_comparison.
  replace (4 + 3 * leds_per_quadrant a <=? 65507) with true
    by decide_comparison.
  cbn [map]. rewrite <- !app_assoc. reflexivity.
Qed.

(** [send_quadrant] when the datagrams fit: it returns, and the four
    datagrams are those of the segments. *)
Lemma send_quadrant_returns :
  forall (a : ndarray) (s : list datagram),
    rectangular a ->
    Nat.even (shape0 a) = true -> Nat.even (shape1 a) = true ->
    datagram_size a <= MAX_UDP_PAYLOAD ->
    send_quadrant {| frame := a; sent := s |}
    = (Returns tt,
       {| frame := serpentine_frame a;
          sent := s ++ map datagram_of (segments_of a) |}).
Proof.
  intros a s Hrect EH EW Hfit.
  rewrite send_quadrant_run by assumption.
  apply Z.leb_le in Hfit. rewrite Hfit. reflexivity.
Qed.

(** [send_quadrant] when they do not: the first [sendto] raises. *)
Lemma send_quadrant_too_long :
  forall (a : ndarray) (s : list datagram),
    rectangular a ->
    Nat.even (shape0 a) = true -> Nat.even (shape1 a) = true ->
    MAX_UDP_PAYLOAD < datagram_size a ->
    send_quadrant {| frame := a; sent := s |}
    = (Raises (OSError message_too_long),
       {| frame := serpentine_frame a; sent := s |}).
Proof.
  intros a s Hrect EH EW Hbig.
  rewrite send_quadrant_run by assumption.
  apply Z.leb_gt in Hbig. rewrite Hbig. reflexivity.
Qed.

(* ================================================================== *)
(** * The encoder: serpentine order (C1) *)

Lemma serpentine_nth_error :
  forall (q : grid) (i : nat),
    nth_error (serpentine q) i
    = option_map (fun row => if Nat.odd i then rev row else row)
                 (nth_error q i).
Proof. intros q i. apply map_odd_nth_error. Qed.

Lemma serpentine_involutive : forall q : grid, serpentine (serpentine q) = q.
Proof.
  intros q. unfold serpentine. rewrite !map_odd_alt.
  apply map_alt_involutive. apply rev_involutive.
Qed.

Lemma rectangular_numbered : forall h w, rectangular (numbered h w).
Proof.
  intros h w. split; simpl.
  - now rewrite length_map, length_seq.
  - apply Forall_forall. intros row Hrow. apply in_map_iff in Hrow.
    destruct Hrow as (i & <- & _). now rewrite length_map, length_seq.
Qed.

(** C1: on a frame of even height and width, the segments the encoder
    builds are, quadrant by quadrant in the order top-left, top-right,
    bottom-left, bottom-right, the placeholder followed by the rows of the
    quadrant with every odd-indexed row reversed, flattened row after row;
    these are the payloads of the datagrams it sends, which go out when a
    datagram of the frame fits a UDP datagram (and none goes out when it
    does not).  Row [i] of the serpentine order is row [i] of the quadrant,
    reversed when [i] is odd; a quadrant with rows [[A, B], [C, D]] is
    flattened as [A, B, D, C]. *)
Theorem serpentine_order_of_every_quadrant :
  (forall (a : ndarray) (s : list datagram),
      rectangular a ->
      Nat.even (shape0 a) = true -> Nat.even (shape1 a) = true ->
      exists segs : list (list Z * Z),
        quadrant_segments {| frame := a; sent := s |}
        = (Returns segs, {| frame := serpentine_frame a; sent := s |}) /\
        map fst segs
        = map (fun q => flatten ((0, 0, 0) :: List.concat (serpentine q)))
              (quadrants_of a) /\
        map payload_of (map datagram_of segs) = map fst segs /\
        (datagram_size a <= MAX_UDP_PAYLOAD ->
         sent (snd (send_quadrant {| frame := a; sent := s |}))
         = s ++ map datagram_of segs) /\
        (MAX_UDP_PAYLOAD < datagram_size a ->
         sent (snd (send_quadrant {| frame := a; sent := s |})) = s)) /\
  (forall (q : grid) (i : nat),
      nth_error (serpentine q) i
      = option_map (fun row => if Nat.odd i then rev row else row)
                   (nth_error q i)) /\
  (forall A B C D : pixel,
      List.concat (serpentine [[A; B]; [C; D]]) = [A; B; D; C]).
Proof.
  split; [ | split ].
  - intros a s Hrect EH EW. exists (segments_of a).
    split; [ now apply quadrant_segments_run | ].
    split; [ | split; [ | split ] ].
    + destruct (segments_of_explicit a Hrect EH EW)
        as (p0 & p1 & p2 & p3 & -> & Hp & _).
      cbn [map fst]. exact Hp.
    + rewrite map_map. apply map_ext. intros [q p]. reflexivity.
    + intros Hfit. rewrite send_quadrant_returns by assumption. reflexivity.
    + intros Hbig. rewrite send_quadrant_too_long by assumption. reflexivity.
  - apply serpentine_nth_error.
  - intros A B C D. reflexivity.
Qed.

Lemma serpentine_order_of_every_quadrant_witness :
  exists segs : list (list Z * Z),
    quadrant_segments {| frame := numbered 4 4; sent := [] |}
    = (Returns segs, {| frame := serpentine_frame (numbered 4 4); sent := [] |}) /\
    map fst segs
    = map (fun q => flatten ((0, 0, 0) :: List.concat (serpentine q)))
          (quadrants_of (numbered 4 4)) /\
    sent (snd (send_quadrant {| frame := numbered 4 4; sent := [] |}))
    = [] ++ map datagram_of segs.
Proof.
  assert (R : rectangular (numbered 4 4))
    by (split; [ reflexivity | repeat constructor ]).
  destruct (proj1 serpentine_order_of_every_quadrant (numbered 4 4) []
              R eq_refl eq_refl) as (segs & A & B & _ & C & _).
  exists segs. split; [ exact A | ]. split; [ exact B | ].
  apply C. vm_compute. discriminate.
Defined.

(** The datagrams of the frame whose pixels are numbered row after row:
    the top-left quadrant [[0, 1], [4, 5]] goes out as 0, 1, 5, 4 behind
    its placeholder. *)
Example send_quadrant_numbered_4_4 :
  send_quadrant {| frame := numbered 4 4; sent := [] |}
  = (Returns tt,
     {| frame := serpentine_frame (numbered 4 4);
        sent :=
          [ [4; 5; 0; 0;   0; 0; 0;  0; 0; 0;  1; 1; 1;  5; 5; 5;  4; 4; 4];
            [4; 5; 0; 5;   0; 0; 0;  2; 2; 2;  3; 3; 3;  7; 7; 7;  6; 6; 6];
            [4; 5; 0; 10;  0; 0; 0;  8; 8; 8;  9; 9; 9;  13; 13; 13;  12; 12; 12];
            [4; 5; 0; 15;  0; 0; 0;  10; 10; 10;  11; 11; 11;  15; 15; 15;
             14; 14; 14] ] |}).
Proof. vm_compute. reflexivity. Qed.

(* ================================================================== *)
(** * The encoder: start indices (C2) *)

(** C2, as the spec words it, fails on large frames: a quadrant of a 296
    by 296 frame has 21905 LEDs, each of its datagrams would have 65719
    bytes, more than a UDP datagram carries, and [send_quadrant] raises
    [OSError] at the first [sendto]: no datagram is emitted, let alone
    four. *)
Lemma large_frame_sends_no_datagram :
  Nat.even 296 = true /\
  datagram_size (black 296) = 65719 /\
  fst (send_quadrant {| frame := black 296; sent := [] |})
  = Raises (OSError message_too_long) /\
  sent (snd (send_quadrant {| frame := black 296; sent := [] |})) = [].
Proof. vm_compute. repeat split. Qed.

(** The largest square frame whose datagrams fit: side 294. *)
Example largest_square_frame_encoded :
  fst (send_quadrant {| frame := black 294; sent := [] |}) = Returns tt /\
  map start_index_of
      (sent (snd (send_quadrant {| frame := black 294; sent := [] |})))
  = [0; 21610; 43220; 64830].
Proof. vm_compute. split; reflexivity. Qed.

(** C2, amended: for every square frame of even side [n] with one leading
    placeholder per quadrant, the start indices the encoder computes for
    the quadrants, in the order top-left, top-right, bottom-left,
    bottom-right, are the exclusive cumulative sums [0, c, 2c, 3c] of the
    LED counts [c = 1 + (n/2)^2]; when a datagram of [4 + 3c] bytes fits a
    UDP datagram ([4 + 3c <= 65507], that is [n <= 294]) the encoder sends
    four datagrams, of [c] LEDs each, whose headers carry these start
    indices; otherwise the first [sendto] raises [OSError] and no datagram
    is sent.  For a 4 by 4 frame [c] is 5 and the start indices are 0, 5,
    10, 15. *)
Theorem start_indices_are_exclusive_cumsum :
  (forall (a : ndarray) (s : list datagram),
      rectangular a ->
      shape0 a = shape1 a ->
      Nat.even (shape0 a) = true ->
      (exists segs : list (list Z * Z),
          fst (quadrant_segments {| frame := a; sent := s |}) = Returns segs /\
          map snd segs
          = exclusive_cumsum 0 (map (fun sg => Z.of_nat (List.length (fst sg)) / 3)
                                    segs) /\
          map snd segs
          = [0; leds_per_quadrant a; 2 * leds_per_quadrant a;
             3 * leds_per_quadrant a]) /\
      (datagram_size a <= MAX_UDP_PAYLOAD ->
       exists d0 d1 d2 d3 : datagram,
         send_quadrant {| frame := a; sent := s |}
         = (Returns tt,
            {| frame := serpentine_frame a; sent := s ++ [d0; d1; d2; d3] |}) /\
         map led_count [d0; d1; d2; d3]
         = [leds_per_quadrant a; leds_per_quadrant a;
            leds_per_quadrant a; leds_per_quadrant a] /\
         map start_index_of [d0; d1; d2; d3]
         = exclusive_cumsum 0 (map led_count [d0; d1; d2; d3]) /\
         map start_index_of [d0; d1; d2; d3]
         = [0; leds_per_quadrant a; 2 * leds_per_quadrant a;
            3 * leds_per_quadrant a]) /\
      (MAX_UDP_PAYLOAD < datagram_size a ->
       send_quadrant {| frame := a; sent := s |}
       = (Raises (OSError message_too_long),
          {| frame := serpentine_frame a; sent := s |}))) /\
  leds_per_quadrant (black 4) = 5 /\
  map led_count (sent (snd (send_quadrant {| frame := black 4; sent := [] |})))
  = [5; 5; 5; 5] /\
  map start_index_of
      (sent (snd (send_quadrant {| frame := black 4; sent := [] |})))
  = [0; 5; 10; 15].
Proof.
  split; [ | vm_compute; repeat split ].
  intros a s Hrect Hsq EH.
  assert (EW : Nat.even (shape1 a) = true) by (rewrite <- Hsq; exact EH).
  destruct (segments_of_explicit a Hrect EH EW)
    as (p0 & p1 & p2 & p3 & Hsegs & _ & Hlen).
  pose proof (leds_per_quadrant_pos a) as Hpos.
  set (c := leds_per_quadrant a) in *.
  apply Forall_cons_iff in Hlen. destruct Hlen as [L0 Hlen].
  apply Forall_cons_iff in Hlen. destruct Hlen as [L1 Hlen].
  apply Forall_cons_iff in Hlen. destruct Hlen as [L2 Hlen].
  apply Forall_cons_iff in Hlen. destruct Hlen as [L3 _].
  assert (D : forall x, 3 * x / 3 = x)
    by (intros x; rewrite Z.mul_comm; apply Z.div_mul; lia).
  split; [ | split ].
  - exists (segments_of a). rewrite quadrant_segments_run by assumption.
    split; [ reflexivity | ]. rewrite Hsegs.
    cbn [map fst snd exclusive_cumsum]. rewrite L0, L1, L2, !D.
    split; [ | reflexivity ].
    repeat (f_equal; try lia).
  - intros Hfit.
    exists (datagram_of (p0, 0)), (datagram_of (p1, c)),
           (datagram_of (p2, 2 * c)), (datagram_of (p3, 3 * c)).
    rewrite send_quadrant_returns by assumption. rewrite Hsegs.
    split; [ reflexivity | ].
    cbn [map]. unfold datagram_size, MAX_UDP_PAYLOAD in Hfit. fold c in Hfit.
    rewrite !start_index_of_datagram by lia.
    rewrite (led_count_of_datagram p0 _ c L0), (led_count_of_datagram p1 _ c L1),
            (led_count_of_datagram p2 _ c L2), (led_count_of_datagram p3 _ c L3).
    split; [ reflexivity | ]. split; [ | reflexivity ].
    cbn [exclusive_cumsum]. repeat (f_equal; try lia).
  - intros Hbig. now apply send_quadrant_too_long.
Qed.

Lemma rectangular_black : forall n, rectangular (black n).
Proof.
  intros n. split; simpl.
  - apply repeat_length.
  - apply Forall_forall. intros row Hrow. apply repeat_spec in Hrow.
    subst row. apply repeat_length.
Qed.

Lemma start_indices_are_exclusive_cumsum_witness :
  exists d0 d1 d2 d3 : datagram,
    send_quadrant {| frame := black 4; sent := [] |}
    = (Returns tt,
       {| frame := serpentine_frame (black 4); sent := [] ++ [d0; d1; d2; d3] |}) /\
    map led_count [d0; d1; d2; d3]
    = [leds_per_quadrant (black 4); leds_per_quadrant (black 4);
       leds_per_quadrant (black 4); leds_per_quadrant (black 4)] /\
    map start_index_of [d0; d1; d2; d3]
    = exclusive_cumsum 0 (map led_count [d0; d1; d2; d3]) /\
    map start_index_of [d0; d1; d2; d3]
    = [0; leds_per_quadrant (black 4); 2 * leds_per_quadrant (black 4);
       3 * leds_per_quadrant (black 4)].
Proof.
  assert (R : rectangular (black 4))
    by (split; [ reflexivity | repeat constructor ]).
  refine (proj1 (proj2 (proj1 start_indices_are_exclusive_cumsum (black 4) []
                          R eq_refl eq_refl)) _).
  vm_compute. discriminate.
Defined.

(* ================================================================== *)
(** * The header (C8) *)

(** C8: [dnrgb_header] raises [ValueError] whenever the wait time exceeds
    255 or the start index exceeds 65535; for a wait time in [0, 255] and a
    start index in [0, 65535] it returns the four bytes protocol
    identifier, wait time, and the start index high byte first; and it never
    returns a header for values outside these ranges, so nothing is
    truncated silently. *)
Theorem dnrgb_header_rejects_or_packs :
  forall wait_time start_index : Z,
    (255 < wait_time \/ 65535 < start_index ->
     exists msg : string,
       dnrgb_header wait_time start_index = Raises (ValueError msg)) /\
    (0 <= wait_time <= 255 -> 0 <= start_index <= 65535 ->
     dnrgb_header wait_time start_index
     = Returns [DNRGB_PROTOCOL_VALUE; wait_time;
                start_index / 256; start_index mod 256] /\
     0 <= start_index / 256 <= 255 /\
     0 <= start_index mod 256 <= 255 /\
     256 * (start_index / 256) + start_index mod 256 = start_index) /\
    (forall header : datagram,
        dnrgb_header wait_time start_index = Returns header ->
        0 <= wait_time <= 255 /\ 0 <= start_index <= 65535 /\
        List.length header = 4%nat).
Proof.
  intros wt si. split; [ | split ].
  - intros H. unfold dnrgb_header.
    destruct (Z.gtb_spec wt 255) as [Hw | Hw]; [ eauto | ].
    destruct (Z.gtb_spec si (2 ^ 16 - 1)) as [Hs | Hs]; [ eauto | ].
    exfalso. change (2 ^ 16 - 1) with 65535 in Hs. lia.
  - intros Hw Hs. rewrite dnrgb_header_accepts by assumption.
    destruct (byte_split si Hs) as [-> ->].
    pose proof (Z.div_mod si 256 ltac:(lia)).
    pose proof (Z.mod_pos_bound si 256 ltac:(lia)).
    repeat split; lia.
  - intros header. unfold dnrgb_header, struct_pack_BBH.
    destruct (Z.gtb_spec wt 255) as [Hw | Hw]; [ discriminate | ].
    destruct (Z.gtb_spec si (2 ^ 16 - 1)) as [Hs | Hs]; [ discriminate | ].
    change (2 ^ 16 - 1) with 65535 in Hs.
    cbn [DNRGB_PROTOCOL_VALUE Z.leb Z.compare andb].
    destruct (Z.leb_spec 0 wt), (Z.leb_spec wt 255),
             (Z.leb_spec 0 si), (Z.leb_spec si 65535);
      cbn [andb]; try discriminate.
    intros E. injection E as <-. repeat split; lia.
Qed.

Lemma dnrgb_header_rejects_or_packs_witness :
  (exists msg : string, dnrgb_header 256 0 = Raises (ValueError msg)) /\
  (exists msg : string, dnrgb_header 5 65536 = Raises (ValueError msg)) /\
  dnrgb_header 5 65535 = Returns [DNRGB_PROTOCOL_VALUE; 5; 65535 / 256; 65535 mod 256].
Proof.
  split; [ | split ].
  - apply (proj1 (dnrgb_header_rejects_or_packs 256 0)). left. lia.
  - apply (proj1 (dnrgb_header_rejects_or_packs 5 65536)). right. lia.
  - apply (proj1 (proj2 (dnrgb_header_rejects_or_packs 5 65535))); lia.
Defined.

(* ================================================================== *)
(** * The encoder: input contract (C9) *)

(** C9, as the spec words it, fails: a frame that is not square passes
    when its height and width are even. *)
Lemma non_square_frame_is_encoded :
  shape0 (numbered 2 4) <> shape1 (numbered 2 4) /\
  fst (send_quadrant {| frame := numbered 2 4; sent := [] |}) = Returns tt /\
  map start_index_of
      (sent (snd (send_quadrant {| frame := numbered 2 4; sent := [] |})))
  = [0; 3; 6; 9].
Proof. vm_compute. repeat split. discriminate. Qed.

(** C9, amended: the encoder fails fast on every frame whose height or
    width is odd: [np.split] raises [ValueError] before a datagram is sent
    or a pixel written.  It does not check that the frame is square: a
    frame of even height and width, square or not, is encoded into the four
    datagrams of its quadrants (as long as each fits a UDP datagram). *)
Theorem odd_dimension_fails_fast :
  (forall (a : ndarray) (s : list datagram),
      Nat.odd (shape0 a) = true \/ Nat.odd (shape1 a) = true ->
      send_quadrant {| frame := a; sent := s |}
      = (Raises (ValueError split_message), {| frame := a; sent := s |})) /\
  (forall (a : ndarray) (s : list datagram),
      rectangular a ->
      Nat.even (shape0 a) = true -> Nat.even (shape1 a) = true ->
      datagram_size a <= MAX_UDP_PAYLOAD ->
      fst (send_quadrant {| frame := a; sent := s |}) = Returns tt /\
      sent (snd (send_quadrant {| frame := a; sent := s |}))
      = s ++ map datagram_of (segments_of a) /\
      List.length (segments_of a) = 4%nat).
Proof.
  split.
  - intros a s H. apply send_quadrant_odd.
    unfold Nat.odd in H.
    destruct H as [H | H]; [ left | right ];
      apply negb_true_iff in H; exact H.
  - intros a s Hrect EH EW Hfit.
    rewrite send_quadrant_returns by assumption.
    destruct (segments_of_explicit a Hrect EH EW)
      as (p0 & p1 & p2 & p3 & -> & _ & _).
    repeat split.
Qed.

Lemma odd_dimension_fails_fast_witness :
  send_quadrant {| frame := numbered 3 4; sent := [] |}
  = (Raises (ValueError split_message), {| frame := numbered 3 4; sent := [] |}) /\
  send_quadrant {| frame := numbered 4 3; sent := [] |}
  = (Raises (ValueError split_message), {| frame := numbered 4 3; sent := [] |}) /\
  fst (send_quadrant {| frame := numbered 2 4; sent := [] |}) = Returns tt.
Proof.
  split; [ | split ].
  - apply (proj1 odd_dimension_fails_fast). left. reflexivity.
  - apply (proj1 odd_dimension_fails_fast). right. reflexivity.
  - assert (R : rectangular (numbered 2 4))
      by (split; [ reflexivity | repeat constructor ]).
    refine (proj1 (proj2 odd_dimension_fails_fast (numbered 2 4) []
                     R eq_refl eq_refl _)).
    vm_compute. discriminate.
Defined.

(* ================================================================== *)
(** * The encoder: what it writes (C10) *)

Lemma quadrants_of_serpentine_frame :
  forall a : ndarray,
    rectangular a ->
    Nat.even (shape0 a) = true -> Nat.even (shape1 a) = true ->
    quadrants_of (serpentine_frame a) = map serpentine (quadrants_of a).
Proof.
  intros a Hrect EH EW.
  destruct (frame_is_quadrants a Hrect EH EW)
    as (TL & TR & BL & BR & Hq & sTL & sTR & sBL & sBR & Hg).
  unfold quadrants_of at 1. unfold serpentine_frame.
  cbn [shape0 shape1 data]. rewrite Hq. cbn [map assemble].
  apply slice_all_quadrants; now apply has_shape_serpentine.
Qed.

Lemma serpentine_frame_involutive :
  forall a : ndarray,
    rectangular a ->
    Nat.even (shape0 a) = true -> Nat.even (shape1 a) = true ->
    serpentine_frame (serpentine_frame a) = a.
Proof.
  intros a Hrect EH EW.
  unfold serpentine_frame at 1.
  rewrite quadrants_of_serpentine_frame by assumption.
  destruct (frame_is_quadrants a Hrect EH EW)
    as (TL & TR & BL & BR & Hq & _ & _ & _ & _ & Hg).
  rewrite Hq. cbn [map assemble]. rewrite !serpentine_involutive, <- Hg.
  now destruct a.
Qed.

Lemma rectangular_serpentine_frame :
  forall a : ndarray,
    rectangular a ->
    Nat.even (shape0 a) = true -> Nat.even (shape1 a) = true ->
    rectangular (serpentine_frame a).
Proof.
  intros a Hrect EH EW.
  destruct (frame_is_quadrants a Hrect EH EW)
    as (TL & TR & BL & BR & Hq & sTL & sTR & sBL & sBR & Hg).
  apply has_shape_serpentine in sTL, sTR, sBL, sBR.
  unfold rectangular, serpentine_frame. cbn [shape0 shape1 data].
  rewrite Hq. cbn [map assemble].
  pose proof (even_is_twice _ EH) as HH.
  pose proof (even_is_twice _ EW) as HW.
  set (h := Nat.div2 (shape0 a)) in *. set (w := Nat.div2 (shape1 a)) in *.
  destruct sTL as [lTL rTL], sTR as [lTR rTR],
           sBL as [lBL rBL], sBR as [lBR rBR].
  split.
  - rewrite length_app, !beside_length by congruence. lia.
  - rewrite HW. apply Forall_app. split; now apply beside_row_lengths.
Qed.

(** C10, as the spec words it, fails: encoding changes the grid it is
    given.  Rows 1 and 3 of the numbered 4 by 4 frame come back with each
    half reversed. *)
Lemma send_quadrant_changes_the_frame :
  data (frame (snd (send_quadrant {| frame := numbered 4 4; sent := [] |})))
  = [ [px 0; px 1; px 2; px 3];
      [px 5; px 4; px 7; px 6];
      [px 8; px 9; px 10; px 11];
      [px 13; px 12; px 15; px 14] ] /\
  frame (snd (send_quadrant {| frame := numbered 4 4; sent := [] |}))
  <> numbered 4 4.
Proof. vm_compute. split; [ reflexivity | discriminate ]. Qed.

(** C10, amended: the encoder keeps no state of its own: on a frame of even
    height and width, what it sends and whether it raises are determined by
    the grid it is handed, whatever was sent before.  But it is not a pure
    function of the grid: it leaves the grid with every odd-indexed row of
    every quadrant reversed, so that a second call on the same array
    encodes the reversed rows (and puts the grid back as it was). *)
Theorem send_quadrant_writes_serpentine_frame :
  forall (a : ndarray) (s : list datagram),
    rectangular a ->
    Nat.even (shape0 a) = true -> Nat.even (shape1 a) = true ->
    frame (snd (send_quadrant {| frame := a; sent := s |}))
    = serpentine_frame a /\
    fst (send_quadrant {| frame := a; sent := s |})
    = fst (send_quadrant {| frame := a; sent := [] |}) /\
    sent (snd (send_quadrant {| frame := a; sent := s |}))
    = s ++ sent (snd (send_quadrant {| frame := a; sent := [] |})) /\
    quadrants_of (serpentine_frame a) = map serpentine (quadrants_of a) /\
    (forall s' : list datagram,
        frame (snd (send_quadrant
                      {| frame := frame (snd (send_quadrant
                                                {| frame := a; sent := s |}));
                         sent := s' |}))
        = a).
Proof.
  intros a s Hrect EH EW.
  rewrite !send_quadrant_run by assumption.
  assert (Hback : forall s' : list datagram,
             frame (snd (send_quadrant {| frame := serpentine_frame a;
                                          sent := s' |})) = a).
  { intros s'.
    rewrite send_quadrant_run
      by (try apply rectangular_serpentine_frame; assumption).
    destruct (datagram_size (serpentine_frame a) <=? MAX_UDP_PAYLOAD);
      cbn [snd frame]; now apply serpentine_frame_involutive. }
  destruct (datagram_size a <=? MAX_UDP_PAYLOAD);
    cbn [fst snd frame sent app]; rewrite ?app_nil_r;
    (repeat split;
     [ now apply quadrants_of_serpentine_frame | exact Hback ]).
Qed.

Lemma send_quadrant_writes_serpentine_frame_witness :
  frame (snd (send_quadrant {| frame := numbered 4 4; sent := [[1]] |}))
  = serpentine_frame (numbered 4 4) /\
  sent (snd (send_quadrant {| frame := numbered 4 4; sent := [[1]] |}))
  = [[1]] ++ sent (snd (send_quadrant {| frame := numbered 4 4; sent := [] |})).
Proof.
  assert (R : rectangular (numbered 4 4))
    by (split; [ reflexivity | repeat constructor ]).
  pose proof (send_quadrant_writes_serpentine_frame (numbered 4 4) [[1]]
                R eq_refl eq_refl) as (A & _ & B & _).
  exact (conj A B).
Defined.

(* ================================================================== *)
(** * Floats: rounding keeps bounds *)

Local Open Scope Q_scope.

(** Powers of two as rationals. *)
Lemma pow2_pos : forall e, 0 < pow2 e.
Proof. intros e. apply Qpower_0_lt. reflexivity. Qed.

Lemma pow2_add : forall a b, pow2 (a + b) == pow2 a * pow2 b.
Proof. intros a b. apply Qpower_plus. discriminate. Qed.

Lemma pow2_le : forall a b, (a <= b)%Z -> pow2 a <= pow2 b.
Proof. intros a b H. apply Qpower_le_compat_l; [ exact H | discriminate ]. Qed.

Lemma pow2_lt_inv : forall a b, pow2 a < pow2 b -> (a < b)%Z.
Proof. intros a b H. apply (Qpower_lt_compat_l_inv 2); [ exact H | reflexivity ]. Qed.

Lemma pow2_inject : forall n, (0 <= n)%Z -> inject_Z (2 ^ n) == pow2 n.
Proof. intros n H. apply Zpower_Qpower. exact H. Qed.

(** [ilog2] from below. *)
Lemma ilog2_lower : forall x, 0 < x -> pow2 (ilog2 x) <= x.
Proof.
  intros x Hx. unfold ilog2.
  destruct (Qle_bool (pow2 (Z.log2 (Qnum x) - Z.log2 (Z.pos (Qden x)))) x) eqn:E.
  - apply Qle_bool_iff. exact E.
  - clear E. destruct x as [n d]. cbn [Qnum Qden].
    assert (Hn : (0 < n)%Z).
    { unfold Qlt in Hx. simpl in Hx. lia. }
    pose proof (Z.log2_spec n Hn) as [Ha _].
    pose proof (Z.log2_spec (Z.pos d) ltac:(lia)) as [_ Hb].
    pose proof (Z.log2_nonneg n) as Ha0.
    pose proof (Z.log2_nonneg (Z.pos d)) as Hb0.
    set (a := Z.log2 n) in *. set (b := Z.log2 (Z.pos d)) in *.
    assert (Hd : inject_Z (Z.pos d) <= pow2 (b + 1)).
    { rewrite <- pow2_inject by lia. rewrite <- Zle_Qle. lia. }
    assert (Hna : pow2 a <= inject_Z n).
    { rewrite <- pow2_inject by lia. rewrite <- Zle_Qle. lia. }
    rewrite (Qmake_Qdiv n d).
    apply Qle_shift_div_l; [ reflexivity | ].
    apply Qle_trans with (pow2 (a - b - 1) * pow2 (b + 1)).
    + apply Qmult_le_l; [ apply pow2_pos | exact Hd ].
    + rewrite <- pow2_add. replace (a - b - 1 + (b + 1))%Z with a by lia.
      exact Hna.
Qed.

(** [ilog2] from above: with [ilog2_lower], it is the floor of the binary
    logarithm. *)
Lemma ilog2_upper : forall x, 0 < x -> x < pow2 (ilog2 x + 1).
Proof.
  intros x Hx. unfold ilog2.
  destruct (Qle_bool (pow2 (Z.log2 (Qnum x) - Z.log2 (Z.pos (Qden x)))) x) eqn:E.
  - clear E. destruct x as [n d]. cbn [Qnum Qden].
    assert (Hn : (0 < n)%Z).
    { unfold Qlt in Hx. simpl in Hx. lia. }
    pose proof (Z.log2_spec n Hn) as [_ Ha].
    pose proof (Z.log2_spec (Z.pos d) ltac:(lia)) as [Hb _].
    pose proof (Z.log2_nonneg n) as Ha0.
    pose proof (Z.log2_nonneg (Z.pos d)) as Hb0.
    set (a := Z.log2 n) in *. set (b := Z.log2 (Z.pos d)) in *.
    assert (Hd : pow2 b <= inject_Z (Z.pos d)).
    { rewrite <- pow2_inject by lia. rewrite <- Zle_Qle. lia. }
    assert (Hna : inject_Z n < pow2 (a + 1)).
    { rewrite <- pow2_inject by lia. rewrite <- Zlt_Qlt. lia. }
    rewrite (Qmake_Qdiv n d).
    apply Qlt_shift_div_r; [ reflexivity | ].
    eapply Qlt_le_trans; [ exact Hna | ].
    replace (a + 1)%Z with (a - b + 1 + b)%Z by lia. rewrite pow2_add.
    apply Qmult_le_l; [ apply pow2_pos | exact Hd ].
  - replace (Z.log2 (Qnum x) - Z.log2 (Z.pos (Qden x)) - 1 + 1)%Z
      with (Z.log2 (Qnum x) - Z.log2 (Z.pos (Qden x)))%Z by lia.
    apply Qnot_le_lt. intros H. apply Qle_bool_iff in H. congruence.
Qed.

(** Rounding to an integer moves by half a unit at most. *)
Lemma round_half_even_near :
  forall x, Qabs (inject_Z (round_half_even x) - x) <= 1 # 2.
Proof.
  intros x. unfold round_half_even.
  pose proof (Qfloor_le x) as Hf. pose proof (Qlt_floor x) as Hc.
  rewrite inject_Z_plus in Hc.
  set (f := Qfloor x) in *.
  change (inject_Z 1) with 1 in Hc.
  destruct (Qcompare_spec (x - inject_Z f) (1 # 2)) as [E | L | G];
    [ destruct (Z.even f) | | ];
    rewrite ?inject_Z_plus; change (inject_Z 1) with 1;
    apply Qabs_Qle_condition; split; lra.
Qed.

(** Rounding is monotone against integers. *)
Lemma round_half_even_ge_floor : forall x, (Qfloor x <= round_half_even x)%Z.
Proof.
  intros x. unfold round_half_even.
  destruct (x - inject_Z (Qfloor x) ?= 1 # 2); try lia.
  destruct (Z.even (Qfloor x)); lia.
Qed.

Lemma round_half_even_le :
  forall x N, x <= inject_Z N -> (round_half_even x <= N)%Z.
Proof.
  intros x N H.
  pose proof (Qfloor_resp_le _ _ H) as Hf. rewrite Qfloor_Z in Hf.
  destruct (Z.eq_dec (Qfloor x) N) as [E | E].
  - unfold round_half_even.
    assert (L : x - inject_Z (Qfloor x) < 1 # 2).
    { rewrite E. apply Qle_lt_trans with 0; [ | reflexivity ].
      apply (Qplus_le_l _ _ (inject_Z N)). ring_simplify. exact H. }
    destruct (Qcompare_spec (x - inject_Z (Qfloor x)) (1 # 2)) as [E1 | L1 | G1].
    + rewrite E1 in L. exfalso. exact (Qlt_irrefl _ L).
    + lia.
    + exfalso. exact (Qlt_irrefl _ (Qlt_trans _ _ _ L G1)).
  - unfold round_half_even.
    destruct (x - inject_Z (Qfloor x) ?= 1 # 2); try lia.
    destruct (Z.even (Qfloor x)); lia.
Qed.

Lemma round_half_even_ge :
  forall x N, inject_Z N <= x -> (N <= round_half_even x)%Z.
Proof.
  intros x N H.
  pose proof (Qfloor_resp_le _ _ H) as Hf. rewrite Qfloor_Z in Hf.
  pose proof (round_half_even_ge_floor x). lia.
Qed.

(** Exponent of the last place, from a bound on the magnitude. *)
Lemma ulp_exp_le :
  forall x b,
    ~ x == 0 -> (-1074 <= b)%Z -> Qabs x < pow2 (b + 53) ->
    (ulp_exp x <= b)%Z.
Proof.
  intros x b Hx Hb H. unfold ulp_exp.
  assert (Hpos : 0 < Qabs x).
  { destruct (Qlt_le_dec 0 (Qabs x)) as [L | L]; [ exact L | ].
    exfalso. apply Hx. pose proof (Qabs_nonneg x) as Hn.
    assert (E : Qabs x == 0) by (apply Qle_antisym; assumption).
    destruct (Qabs_Qle_condition x 0) as [C _].
    specialize (C ltac:(rewrite E; apply Qle_refl)).
    apply Qle_antisym; tauto. }
  pose proof (ilog2_lower _ Hpos) as Hl.
  pose proof (pow2_lt_inv _ _ (Qle_lt_trans _ _ _ Hl H)). lia.
Qed.

Lemma pow2_53_bound :
  forall N b, (0 <= N < 2 ^ 53)%Z -> inject_Z N * pow2 b < pow2 (b + 53).
Proof.
  intros N b HN. rewrite Z.add_comm, pow2_add.
  apply Qmult_lt_r; [ apply pow2_pos | ].
  rewrite <- pow2_inject by lia. rewrite <- Zlt_Qlt. lia.
Qed.

(** The rounded value before the overflow test: it stays within any bound
    that is itself a multiple of a power of two no finer than the last
    place. *)
Lemma rounded_bounded :
  forall x N b,
    (0 <= N < 2 ^ 53)%Z -> (-1074 <= b)%Z ->
    ~ x == 0 ->
    Qabs x <= inject_Z N * pow2 b ->
    Qabs (inject_Z (round_half_even (x / pow2 (ulp_exp x))) * pow2 (ulp_exp x))
    <= inject_Z N * pow2 b /\
    (0 <= x ->
     0 <= inject_Z (round_half_even (x / pow2 (ulp_exp x))) * pow2 (ulp_exp x)).
Proof.
  intros x N b HN Hb Hx0 Hx.
  assert (He : (ulp_exp x <= b)%Z).
  { apply ulp_exp_le; try assumption.
    eapply Qle_lt_trans; [ exact Hx | now apply pow2_53_bound ]. }
  set (e := ulp_exp x) in *.
  pose proof (pow2_pos e) as Hpe.
  assert (HN' : inject_Z (N * 2 ^ (b - e)) * pow2 e == inject_Z N * pow2 b).
  { rewrite inject_Z_mult, pow2_inject by lia.
    rewrite <- Qmult_assoc, <- pow2_add.
    replace (b - e + e)%Z with b by lia. reflexivity. }
  apply Qabs_Qle_condition in Hx. destruct Hx as [Hlo Hhi].
  assert (Hup : x / pow2 e <= inject_Z (N * 2 ^ (b - e))).
  { apply Qle_shift_div_r; [ exact Hpe | ]. rewrite HN'. exact Hhi. }
  assert (Hdn : inject_Z (- (N * 2 ^ (b - e))) <= x / pow2 e).
  { apply Qle_shift_div_l; [ exact Hpe | ].
    rewrite inject_Z_opp.
    setoid_replace (- inject_Z (N * 2 ^ (b - e)) * pow2 e)
      with (- (inject_Z (N * 2 ^ (b - e)) * pow2 e)) by ring.
    rewrite HN'. exact Hlo. }
  apply round_half_even_le in Hup. apply round_half_even_ge in Hdn.
  set (m := round_half_even (x / pow2 e)) in *.
  split.
  - apply Qabs_Qle_condition. rewrite <- HN'. split.
    + setoid_replace (- (inject_Z (N * 2 ^ (b - e)) * pow2 e))
        with (inject_Z (- (N * 2 ^ (b - e))) * pow2 e)
        by (rewrite inject_Z_opp; ring).
      apply Qmult_le_compat_r; [ | apply Qlt_le_weak, Hpe ].
      rewrite <- Zle_Qle. exact Hdn.
    + apply Qmult_le_compat_r; [ | apply Qlt_le_weak, Hpe ].
      rewrite <- Zle_Qle. exact Hup.
  - intros H0.
    apply Qmult_le_0_compat; [ | apply Qlt_le_weak, Hpe ].
    rewrite <- (Zle_Qle 0). apply round_half_even_ge.
    apply Qle_shift_div_l; [ exact Hpe | ]. rewrite Qmult_0_l. exact H0.
Qed.

Lemma round64_bounded :
  forall x N b,
    (0 <= N < 2 ^ 53)%Z -> (-1074 <= b <= 971)%Z ->
    Qabs x <= inject_Z N * pow2 b ->
    exists q, round64 x = Fin q /\
              Qabs q <= inject_Z N * pow2 b /\
              (0 <= x -> 0 <= q).
Proof.
  intros x N b HN Hb Hx.
  assert (nonzero :
    ~ x == 0 ->
    exists q,
      (let e := ulp_exp x in
       let y := inject_Z (round_half_even (x / pow2 e)) * pow2 e in
       if Qle_bool (pow2 1024) (Qabs y) then Inf (Qle_bool x 0)
       else Fin (Qred y)) = Fin q /\
      Qabs q <= inject_Z N * pow2 b /\ (0 <= x -> 0 <= q)).
  { intros Hx0.
    destruct (rounded_bounded x N b HN ltac:(lia) Hx0 Hx) as [Hy Hy0].
    cbv zeta.
    set (y := inject_Z (round_half_even (x / pow2 (ulp_exp x)))
              * pow2 (ulp_exp x)) in *.
    assert (Hsmall : Qle_bool (pow2 1024) (Qabs y) = false).
    { destruct (Qle_bool (pow2 1024) (Qabs y)) eqn:E; [ | reflexivity ].
      exfalso. apply Qle_bool_iff in E.
      pose proof (pow2_53_bound N b HN) as Hb53.
      pose proof (pow2_le (b + 53) 1024 ltac:(lia)) as Hle.
      apply (Qlt_irrefl (pow2 1024)).
      eapply Qle_lt_trans; [ exact E | ].
      eapply Qle_lt_trans; [ exact Hy | ].
      eapply Qlt_le_trans; [ exact Hb53 | exact Hle ]. }
    rewrite Hsmall. exists (Qred y). split; [ reflexivity | split ].
    - rewrite (Qabs_wd _ _ (Qred_correct y)). exact Hy.
    - intros H0. rewrite (Qred_correct y). auto. }
  unfold round64.
  destruct (Qcompare_spec x 0) as [E | L | G].
  - exists 0. split; [ reflexivity | ]. split; [ | intros _; apply Qle_refl ].
    apply Qmult_le_0_compat;
      [ rewrite <- (Zle_Qle 0); lia | apply Qlt_le_weak, pow2_pos ].
  - apply nonzero. intros E. rewrite E in L. exact (Qlt_irrefl _ L).
  - apply nonzero. intros E. rewrite E in G. exact (Qlt_irrefl _ G).
Qed.

Lemma round64_not_nan : forall x, round64 x <> NaN.
Proof.
  intros x. unfold round64.
  destruct (x ?= 0); try discriminate;
    match goal with |- context [if ?c then _ else _] => destruct c end;
    discriminate.
Qed.

(* ================================================================== *)
(** * The calibration (C5) *)

(** The two clamps leave a finite value between the bounds, whatever finite
    or infinite value comes in. *)
Lemma clamp_between :
  forall (v : float) (lo hi : Q),
    v <> NaN -> lo <= hi ->
    exists q,
      (let v1 := if float_gt v (Fin hi) then Fin hi else v in
       if float_lt v1 (Fin lo) then Fin lo else v1) = Fin q /\
      lo <= q <= hi.
Proof.
  intros v lo hi Hn Hlh. cbv zeta.
  destruct v as [x | s | ]; [ | | congruence ].
  - unfold float_gt, float_lt.
    destruct (Qle_bool x hi) eqn:Ehi; cbn [negb].
    + destruct (Qle_bool lo x) eqn:Elo; cbn [negb].
      * exists x. apply Qle_bool_iff in Ehi, Elo. auto.
      * exists lo. split; [ reflexivity | ]. split; [ apply Qle_refl | exact Hlh ].
    + apply Qle_bool_iff in Hlh. rewrite Hlh. cbn [negb].
      exists hi. apply Qle_bool_iff in Hlh.
      split; [ reflexivity | ]. split; [ exact Hlh | apply Qle_refl ].
  - unfold float_gt, float_lt. destruct s; cbn [negb].
    + exists lo. split; [ reflexivity | ]. split; [ apply Qle_refl | exact Hlh ].
    + apply Qle_bool_iff in Hlh. rewrite Hlh. cbn [negb].
      exists hi. apply Qle_bool_iff in Hlh.
      split; [ reflexivity | ]. split; [ exact Hlh | apply Qle_refl ].
Qed.

(** The last two operations: a value between the clamp bounds gives a
    result between 0 and 1. *)
Lemma rescale_between :
  forall q lo,
    lo <= q -> q - lo <= 11 # 4 ->
    exists r,
      float_truediv (float_sub (Fin q) (Fin lo)) (literal (275 # 100))
      = Returns (Fin r) /\ 0 <= r <= 1.
Proof.
  intros q lo Hq Hd.
  assert (H275 : literal (275 # 100) = Fin (11 # 4)) by (vm_compute; reflexivity).
  rewrite H275. cbn [float_sub].
  assert (H0 : 0 <= q - lo).
  { apply (Qplus_le_l _ _ lo). ring_simplify. exact Hq. }
  destruct (round64_bounded (q - lo) 11 (-2)) as (u & Hu & Hub & Hu0);
    [ vm_compute; split; [ discriminate | reflexivity ] | lia | | ].
  { rewrite Qabs_pos by exact H0.
    eapply Qle_trans; [ exact Hd | ]. vm_compute. discriminate. }
  rewrite Hu. cbn [float_truediv]. change (is_zero (11 # 4)) with false.
  cbv iota.
  specialize (Hu0 H0).
  assert (Hu1 : u <= 11 # 4).
  { apply Qabs_Qle_condition in Hub. destruct Hub as [_ Hub].
    eapply Qle_trans; [ exact Hub | ]. vm_compute. discriminate. }
  assert (Hq0 : 0 <= u / (11 # 4)).
  { apply Qle_shift_div_l; [ reflexivity | ]. rewrite Qmult_0_l. exact Hu0. }
  destruct (round64_bounded (u / (11 # 4)) 1 0) as (r & Hr & Hrb & Hr0);
    [ vm_compute; split; [ discriminate | reflexivity ] | lia | | ].
  { rewrite Qabs_pos by exact Hq0.
    apply Qle_shift_div_r; [ reflexivity | ].
    eapply Qle_trans; [ exact Hu1 | ]. vm_compute. discriminate. }
  exists r. split; [ now rewrite Hr | ]. split; [ now apply Hr0 | ].
  apply Qabs_Qle_condition in Hrb. destruct Hrb as [_ Hrb].
  eapply Qle_trans; [ exact Hrb | ]. vm_compute. discriminate.
Qed.

(** [voltage_to_value] on an integer that converts to a float. *)
Lemma voltage_to_value_returns :
  forall z q0,
    float_of_int z = Returns (Fin q0) ->
    exists r, voltage_to_value z = Returns (Fin r) /\ 0 <= r <= 1.
Proof.
  intros z q0 Hz. unfold voltage_to_value. rewrite Hz. cbn [obind].
  assert (Hd : float_of_int 65535 = Returns (Fin 65535))
    by (vm_compute; reflexivity).
  rewrite Hd. cbn [obind].
  assert (H33 : exists c, literal (33 # 10) = Fin c)
    by (eexists; vm_compute; reflexivity).
  destruct H33 as (c33 & H33). rewrite H33.
  assert (Hv : exists v,
             float_truediv (float_mul (Fin q0) (Fin c33)) (Fin 65535)
             = Returns v /\ v <> NaN).
  { cbn [float_mul].
    pose proof (round64_not_nan (q0 * c33)) as Hn.
    destruct (round64 (q0 * c33)) as [a | s | ]; [ | | congruence ].
    - cbn [float_truediv]. change (is_zero 65535) with false. cbv iota.
      eexists. split; [ reflexivity | apply round64_not_nan ].
    - cbn [float_truediv]. change (is_zero 65535) with false. cbv iota.
      eexists. split; [ reflexivity | discriminate ]. }
  destruct Hv as (v & -> & Hv). cbn [obind].
  assert (Hhi : exists hi, literal (28 # 10) = Fin hi /\
                           forall lo, literal (5 # 100) = Fin lo ->
                                      lo <= hi /\ hi - lo <= 11 # 4).
  { eexists. split; [ vm_compute; reflexivity | ].
    intros lo Hlo. vm_compute in Hlo. injection Hlo as <-.
    split; vm_compute; discriminate. }
  destruct Hhi as (hi & Hhi & Hbounds).
  assert (Hlo : exists lo, literal (5 # 100) = Fin lo)
    by (eexists; vm_compute; reflexivity).
  destruct Hlo as (lo & Hlo).
  destruct (Hbounds lo Hlo) as [Hlh Hdiff].
  rewrite Hhi.
  destruct (clamp_between v lo hi Hv Hlh) as (q & Hq & Hql & Hqh).
  cbv zeta in Hq. rewrite Hlo, Hq.
  apply (rescale_between q lo Hql).
  eapply Qle_trans; [ | exact Hdiff ].
  apply Qplus_le_l. exact Hqh.
Qed.

(** ** Which integers convert *)
(** A value half a unit or more above an odd integer rounds to the next
    integer or higher. *)
Lemma round_half_even_up :
  forall x N, Z.odd N = true -> inject_Z N + (1 # 2) <= x ->
              (N + 1 <= round_half_even x)%Z.
Proof.
  intros x N Hodd H.
  assert (Hf : (N <= Qfloor x)%Z).
  { rewrite <- (Qfloor_Z N). apply Qfloor_resp_le. lra. }
  pose proof (round_half_even_ge_floor x) as Hge.
  destruct (Z.eq_dec (Qfloor x) N) as [E | E]; [ | lia ].
  unfold round_half_even. rewrite E.
  destruct (Qcompare_spec (x - inject_Z N) (1 # 2)) as [E1 | L1 | G1].
  - rewrite <- Z.negb_odd, Hodd. simpl. lia.
  - exfalso. lra.
  - lia.
Qed.

Lemma round_half_even_down :
  forall x N, Z.odd N = true -> x <= - (inject_Z N + (1 # 2)) ->
              (round_half_even x <= - (N + 1))%Z.
Proof.
  intros x N Hodd H.
  pose proof (Qfloor_le x) as Hfl. pose proof (Qlt_floor x) as Hfu.
  rewrite inject_Z_plus in Hfu. change (inject_Z 1) with 1 in Hfu.
  assert (Hf : (Qfloor x <= - (N + 1))%Z).
  { assert (Qfloor x < - N)%Z; [ | lia ].
    rewrite Zlt_Qlt, inject_Z_opp. lra. }
  destruct (Z.eq_dec (Qfloor x) (- (N + 1))) as [E | E].
  - unfold round_half_even. rewrite E.
    assert (Ev : Z.even (- (N + 1)) = true).
    { rewrite Z.even_opp, Z.even_add. rewrite <- Z.negb_odd, Hodd. reflexivity. }
    rewrite Ev.
    destruct (Qcompare_spec (x - inject_Z (- (N + 1))) (1 # 2)) as [E1 | L1 | G1];
      try lia.
    exfalso. rewrite inject_Z_opp, inject_Z_plus in G1.
    change (inject_Z 1) with 1 in G1. lra.
  - unfold round_half_even.
    destruct (x - inject_Z (Qfloor x) ?= 1 # 2); try lia.
    destruct (Z.even (Qfloor x)); lia.
Qed.

Lemma Qabs_div_pow2 :
  forall x e, Qabs (x / pow2 e) == Qabs x / pow2 e.
Proof.
  intros x e. unfold Qdiv. rewrite Qabs_Qmult, Qabs_Qinv.
  rewrite (Qabs_pos (pow2 e)) by (apply Qlt_le_weak, pow2_pos). reflexivity.
Qed.

Lemma Qabs_mul_pow2 :
  forall x e, Qabs (x * pow2 e) == Qabs x * pow2 e.
Proof.
  intros x e. rewrite Qabs_Qmult.
  rewrite (Qabs_pos (pow2 e)) by (apply Qlt_le_weak, pow2_pos). reflexivity.
Qed.

(** The threshold of the conversion, as a rational. *)
Lemma threshold_value :
  inject_Z (2 ^ 1024 - 2 ^ 970) == (inject_Z (2 ^ 53 - 1) + (1 # 2)) * pow2 971.
Proof.
  rewrite <- (pow2_inject 971) by lia.
  assert (H : (2 * (2 ^ 1024 - 2 ^ 970) = (2 * (2 ^ 53 - 1) + 1) * 2 ^ 971)%Z)
    by reflexivity.
  apply (f_equal inject_Z) in H. rewrite !inject_Z_mult, inject_Z_plus in H.
  rewrite inject_Z_mult in H.
  change (inject_Z 2) with 2 in H. change (inject_Z 1) with 1 in H.
  set (T := inject_Z (2 ^ 1024 - 2 ^ 970)) in *.
  set (N := inject_Z (2 ^ 53 - 1)) in *.
  set (P := inject_Z (2 ^ 971)) in *.
  assert (H' : 2 * T == (2 * N + 1) * P) by (rewrite H; reflexivity).
  clearbody T N P. clear H.
  setoid_replace ((N + (1 # 2)) * P) with ((1 # 2) * ((2 * N + 1) * P)) by ring.
  rewrite <- H'. ring.
Qed.

Lemma pow2_1024_value : pow2 1024 == (inject_Z (2 ^ 53 - 1) + 1) * pow2 971.
Proof.
  rewrite <- (pow2_inject 971), <- (pow2_inject 1024) by lia.
  change 1 with (inject_Z 1). rewrite <- inject_Z_plus, <- inject_Z_mult.
  reflexivity.
Qed.

(** Below the threshold the rounded value stays below [2^1024]. *)
Lemma rounded_below_threshold :
  forall x,
    ~ x == 0 ->
    Qabs x < inject_Z (2 ^ 1024 - 2 ^ 970) ->
    Qabs (inject_Z (round_half_even (x / pow2 (ulp_exp x))) * pow2 (ulp_exp x))
    < pow2 1024.
Proof.
  intros x Hx0 Hx.
  assert (He : (ulp_exp x <= 971)%Z).
  { apply ulp_exp_le; [ exact Hx0 | lia | ].
    eapply Qlt_trans; [ exact Hx | ].
    rewrite <- pow2_inject by lia. rewrite <- Zlt_Qlt. reflexivity. }
  set (e := ulp_exp x) in *.
  pose proof (pow2_pos e) as HP.
  assert (HK : inject_Z (2 ^ (971 - e)) * pow2 e == pow2 971).
  { rewrite pow2_inject by lia. rewrite <- pow2_add.
    replace (971 - e + e)%Z with 971%Z by lia. reflexivity. }
  assert (HK1 : 1 <= inject_Z (2 ^ (971 - e))).
  { change 1 with (inject_Z 1). rewrite <- Zle_Qle.
    pose proof (Z.pow_pos_nonneg 2 (971 - e) ltac:(lia) ltac:(lia)). lia. }
  rewrite threshold_value, <- HK in Hx.
  rewrite pow2_1024_value, <- HK.
  set (Kq := inject_Z (2 ^ (971 - e))) in *.
  set (N := inject_Z (2 ^ 53 - 1)) in *.
  assert (HN : 0 <= N).
  { unfold N. rewrite <- (Zle_Qle 0). lia. }
  assert (Hq : Qabs (x / pow2 e) < (N + (1 # 2)) * Kq).
  { rewrite Qabs_div_pow2. apply Qlt_shift_div_r; [ exact HP | ].
    rewrite <- Qmult_assoc. exact Hx. }
  pose proof (round_half_even_near (x / pow2 e)) as Hnear.
  set (q := x / pow2 e) in *. set (m := inject_Z (round_half_even q)) in *.
  assert (Hm : Qabs m < (N + 1) * Kq).
  { apply Qabs_Qlt_condition.
    apply Qabs_Qlt_condition in Hq. apply Qabs_Qle_condition in Hnear.
    assert (Hprod : (N + (1 # 2)) * Kq + (1 # 2) <= (N + 1) * Kq).
    { setoid_replace ((N + 1) * Kq) with ((N + (1 # 2)) * Kq + (1 # 2) * Kq)
        by ring.
      apply Qplus_le_r. lra. }
    clearbody m q. lra. }
  rewrite Qabs_mul_pow2.
  setoid_replace ((N + 1) * (Kq * pow2 e)) with ((N + 1) * Kq * pow2 e) by ring.
  apply Qmult_lt_r; [ exact HP | exact Hm ].
Qed.

Lemma float_of_int_below :
  forall z : Z,
    (Z.abs z < 2 ^ 1024 - 2 ^ 970)%Z ->
    exists q, float_of_int z = Returns (Fin q).
Proof.
  intros z Hz. unfold float_of_int, round64.
  assert (Hx : Qabs (inject_Z z) < inject_Z (2 ^ 1024 - 2 ^ 970)).
  { change (Qabs (inject_Z z)) with (inject_Z (Z.abs z)).
    rewrite <- Zlt_Qlt. exact Hz. }
  assert (nonzero : ~ inject_Z z == 0 ->
    exists q,
      match
        (let e := ulp_exp (inject_Z z) in
         let y := inject_Z (round_half_even (inject_Z z / pow2 e)) * pow2 e in
         if Qle_bool (pow2 1024) (Qabs y) then Inf (Qle_bool (inject_Z z) 0)
         else Fin (Qred y))
      with
      | Inf _ => Raises OverflowError
      | f => Returns f
      end = Returns (Fin q)).
  { intros H0. cbv zeta.
    pose proof (rounded_below_threshold _ H0 Hx) as Hy.
    destruct (Qle_bool (pow2 1024) _) eqn:E.
    - apply Qle_bool_iff in E. exfalso.
      exact (Qlt_irrefl _ (Qle_lt_trans _ _ _ E Hy)).
    - eexists. reflexivity. }
  destruct (Qcompare_spec (inject_Z z) 0) as [E | L | G].
  - now exists 0.
  - apply nonzero. intros E. rewrite E in L. exact (Qlt_irrefl _ L).
  - apply nonzero. intros E. rewrite E in G. exact (Qlt_irrefl _ G).
Qed.

Lemma abs_rounded_ge :
  forall (m B : Z) (e : Z),
    (B <= m \/ m <= - B)%Z ->
    inject_Z B * pow2 e <= Qabs (inject_Z m * pow2 e).
Proof.
  intros m B e H. rewrite Qabs_mul_pow2.
  apply Qmult_le_compat_r; [ | apply Qlt_le_weak, pow2_pos ].
  change (Qabs (inject_Z m)) with (inject_Z (Z.abs m)).
  rewrite <- Zle_Qle. lia.
Qed.

(** The quotient by the last place, through the sign of [x]. *)
Lemma quotient_by_sign :
  forall x e c,
    ~ x == 0 -> c <= Qabs x / pow2 e ->
    (0 < x /\ c <= x / pow2 e) \/ (x < 0 /\ x / pow2 e <= - c).
Proof.
  intros x e c Hx Hc.
  destruct (Qlt_le_dec 0 x) as [Hpos | Hneg].
  - left. split; [ exact Hpos | ].
    rewrite (Qabs_pos x) in Hc by (apply Qlt_le_weak, Hpos). exact Hc.
  - right. assert (Hlt : x < 0).
    { apply Qle_lt_or_eq in Hneg. destruct Hneg as [H | H]; [ exact H | ].
      contradiction. }
    split; [ exact Hlt | ].
    rewrite (Qabs_neg x) in Hc by exact Hneg.
    setoid_replace (x / pow2 e) with (- (- x / pow2 e)) by (unfold Qdiv; ring).
    apply Qopp_le_compat. exact Hc.
Qed.

Lemma rounded_above_threshold :
  forall x,
    inject_Z (2 ^ 1024 - 2 ^ 970) <= Qabs x ->
    pow2 1024
    <= Qabs (inject_Z (round_half_even (x / pow2 (ulp_exp x))) * pow2 (ulp_exp x)).
Proof.
  intros x Hx.
  assert (Hpos : 0 < Qabs x).
  { eapply Qlt_le_trans; [ | exact Hx ]. rewrite <- (Zlt_Qlt 0). reflexivity. }
  assert (Hx0 : ~ x == 0).
  { intros E. rewrite E in Hpos. discriminate Hpos. }
  pose proof (ilog2_lower _ Hpos) as Hlo.
  pose proof (ilog2_upper _ Hpos) as Hup.
  assert (HL : (1023 <= ilog2 (Qabs x))%Z).
  { assert (H : pow2 1023 < pow2 (ilog2 (Qabs x) + 1)).
    { eapply Qle_lt_trans; [ | exact Hup ].
      eapply Qle_trans; [ | exact Hx ].
      rewrite <- pow2_inject by lia. rewrite <- Zle_Qle. discriminate. }
    apply pow2_lt_inv in H. lia. }
  unfold ulp_exp. set (L := ilog2 (Qabs x)) in *.
  rewrite (Z.max_l (L - 52) (-1074)) by lia.
  pose proof (pow2_pos (L - 52)) as HP.
  destruct (Z.eq_dec L 1023) as [E | E].
  - (* the top binade: ties go up to [2^53] *)
    rewrite E in *. change (1023 - 52)%Z with 971%Z in *.
    rewrite pow2_1024_value.
    assert (Hq : inject_Z (2 ^ 53 - 1) + (1 # 2) <= Qabs x / pow2 971).
    { apply Qle_shift_div_l; [ exact HP | ].
      rewrite <- threshold_value. exact Hx. }
    change 1 with (inject_Z 1). rewrite <- inject_Z_plus.
    apply abs_rounded_ge.
    destruct (quotient_by_sign x 971 _ Hx0 Hq) as [[_ H] | [_ H]].
    + left. apply round_half_even_up; [ reflexivity | exact H ].
    + right. apply round_half_even_down; [ reflexivity | exact H ].
  - (* beyond: the quotient has 53 bits *)
    assert (Hq : inject_Z (2 ^ 52) <= Qabs x / pow2 (L - 52)).
    { apply Qle_shift_div_l; [ exact HP | ].
      rewrite pow2_inject by lia. rewrite <- pow2_add.
      replace (52 + (L - 52))%Z with L by lia. exact Hlo. }
    apply Qle_trans with (inject_Z (2 ^ 52) * pow2 (L - 52)).
    + rewrite pow2_inject by lia. rewrite <- pow2_add.
      apply pow2_le. lia.
    + apply abs_rounded_ge.
      destruct (quotient_by_sign x (L - 52) _ Hx0 Hq) as [[_ H] | [_ H]].
      * left. apply round_half_even_ge. exact H.
      * right. apply round_half_even_le. rewrite inject_Z_opp. exact H.
Qed.

Lemma float_of_int_above :
  forall z : Z,
    (2 ^ 1024 - 2 ^ 970 <= Z.abs z)%Z ->
    float_of_int z = Raises OverflowError.
Proof.
  intros z Hz. unfold float_of_int, round64.
  assert (Hx : inject_Z (2 ^ 1024 - 2 ^ 970) <= Qabs (inject_Z z)).
  { change (Qabs (inject_Z z)) with (inject_Z (Z.abs z)).
    rewrite <- Zle_Qle. exact Hz. }
  pose proof (rounded_above_threshold _ Hx) as Hy.
  apply Qle_bool_iff in Hy.
  destruct (Qcompare_spec (inject_Z z) 0) as [E | L | G].
  - exfalso. rewrite E in Hx. vm_compute in Hx. apply Hx. reflexivity.
  - cbv zeta. rewrite Hy. reflexivity.
  - cbv zeta. rewrite Hy. reflexivity.
Qed.

(** The model of binary64 arithmetic and the floats of the kernel give the
    same calibrated value on every sampled raw value. *)
Lemma voltage_to_value_agrees_with_binary64 :
  forallb agrees_with_binary64 sampled_raw_values = true.
Proof. vm_compute. reflexivity. Qed.

(** The last integer that converts, and the first that does not. *)
Example float_of_int_threshold :
  float_of_int (2 ^ 1024 - 2 ^ 970 - 1)
  = Returns (Fin (inject_Z (2 ^ 1024 - 2 ^ 971))) /\
  float_of_int (2 ^ 1024 - 2 ^ 970) = Raises OverflowError.
Proof. vm_compute. split; reflexivity. Qed.

(** C5, as the spec words it, fails beyond the floats: an integer too
    large to convert makes the first multiplication raise, and there is no
    output. *)
Lemma voltage_to_value_overflows :
  voltage_to_value (2 ^ 1024) = Raises OverflowError.
Proof. vm_compute. reflexivity. Qed.

(** C5, amended: for every raw integer that converts to a float, that is
    every integer of magnitude below [2^1024 - 2^970], inside the 16-bit
    range or far outside it, the output is a float within [0.0, 1.0]; for
    the integers beyond, the conversion raises [OverflowError] and there is
    no output.  The largest 16-bit value 65535 maps to 1.0 exactly, and 0
    to 0.0. *)
Theorem voltage_to_value_within_unit_interval :
  (forall z : Z,
      (Z.abs z < 2 ^ 1024 - 2 ^ 970)%Z ->
      exists r : Q, voltage_to_value z = Returns (Fin r) /\ 0 <= r <= 1) /\
  (forall z : Z,
      (2 ^ 1024 - 2 ^ 970 <= Z.abs z)%Z ->
      voltage_to_value z = Raises OverflowError) /\
  voltage_to_value 65535 = Returns (Fin 1) /\
  voltage_to_value 0 = Returns (Fin 0).
Proof.
  split; [ | split; [ | split ] ].
  - intros z Hz. destruct (float_of_int_below z Hz) as (q0 & E).
    now apply (voltage_to_value_returns z q0).
  - intros z Hz. unfold voltage_to_value.
    rewrite (float_of_int_above z Hz). reflexivity.
  - vm_compute. reflexivity.
  - vm_compute. reflexivity.
Qed.

Lemma voltage_to_value_within_unit_interval_witness :
  exists r : Q, voltage_to_value 1000000 = Returns (Fin r) /\ 0 <= r <= 1.
Proof.
  apply (proj1 voltage_to_value_within_unit_interval).
  vm_compute. reflexivity.
Defined.

Local Close Scope Q_scope.

(* ================================================================== *)
(** * Slices: what a basic slice selects *)

Lemma clip_range : forall n i : Z, 0 <= n -> 0 <= clip n i <= n.
Proof.
  intros n i Hn. unfold clip. destruct (Z.ltb_spec i 0); lia.
Qed.

Lemma slice_bounds_fit :
  forall (n : nat) (start stop : option Z),
    (fst (slice_bounds n start stop) + snd (slice_bounds n start stop) <= n)%nat.
Proof.
  intros n start stop. unfold slice_bounds. cbn [fst snd].
  assert (Hn : 0 <= Z.of_nat n) by lia.
  destruct start as [i | ], stop as [j | ];
    try pose proof (clip_range (Z.of_nat n) i Hn);
    try pose proof (clip_range (Z.of_nat n) j Hn); lia.
Qed.

Lemma Forall_firstn_skipn :
  forall {A} (P : A -> Prop) (r n : nat) (l : list A),
    Forall P l -> Forall P (firstn n (skipn r l)).
Proof.
  intros A P r n l H.
  assert (Hs : Forall P (skipn r l)).
  { rewrite <- (firstn_skipn r l) in H. apply Forall_app in H. apply H. }
  rewrite <- (firstn_skipn n (skipn r l)) in Hs. apply Forall_app in Hs.
  apply Hs.
Qed.

Lemma window_nth_error :
  forall {A} (c0 n j : nat) (row : list A),
    nth_error (window c0 n row) j
    = if (j <? n)%nat then nth_error row (c0 + j) else None.
Proof.
  intros A c0 n j row. unfold window.
  rewrite nth_error_firstn. destruct (j <? n)%nat; [ | reflexivity ].
  apply nth_error_skipn.
Qed.

Lemma slice_pixel :
  forall (v : view) (g : grid) (i j : nat),
    match nth_error (slice v g) i with
    | Some row => nth_error row j
    | None => None
    end
    = if ((i <? nrows v) && (j <? ncols v))%nat
      then match nth_error g (row0 v + i) with
           | Some row => nth_error row (col0 v + j)
           | None => None
           end
      else None.
Proof.
  intros v g i j. unfold slice.
  rewrite nth_error_map, nth_error_firstn.
  destruct (i <? nrows v)%nat; [ | reflexivity ].
  rewrite nth_error_skipn. cbn [andb].
  destruct (nth_error g (row0 v + i)) as [row | ]; cbn [option_map].
  - apply window_nth_error.
  - destruct (j <? ncols v)%nat; reflexivity.
Qed.

(** The pixels of [a[r : r', c : c']]. *)
Lemma getitem_pixel :
  forall (rows cols : option Z * option Z) (a : ndarray) (i j : nat),
    pixel_at (getitem rows cols a) i j
    = if ((i <? shape0 (getitem rows cols a))
          && (j <? shape1 (getitem rows cols a)))%nat
      then pixel_at a (fst (slice_bounds (shape0 a) (fst rows) (snd rows)) + i)
                      (fst (slice_bounds (shape1 a) (fst cols) (snd cols)) + j)
      else None.
Proof.
  intros rows cols a i j. unfold getitem, pixel_at.
  destruct (slice_bounds (shape0 a) (fst rows) (snd rows)) as [r0 nr].
  destruct (slice_bounds (shape1 a) (fst cols) (snd cols)) as [c0 nc].
  cbn [shape0 shape1 data fst]. apply slice_pixel.
Qed.

Lemma getitem_rectangular :
  forall (rows cols : option Z * option Z) (a : ndarray),
    rectangular a -> rectangular (getitem rows cols a).
Proof.
  intros rows cols a [Hh Hw]. unfold getitem.
  pose proof (slice_bounds_fit (shape0 a) (fst rows) (snd rows)) as Hr.
  pose proof (slice_bounds_fit (shape1 a) (fst cols) (snd cols)) as Hc.
  destruct (slice_bounds (shape0 a) (fst rows) (snd rows)) as [r0 nr].
  destruct (slice_bounds (shape1 a) (fst cols) (snd cols)) as [c0 nc].
  cbn [fst snd] in Hr, Hc. unfold rectangular, slice. cbn [shape0 shape1 data row0 col0 nrows ncols].
  split.
  - rewrite length_map, length_firstn, length_skipn. lia.
  - apply Forall_map. apply Forall_forall. intros row Hin.
    assert (Hall : Forall (fun row => List.length row = shape1 a)
                          (firstn nr (skipn r0 (data a)))).
    { apply Forall_firstn_skipn, Hw. }
    pose proof (proj1 (Forall_forall _ _) Hall row Hin) as Hrow.
    cbv beta in Hrow. unfold window. rewrite length_firstn, length_skipn. lia.
Qed.

(* ================================================================== *)
(** * [crop_square] *)

Lemma slice_bounds_all : forall n : nat, slice_bounds n None None = (0%nat, n).
Proof.
  intros n. unfold slice_bounds. f_equal. lia.
Qed.

(** The columns [edge : -edge] of an axis of [w] entries: none when [edge]
    is 0, since [-0] is 0. *)
Lemma slice_bounds_margins :
  forall (w : nat) (edge : Z),
    0 <= edge -> 2 * edge <= Z.of_nat w ->
    slice_bounds w (Some edge) (Some (- edge))
    = (Z.to_nat edge, if edge =? 0 then 0%nat else Z.to_nat (Z.of_nat w - 2 * edge)).
Proof.
  intros w edge H0 H2. unfold slice_bounds, clip.
  destruct (Z.ltb_spec edge 0) as [Hneg | _]; [ lia | ].
  destruct (Z.eqb_spec edge 0) as [-> | Hne].
  - change (- 0) with 0. rewrite Z.ltb_irrefl. f_equal; lia.
  - destruct (Z.ltb_spec (- edge) 0) as [_ | Hpos]; [ | lia ].
    f_equal; lia.
Qed.

Lemma crop_square_run :
  forall a : ndarray,
    (shape0 a < shape1 a)%nat ->
    crop_square a =
    let edge := (Z.of_nat (shape1 a) - Z.of_nat (shape0 a)) / 2 in
    let n := if edge =? 0 then 0%nat
             else Z.to_nat (Z.of_nat (shape1 a) - 2 * edge) in
    if (shape0 a =? n)%nat
    then Passes {| shape0 := shape0 a; shape1 := n;
                   data := slice {| row0 := 0; col0 := Z.to_nat edge;
                                    nrows := shape0 a; ncols := n |} (data a) |}
    else AssertionError.
Proof.
  intros a Hlt. unfold crop_square.
  destruct (Z.gtb_spec (Z.of_nat (shape1 a)) (Z.of_nat (shape0 a))) as [_ | H];
    [ | lia ].
  cbv zeta. unfold getitem. cbn [fst snd].
  rewrite slice_bounds_all, slice_bounds_margins.
  - reflexivity.
  - apply Z.div_pos; lia.
  - pose proof (Z.mul_div_le (Z.of_nat (shape1 a) - Z.of_nat (shape0 a)) 2). lia.
Qed.

(** X1.  On a frame that is wider than high by an even, positive number
    [2 e] of columns, [crop_square] passes both assertions and returns the
    square in the middle: the shape is [(h, h)], [e] columns are dropped on
    each side, and pixel [(i, j)] of the result is pixel [(i, e + j)] of the
    frame. *)
Theorem crop_square_keeps_centre_columns :
  forall (a : ndarray) (e : nat),
    rectangular a ->
    (0 < e)%nat ->
    shape1 a = (shape0 a + 2 * e)%nat ->
    exists b : ndarray,
      crop_square a = Passes b /\
      rectangular b /\
      shape0 b = shape0 a /\ shape1 b = shape0 a /\
      forall i j : nat,
        (j < shape0 a)%nat -> pixel_at b i j = pixel_at a i (e + j).
Proof.
  intros a e Hrect He Hw.
  assert (Hedge : (Z.of_nat (shape1 a) - Z.of_nat (shape0 a)) / 2 = Z.of_nat e).
  { rewrite Hw. replace (Z.of_nat (shape0 a + 2 * e) - Z.of_nat (shape0 a))
      with (Z.of_nat e * 2) by lia. apply Z.div_mul. lia. }
  assert (Hcrop : crop_square a
                  = Passes (getitem (None, None)
                                    (Some (Z.of_nat e), Some (- Z.of_nat e)) a)).
  { unfold crop_square.
    destruct (Z.gtb_spec (Z.of_nat (shape1 a)) (Z.of_nat (shape0 a))) as [_ | H];
      [ | lia ].
    cbv zeta. rewrite Hedge. unfold getitem. cbn [fst snd].
    rewrite slice_bounds_all, slice_bounds_margins by lia.
    destruct (Z.eqb_spec (Z.of_nat e) 0) as [H0 | _]; [ lia | ].
    cbn [shape0 shape1].
    replace (Z.to_nat (Z.of_nat (shape1 a) - 2 * Z.of_nat e)) with (shape0 a)
      by lia.
    rewrite Nat.eqb_refl. reflexivity. }
  assert (Hs0 : shape0 (getitem (None, None)
                                (Some (Z.of_nat e), Some (- Z.of_nat e)) a)
                = shape0 a).
  { unfold getitem. cbn [fst snd].
    rewrite slice_bounds_all, slice_bounds_margins by lia. reflexivity. }
  assert (Hs1 : shape1 (getitem (None, None)
                                (Some (Z.of_nat e), Some (- Z.of_nat e)) a)
                = shape0 a).
  { unfold getitem. cbn [fst snd].
    rewrite slice_bounds_all, slice_bounds_margins by lia.
    destruct (Z.eqb_spec (Z.of_nat e) 0) as [H0 | _]; [ lia | ].
    cbn [shape1]. lia. }
  eexists. split; [ exact Hcrop | ].
  split; [ apply getitem_rectangular, Hrect | ].
  split; [ exact Hs0 | ]. split; [ exact Hs1 | ].
  intros i j Hj. rewrite getitem_pixel, Hs0, Hs1. cbn [fst snd].
  rewrite slice_bounds_all, slice_bounds_margins by lia. cbn [fst].
  replace (Z.to_nat (Z.of_nat e)) with e by lia.
  destruct (Nat.ltb_spec i (shape0 a)) as [Hi | Hi];
    destruct (Nat.ltb_spec j (shape0 a)) as [_ | Hj']; try lia; cbn [andb].
  - reflexivity.
  - unfold pixel_at. destruct Hrect as [Hlen _].
    replace (nth_error (data a) i) with (@None (list pixel)); [ reflexivity | ].
    symmetry. apply nth_error_None. lia.
Qed.

Lemma crop_square_keeps_centre_columns_witness :
  exists b : ndarray,
    crop_square (numbered 2 6) = Passes b /\
    data b = [ [px 2; px 3]; [px 8; px 9] ].
Proof.
  destruct (crop_square_keeps_centre_columns (numbered 2 6) 2)
    as (b & Hb & _).
  - apply rectangular_numbered.
  - lia.
  - reflexivity.
  - exists b. split; [ exact Hb | ].
    vm_compute in Hb. injection Hb as <-. reflexivity.
Defined.

(** X2.  [crop_square] returns exactly when the width exceeds the height
    by an even number, or on the empty frame of shape [(0, 1)].  In every
    other case one of its two assertions fails: on a frame that is not wider
    than high, and on one whose surplus of columns is odd, where the slice
    [edge:-edge] leaves [h + 1] columns, or none when [edge] is 0. *)
Theorem crop_square_passes_iff :
  forall a : ndarray,
    (exists b : ndarray, crop_square a = Passes b) <->
    ((shape0 a < shape1 a)%nat /\ Nat.even (shape1 a - shape0 a) = true) \/
    (shape0 a = 0%nat /\ shape1 a = 1%nat).
Proof.
  intros a. split.
  - intros [b Hb].
    destruct (Nat.ltb_spec (shape0 a) (shape1 a)) as [Hlt | Hge].
    + rewrite (crop_square_run a Hlt) in Hb. cbv zeta in Hb.
      destruct (Nat.eqb_spec (shape0 a)
                  (if (Z.of_nat (shape1 a) - Z.of_nat (shape0 a)) / 2 =? 0
                   then 0%nat
                   else Z.to_nat (Z.of_nat (shape1 a)
                                  - 2 * ((Z.of_nat (shape1 a)
                                          - Z.of_nat (shape0 a)) / 2))))
        as [Heq | Hne]; [ | discriminate ].
      destruct (Z.eqb_spec ((Z.of_nat (shape1 a) - Z.of_nat (shape0 a)) / 2) 0)
        as [Hz | Hnz].
      * right. split; [ exact Heq | ].
        assert (Z.of_nat (shape1 a) - Z.of_nat (shape0 a) < 2).
        { apply Z.div_small_iff in Hz; lia. }
        lia.
      * left. split; [ exact Hlt | ].
        apply Nat.even_spec.
        exists (Z.to_nat ((Z.of_nat (shape1 a) - Z.of_nat (shape0 a)) / 2)).
        pose proof (Z.mul_div_le (Z.of_nat (shape1 a) - Z.of_nat (shape0 a)) 2).
        lia.
    + exfalso. unfold crop_square in Hb.
      destruct (Z.gtb_spec (Z.of_nat (shape1 a)) (Z.of_nat (shape0 a)));
        [ lia | discriminate ].
  - intros [[Hlt Hev] | [H0 H1]].
    + rewrite (crop_square_run a Hlt). cbv zeta.
      apply Nat.even_spec in Hev. destruct Hev as [k Hk].
      assert (Hedge : (Z.of_nat (shape1 a) - Z.of_nat (shape0 a)) / 2
                      = Z.of_nat k).
      { replace (Z.of_nat (shape1 a) - Z.of_nat (shape0 a))
          with (Z.of_nat k * 2) by lia. apply Z.div_mul. lia. }
      rewrite Hedge.
      destruct (Z.eqb_spec (Z.of_nat k) 0) as [Hz | _]; [ lia | ].
      replace (Z.to_nat (Z.of_nat (shape1 a) - 2 * Z.of_nat k))
        with (shape0 a) by lia.
      rewrite Nat.eqb_refl. eexists. reflexivity.
    + rewrite (crop_square_run a) by lia. rewrite H0, H1. cbn.
      eexists. reflexivity.
Qed.

Local Open Scope Q_scope.

(* ================================================================== *)
(** * Floats: how far rounding moves a value *)

(** Rounding moves a value by half a unit of its last place at most. *)
Lemma rounded_near :
  forall x N b,
    (0 <= N < 2 ^ 53)%Z -> (-1074 <= b)%Z ->
    ~ x == 0 ->
    Qabs x <= inject_Z N * pow2 b ->
    Qabs (inject_Z (round_half_even (x / pow2 (ulp_exp x))) * pow2 (ulp_exp x) - x)
    <= pow2 (b - 1).
Proof.
  intros x N b HN Hb Hx0 Hx.
  assert (He : (ulp_exp x <= b)%Z).
  { apply ulp_exp_le; try assumption.
    eapply Qle_lt_trans; [ exact Hx | now apply pow2_53_bound ]. }
  set (e := ulp_exp x) in *.
  pose proof (pow2_pos e) as Hpe.
  pose proof (round_half_even_near (x / pow2 e)) as Hn.
  set (m := round_half_even (x / pow2 e)) in *.
  assert (E : inject_Z m * pow2 e - x == (inject_Z m - x / pow2 e) * pow2 e).
  { field. intros H. rewrite H in Hpe. exact (Qlt_irrefl _ Hpe). }
  rewrite E, Qabs_Qmult, (Qabs_pos (pow2 e)) by (apply Qlt_le_weak, Hpe).
  apply Qle_trans with ((1 # 2) * pow2 e).
  - apply Qmult_le_compat_r; [ exact Hn | apply Qlt_le_weak, Hpe ].
  - assert (Hhalf : (1 # 2) == pow2 (-1)) by reflexivity.
    rewrite Hhalf, <- pow2_add. apply pow2_le. lia.
Qed.

Lemma round64_near :
  forall x N b,
    (0 <= N < 2 ^ 53)%Z -> (-1074 <= b <= 971)%Z ->
    Qabs x <= inject_Z N * pow2 b ->
    exists q, round64 x = Fin q /\
              Qabs (q - x) <= pow2 (b - 1) /\
              Qabs q <= inject_Z N * pow2 b /\
              (0 <= x -> 0 <= q).
Proof.
  intros x N b HN Hb Hx.
  destruct (round64_bounded x N b HN Hb Hx) as (q & Hq & Hqb & Hq0).
  exists q. split; [ exact Hq | ]. split; [ | split; assumption ].
  unfold round64 in Hq.
  assert (nonzero :
    ~ x == 0 ->
    (let e := ulp_exp x in
     let y := inject_Z (round_half_even (x / pow2 e)) * pow2 e in
     if Qle_bool (pow2 1024) (Qabs y) then Inf (Qle_bool x 0)
     else Fin (Qred y)) = Fin q ->
    Qabs (q - x) <= pow2 (b - 1)).
  { intros Hx0 H. cbv zeta in H.
    destruct (Qle_bool (pow2 1024) _); [ discriminate | ].
    set (y := inject_Z (round_half_even (x / pow2 (ulp_exp x)))
              * pow2 (ulp_exp x)) in *.
    assert (Eq : Qred y = q) by congruence.
    assert (Ey : q - x == y - x)
      by (rewrite <- Eq, Qred_correct; reflexivity).
    rewrite (Qabs_wd _ _ Ey).
    apply (rounded_near x N b HN); [ lia | exact Hx0 | exact Hx ]. }
  destruct (Qcompare_spec x 0) as [E | L | G].
  - assert (Eq : q = 0) by congruence. subst q.
    assert (E0 : 0 - x == 0) by (rewrite E; reflexivity).
    rewrite (Qabs_wd _ _ E0). apply Qlt_le_weak, pow2_pos.
  - apply nonzero; [ | exact Hq ]. intros E. rewrite E in L. exact (Qlt_irrefl _ L).
  - apply nonzero; [ | exact Hq ]. intros E. rewrite E in G. exact (Qlt_irrefl _ G).
Qed.

(** A value strictly nearer to an integer than to its neighbours rounds to
    it. *)
Lemma round_half_even_unique :
  forall x N,
    inject_Z N - (1 # 2) < x -> x < inject_Z N + (1 # 2) ->
    round_half_even x = N.
Proof.
  intros x N Hlo Hhi.
  pose proof (round_half_even_near x) as Hn.
  apply Qabs_Qle_condition in Hn. destruct Hn as [Hn1 Hn2].
  remember (round_half_even x) as m eqn:Em. clear Em.
  assert (H1 : inject_Z m < inject_Z (N + 1)).
  { rewrite inject_Z_plus. change (inject_Z 1) with 1. lra. }
  assert (H2 : inject_Z (N - 1) < inject_Z m).
  { unfold Z.sub. rewrite inject_Z_plus, inject_Z_opp.
    change (inject_Z 1) with 1. lra. }
  rewrite <- Zlt_Qlt in H1, H2. lia.
Qed.

(* ================================================================== *)
(** * [zoom]: the rows [round(l / 1.3)] keeps *)

(** [10 l / 13] is never half-way between two integers: it stays 1/26 away
    from the half-way points. *)
Lemma thirteenths_off_half :
  forall l : Z,
    inject_Z ((20 * l + 13) / 26) - (12 # 26) <= (10 # 13) * inject_Z l /\
    (10 # 13) * inject_Z l <= inject_Z ((20 * l + 13) / 26) + (12 # 26).
Proof.
  intros l.
  pose proof (Z.div_mod (20 * l + 13) 26 ltac:(lia)) as Hdm.
  pose proof (Z.mod_pos_bound (20 * l + 13) 26 ltac:(lia)) as Hr.
  set (N := ((20 * l + 13) / 26)%Z) in *.
  assert (H1 : (26 * N + -12 <= 20 * l)%Z) by lia.
  assert (H2 : (20 * l <= 26 * N + 12)%Z) by lia.
  rewrite Zle_Qle in H1, H2.
  rewrite inject_Z_plus, !inject_Z_mult in H1, H2.
  change (inject_Z 26) with 26 in H1, H2.
  change (inject_Z 20) with 20 in H1, H2.
  change (inject_Z 12) with 12 in H2.
  change (inject_Z (-12)) with (-12 # 1) in H1.
  split; lra.
Qed.

Lemma zoom_l_final :
  forall l : Z,
    (0 <= l < 2 ^ 32)%Z ->
    exists l' q,
      float_of_int l = Returns l' /\
      float_truediv l' (literal (13 # 10)) = Returns (Fin q) /\
      round_half_even q = ((20 * l + 13) / 26)%Z.
Proof.
  intros l Hl.
  assert (Hbound : inject_Z (2 ^ 52) * pow2 (-20) == inject_Z (2 ^ 32))
    by reflexivity.
  assert (Hl32 : inject_Z l <= inject_Z (2 ^ 32)) by (rewrite <- Zle_Qle; lia).
  assert (Hl0 : 0 <= inject_Z l) by (rewrite <- (Zle_Qle 0); lia).
  destruct (round64_near (inject_Z l) (2 ^ 52) (-20))
    as (q0 & Hq0 & Hnear0 & Hb0 & Hpos0);
    [ lia | lia | rewrite Hbound, Qabs_pos; assumption | ].
  specialize (Hpos0 Hl0).
  assert (H13 : literal (13 # 10)
                = Fin (5854679515581645 # 4503599627370496))
    by (vm_compute; reflexivity).
  set (x1 := q0 * (4503599627370496 # 5854679515581645)).
  assert (Hdiv : q0 / (5854679515581645 # 4503599627370496) == x1)
    by (unfold x1; field).
  rewrite Hbound in Hb0. rewrite Qabs_pos in Hb0 by exact Hpos0.
  change (inject_Z (2 ^ 32)) with 4294967296 in Hb0, Hl32.
  change (pow2 (-20 - 1)) with (1 # 2097152) in Hnear0.
  apply Qabs_Qle_condition in Hnear0. destruct Hnear0 as [Hn0a Hn0b].
  destruct (round64_near (q0 / (5854679515581645 # 4503599627370496))
                         (2 ^ 52) (-20))
    as (q1 & Hq1 & Hnear1 & _ & _); [ lia | lia | | ].
  { rewrite Hbound. change (inject_Z (2 ^ 32)) with 4294967296.
    rewrite Hdiv. rewrite Qabs_pos; unfold x1; lra. }
  change (pow2 (-20 - 1)) with (1 # 2097152) in Hnear1.
  assert (Hnear1' : Qabs (q1 - x1) <= 1 # 2097152).
  { assert (E : q1 - x1 == q1 - q0 / (5854679515581645 # 4503599627370496))
      by (rewrite Hdiv; reflexivity).
    rewrite (Qabs_wd _ _ E). exact Hnear1. }
  apply Qabs_Qle_condition in Hnear1'. destruct Hnear1' as [Hn1a Hn1b].
  exists (Fin q0), q1. split; [ | split ].
  - unfold float_of_int. rewrite Hq0. reflexivity.
  - rewrite H13. cbn [float_truediv].
    change (is_zero (5854679515581645 # 4503599627370496)) with false.
    cbv iota. rewrite Hq1. reflexivity.
  - destruct (thirteenths_off_half l) as [Ha Hb].
    apply round_half_even_unique; unfold x1 in *; lra.
Qed.

Local Close Scope Q_scope.

Lemma rows_kept_le : forall l : nat, (rows_kept l <= l)%nat.
Proof.
  intros l. unfold rows_kept.
  assert ((20 * Z.of_nat l + 13) / 26 < Z.of_nat l + 1).
  { apply Z.div_lt_upper_bound; lia. }
  lia.
Qed.

Lemma slice_bounds_from :
  forall (n : nat) (t : Z),
    0 <= t <= Z.of_nat n ->
    slice_bounds n (Some t) None = (Z.to_nat t, (n - Z.to_nat t)%nat).
Proof.
  intros n t Ht. unfold slice_bounds, clip.
  destruct (Z.ltb_spec t 0); [ lia | ]. f_equal; lia.
Qed.

Lemma slice_bounds_margins_any :
  forall (w : nat) (edge : Z),
    0 <= edge ->
    slice_bounds w (Some edge) (Some (- edge))
    = (Z.to_nat (Z.min edge (Z.of_nat w)),
       if edge =? 0 then 0%nat else Z.to_nat (Z.of_nat w - 2 * edge)).
Proof.
  intros w edge H0. unfold slice_bounds, clip.
  destruct (Z.ltb_spec edge 0) as [Hneg | _]; [ lia | ].
  destruct (Z.eqb_spec edge 0) as [-> | Hne].
  - change (- 0) with 0. rewrite Z.ltb_irrefl. f_equal; lia.
  - destruct (Z.ltb_spec (- edge) 0) as [_ | Hpos]; [ | lia ].
    f_equal; lia.
Qed.

Lemma zoom_run :
  forall a : ndarray,
    Z.of_nat (shape0 a) < 2 ^ 32 ->
    zoom a =
    Returns (getitem (Some (Z.of_nat (shape0 a - rows_kept (shape0 a))), None)
                     (Some (Z.of_nat (shape0 a - rows_kept (shape0 a)) / 2),
                      Some (- (Z.of_nat (shape0 a - rows_kept (shape0 a)) / 2)))
                     a).
Proof.
  intros a Hl.
  destruct (zoom_l_final (Z.of_nat (shape0 a)) ltac:(lia))
    as (l' & q & Hl' & Hq & Hround).
  unfold zoom. cbv zeta. rewrite Hl'. cbn [obind]. rewrite Hq. cbn [obind].
  unfold round_float. rewrite Hround. cbn [obind].
  pose proof (rows_kept_le (shape0 a)) as Hle. unfold rows_kept in *.
  assert (H0 : 0 <= (20 * Z.of_nat (shape0 a) + 13) / 26)
    by (apply Z.div_pos; lia).
  replace (Z.of_nat (shape0 a) - (20 * Z.of_nat (shape0 a) + 13) / 26)
    with (Z.of_nat (shape0 a - Z.to_nat ((20 * Z.of_nat (shape0 a) + 13) / 26)))
    by lia.
  reflexivity.
Qed.

(** X3.  For a frame of [l < 2^32] rows [zoom] returns.  It keeps
    [round(l / 1.3)] rows, which is [(20 l + 13) / 26] in integer
    arithmetic, all of them at the bottom; of the columns it drops
    [to_remove // 2] on each side, and all of them when [to_remove < 2].
    Pixel [(i, j)] of the result is pixel
    [(to_remove + i, to_remove // 2 + j)] of the frame. *)
Theorem zoom_keeps_bottom_rows_and_centre :
  forall a : ndarray,
    rectangular a ->
    Z.of_nat (shape0 a) < 2 ^ 32 ->
    exists b : ndarray,
      zoom a = Returns b /\
      rectangular b /\
      shape0 b = rows_kept (shape0 a) /\
      shape1 b = (if (shape0 a - rows_kept (shape0 a) <? 2)%nat then 0%nat
                  else shape1 a - 2 * ((shape0 a - rows_kept (shape0 a)) / 2))%nat /\
      forall i j : nat,
        (j < shape1 b)%nat ->
        pixel_at b i j
        = pixel_at a (shape0 a - rows_kept (shape0 a) + i)
                     ((shape0 a - rows_kept (shape0 a)) / 2 + j).
Proof.
  intros a Hrect Hl.
  pose proof (rows_kept_le (shape0 a)) as Hle.
  set (t := (shape0 a - rows_kept (shape0 a))%nat) in *.
  assert (Hhalf : Z.of_nat t / 2 = Z.of_nat (t / 2)).
  { rewrite Nat2Z.inj_div. reflexivity. }
  assert (Hrows : slice_bounds (shape0 a) (Some (Z.of_nat t)) None
                  = (t, rows_kept (shape0 a))).
  { rewrite slice_bounds_from by lia. f_equal; lia. }
  assert (Hcols : slice_bounds (shape1 a) (Some (Z.of_nat t / 2))
                               (Some (- (Z.of_nat t / 2)))
                  = (Nat.min (t / 2) (shape1 a),
                     if (t <? 2)%nat then 0%nat
                     else (shape1 a - 2 * (t / 2))%nat)).
  { rewrite slice_bounds_margins_any by (rewrite Hhalf; lia).
    rewrite Hhalf. f_equal; [ lia | ].
    destruct (Nat.ltb_spec t 2) as [Hlt | Hge].
    - rewrite Nat.div_small by exact Hlt. reflexivity.
    - destruct (Z.eqb_spec (Z.of_nat (t / 2)) 0) as [Hz | _]; [ | lia ].
      exfalso. assert (t / 2 = 0)%nat by lia.
      apply Nat.div_small_iff in H; lia. }
  exists (getitem (Some (Z.of_nat t), None)
                  (Some (Z.of_nat t / 2), Some (- (Z.of_nat t / 2))) a).
  split; [ apply zoom_run, Hl | ].
  split; [ apply getitem_rectangular, Hrect | ].
  assert (Hs0 : shape0 (getitem (Some (Z.of_nat t), None)
                         (Some (Z.of_nat t / 2), Some (- (Z.of_nat t / 2))) a)
                = rows_kept (shape0 a)).
  { unfold getitem. cbn [fst snd]. rewrite Hrows, Hcols. reflexivity. }
  assert (Hs1 : shape1 (getitem (Some (Z.of_nat t), None)
                         (Some (Z.of_nat t / 2), Some (- (Z.of_nat t / 2))) a)
                = if (t <? 2)%nat then 0%nat
                  else (shape1 a - 2 * (t / 2))%nat).
  { unfold getitem. cbn [fst snd]. rewrite Hrows, Hcols. reflexivity. }
  split; [ exact Hs0 | ]. split; [ exact Hs1 | ].
  intros i j Hj. rewrite getitem_pixel, Hs0. cbn [fst snd].
  rewrite Hrows, Hcols. cbn [fst].
  apply Nat.ltb_lt in Hj. rewrite Hj, andb_true_r. apply Nat.ltb_lt in Hj.
  rewrite Hs1 in Hj.
  assert (Hmin : Nat.min (t / 2) (shape1 a) = (t / 2)%nat).
  { destruct (t <? 2)%nat; lia. }
  rewrite Hmin.
  destruct (Nat.ltb_spec i (rows_kept (shape0 a))) as [Hi | Hi];
    [ reflexivity | ].
  unfold pixel_at. destruct Hrect as [Hlen _].
  replace (nth_error (data a) (t + i)) with (@None (list pixel));
    [ reflexivity | ].
  symmetry. apply nth_error_None. lia.
Qed.

Lemma zoom_keeps_bottom_rows_and_centre_witness :
  exists b : ndarray,
    zoom (numbered 20 20) = Returns b /\
    shape0 b = 15%nat /\ shape1 b = 16%nat /\
    pixel_at b 0 0 = Some (px 102).
Proof.
  destruct (zoom_keeps_bottom_rows_and_centre (numbered 20 20))
    as (b & Hb & _ & H0 & H1 & Hp).
  - apply rectangular_numbered.
  - vm_compute. reflexivity.
  - exists b. split; [ exact Hb | ]. split; [ exact H0 | ].
    split; [ exact H1 | ]. rewrite (Hp 0%nat 0%nat).
    + vm_compute. reflexivity.
    + rewrite H1. vm_compute. lia.
Defined.

(** X4.  On a frame of fewer than seven rows [to_remove // 2] is 0, and
    the column slice [0:-0] is empty: [zoom] returns an image without
    columns. *)
Theorem zoom_of_low_frame_has_no_columns :
  forall a : ndarray,
    (shape0 a < 7)%nat ->
    exists b : ndarray,
      zoom a = Returns b /\ shape1 b = 0%nat /\
      Forall (fun row => row = []) (data b).
Proof.
  intros a Hl.
  assert (Ht : (shape0 a - rows_kept (shape0 a) < 2)%nat).
  { unfold rows_kept.
    destruct (shape0 a) as [ | [ | [ | [ | [ | [ | [ | n ] ] ] ] ] ] ];
      try (vm_compute; lia). }
  set (t := (shape0 a - rows_kept (shape0 a))%nat) in *.
  assert (Hhalf : Z.of_nat t / 2 = 0) by (apply Z.div_small; lia).
  exists (getitem (Some (Z.of_nat t), None)
                  (Some (Z.of_nat t / 2), Some (- (Z.of_nat t / 2))) a).
  split; [ apply zoom_run; lia | ].
  rewrite Hhalf. change (- 0) with 0.
  unfold getitem. cbn [fst snd].
  assert (Hcols : slice_bounds (shape1 a) (Some 0) (Some 0) = (0%nat, 0%nat)).
  { unfold slice_bounds, clip. rewrite Z.ltb_irrefl. f_equal; lia. }
  rewrite Hcols.
  destruct (slice_bounds (shape0 a) (Some (Z.of_nat t)) None) as [r0 nr].
  cbn [shape1 data]. split; [ reflexivity | ].
  unfold slice. cbn [row0 col0 nrows ncols]. apply Forall_map.
  apply Forall_forall. intros row _. reflexivity.
Qed.

Lemma zoom_of_low_frame_has_no_columns_witness :
  exists b : ndarray,
    zoom (numbered 6 6) = Returns b /\ shape1 b = 0%nat /\
    Forall (fun row => row = []) (data b).
Proof.
  apply (zoom_of_low_frame_has_no_columns (numbered 6 6)).
  vm_compute. lia.
Defined.

Lemma rectangular_plain : forall h w p, rectangular (plain h w p).
Proof.
  intros h w p. unfold rectangular, plain. cbn [shape0 shape1 data].
  split; [ apply repeat_length | ].
  apply Forall_forall. intros row Hin. apply repeat_spec in Hin. subst row.
  apply repeat_length.
Qed.

(** X23.  The crop and the zoom of a 640 by 360 capture both return: the
    crop gives 360 by 360 and the zoom 277 rows of 278 columns, which is not
    a square; pixel [(i, j)] of it is pixel [(83 + i, 181 + j)] of the
    capture. *)
Theorem capture_is_cropped_then_zoomed :
  forall frame : ndarray,
    rectangular frame ->
    shape0 frame = 360%nat -> shape1 frame = 640%nat ->
    exists square zoomed : ndarray,
      crop_square frame = Passes square /\
      shape0 square = 360%nat /\ shape1 square = 360%nat /\
      zoom square = Returns zoomed /\
      rectangular zoomed /\
      shape0 zoomed = 277%nat /\ shape1 zoomed = 278%nat /\
      forall i j : nat,
        (j < 278)%nat ->
        pixel_at zoomed i j = pixel_at frame (83 + i) (181 + j).
Proof.
  intros frame Hrect H0 H1.
  set (square := getitem (None, None) (Some 140, Some (- 140)) frame).
  set (zoomed := getitem (Some 83, None) (Some 41, Some (- 41)) square).
  assert (Hrows : slice_bounds (shape0 frame) None None = (0, 360)%nat)
    by (rewrite H0; vm_compute; reflexivity).
  assert (Hcols : slice_bounds (shape1 frame) (Some 140) (Some (- 140))
                  = (140, 360)%nat)
    by (rewrite H1; vm_compute; reflexivity).
  assert (S0 : shape0 square = 360%nat).
  { unfold square, getitem. cbn [fst snd]. rewrite Hrows, Hcols. reflexivity. }
  assert (S1 : shape1 square = 360%nat).
  { unfold square, getitem. cbn [fst snd]. rewrite Hrows, Hcols. reflexivity. }
  assert (Hrows' : slice_bounds (shape0 square) (Some 83) None
                   = (83, 277)%nat)
    by (rewrite S0; vm_compute; reflexivity).
  assert (Hcols' : slice_bounds (shape1 square) (Some 41) (Some (- 41))
                   = (41, 278)%nat)
    by (rewrite S1; vm_compute; reflexivity).
  assert (Z0 : shape0 zoomed = 277%nat).
  { unfold zoomed, getitem. cbn [fst snd]. rewrite Hrows', Hcols'.
    reflexivity. }
  assert (Z1 : shape1 zoomed = 278%nat).
  { unfold zoomed, getitem. cbn [fst snd]. rewrite Hrows', Hcols'.
    reflexivity. }
  exists square, zoomed.
  split.
  { unfold crop_square. rewrite H0, H1.
    change (Z.of_nat 640 >? Z.of_nat 360) with true. cbv zeta.
    change ((Z.of_nat 640 - Z.of_nat 360) / 2) with 140.
    change (getitem (None, None) (Some 140, Some (Z.opp 140)) frame)
      with square.
    rewrite S0, S1. reflexivity. }
  split; [ exact S0 | ]. split; [ exact S1 | ].
  split.
  { rewrite zoom_run by (rewrite S0; reflexivity). rewrite S0.
    change (Z.of_nat (360 - rows_kept 360)) with 83.
    change (83 / 2) with 41.
    change (Z.opp 41) with (- 41). reflexivity. }
  split; [ apply getitem_rectangular, getitem_rectangular, Hrect | ].
  split; [ exact Z0 | ]. split; [ exact Z1 | ].
  intros i j Hj. unfold zoomed at 1.
  rewrite getitem_pixel. fold zoomed. rewrite Z0, Z1. cbn [fst snd].
  rewrite Hrows', Hcols'. cbn [fst].
  apply Nat.ltb_lt in Hj. rewrite Hj, andb_true_r. apply Nat.ltb_lt in Hj.
  destruct (Nat.ltb_spec i 277) as [Hi | Hi].
  - unfold square at 1. rewrite getitem_pixel. fold square.
    rewrite S0, S1. cbn [fst snd]. rewrite Hrows, Hcols. cbn [fst].
    destruct (Nat.ltb_spec (83 + i) 360) as [_ | H]; [ | lia ].
    destruct (Nat.ltb_spec (41 + j) 360) as [_ | H]; [ | lia ].
    cbn [andb]. reflexivity.
  - unfold pixel_at. destruct Hrect as [Hlen _].
    replace (nth_error (data frame) (83 + i)) with (@None (list pixel));
      [ reflexivity | ].
    symmetry. apply nth_error_None. lia.
Qed.

Lemma capture_is_cropped_then_zoomed_witness :
  exists square zoomed : ndarray,
    crop_square (plain 360 640 (1, 2, 3)) = Passes square /\
    shape0 square = 360%nat /\ shape1 square = 360%nat /\
    zoom square = Returns zoomed /\
    rectangular zoomed /\
    shape0 zoomed = 277%nat /\ shape1 zoomed = 278%nat /\
    forall i j : nat,
      (j < 278)%nat ->
      pixel_at zoomed i j = pixel_at (plain 360 640 (1, 2, 3)) (83 + i) (181 + j).
Proof.
  apply (capture_is_cropped_then_zoomed (plain 360 640 (1, 2, 3))).
  - apply rectangular_plain.
  - reflexivity.
  - reflexivity.
Defined.

(* ================================================================== *)
(** * Writing a region *)

(** A list with the [n] entries from [r] on replaced. *)
Lemma nth_error_patch :
  forall {A} (l mid : list A) (r n i : nat),
    (r + n <= List.length l)%nat -> List.length mid = n ->
    nth_error (firstn r l ++ mid ++ skipn (r + n) l) i
    = if ((r <=? i) && (i <? r + n))%nat then nth_error mid (i - r)
      else nth_error l i.
Proof.
  intros A l mid r n i Hfit Hmid.
  assert (Hf : List.length (firstn r l) = r) by (rewrite length_firstn; lia).
  destruct (Nat.leb_spec r i) as [Hri | Hri]; cbn [andb].
  - rewrite nth_error_app2 by lia. rewrite Hf.
    destruct (Nat.ltb_spec i (r + n)) as [Hin | Hin].
    + apply nth_error_app1. lia.
    + rewrite nth_error_app2 by lia. rewrite nth_error_skipn, Hmid.
      f_equal. lia.
  - rewrite nth_error_app1 by lia. rewrite nth_error_firstn.
    destruct (Nat.ltb_spec i r); [ reflexivity | lia ].
Qed.

Lemma rectangular_row :
  forall (a : ndarray) (i : nat) (row : list pixel),
    rectangular a -> nth_error (data a) i = Some row ->
    List.length row = shape1 a.
Proof.
  intros a i row [_ Hw] Hrow.
  apply (proj1 (Forall_forall _ _) Hw). eapply nth_error_In, Hrow.
Qed.

Lemma pixel_at_in_bounds :
  forall (a : ndarray) (i j : nat) (p : pixel),
    rectangular a -> pixel_at a i j = Some p ->
    (i < shape0 a)%nat /\ (j < shape1 a)%nat.
Proof.
  intros a i j p Hrect Hp. unfold pixel_at in Hp.
  destruct (nth_error (data a) i) as [row | ] eqn:Hrow; [ | discriminate ].
  pose proof (rectangular_row a i row Hrect Hrow) as Hlen.
  destruct Hrect as [Hh _]. split.
  - rewrite <- Hh. apply nth_error_Some. congruence.
  - rewrite <- Hlen. apply nth_error_Some. congruence.
Qed.

Lemma setitem_rectangular :
  forall (rows cols : option Z * option Z) (v : pixel) (a : ndarray),
    rectangular a ->
    rectangular (setitem rows cols v a) /\
    shape0 (setitem rows cols v a) = shape0 a /\
    shape1 (setitem rows cols v a) = shape1 a.
Proof.
  intros rows cols v a Hrect. pose proof Hrect as [Hh Hw]. unfold setitem.
  pose proof (slice_bounds_fit (shape0 a) (fst rows) (snd rows)) as Hr.
  pose proof (slice_bounds_fit (shape1 a) (fst cols) (snd cols)) as Hc.
  destruct (slice_bounds (shape0 a) (fst rows) (snd rows)) as [r0 nr].
  destruct (slice_bounds (shape1 a) (fst cols) (snd cols)) as [c0 nc].
  cbn [fst snd] in Hr, Hc. cbn [shape0 shape1].
  split; [ | split; reflexivity ].
  unfold rectangular. cbn [shape0 shape1 data]. split.
  - rewrite !length_app, length_map, !length_firstn, !length_skipn. lia.
  - rewrite <- (firstn_skipn r0 (data a)) in Hw. apply Forall_app in Hw.
    destruct Hw as [Hpre Hrest].
    rewrite <- (firstn_skipn nr (skipn r0 (data a))) in Hrest.
    apply Forall_app in Hrest. destruct Hrest as [Hmid Hpost].
    rewrite skipn_skipn in Hpost. rewrite (Nat.add_comm nr r0) in Hpost.
    apply Forall_app. split; [ exact Hpre | ].
    apply Forall_app. split; [ | exact Hpost ].
    apply Forall_map. eapply Forall_impl; [ | exact Hmid ].
    intros row Hrow. cbv beta in *.
    rewrite !length_app, length_firstn, repeat_length, length_skipn. lia.
Qed.

(** The pixels after [a[r : r', c : c'] = v]. *)
Lemma setitem_pixel :
  forall (rows cols : option Z * option Z) (v : pixel) (a : ndarray)
         (i j : nat) (p : pixel),
    rectangular a -> pixel_at a i j = Some p ->
    pixel_at (setitem rows cols v a) i j
    = Some (if ((fst (slice_bounds (shape0 a) (fst rows) (snd rows)) <=? i)
                && (i <? fst (slice_bounds (shape0 a) (fst rows) (snd rows))
                         + snd (slice_bounds (shape0 a) (fst rows) (snd rows)))
                && (fst (slice_bounds (shape1 a) (fst cols) (snd cols)) <=? j)
                && (j <? fst (slice_bounds (shape1 a) (fst cols) (snd cols))
                         + snd (slice_bounds (shape1 a) (fst cols) (snd cols))))%nat
            then v else p).
Proof.
  intros rows cols v a i j p Hrect Hp.
  destruct (pixel_at_in_bounds a i j p Hrect Hp) as [Hi Hj].
  unfold setitem.
  pose proof (slice_bounds_fit (shape0 a) (fst rows) (snd rows)) as Hr.
  pose proof (slice_bounds_fit (shape1 a) (fst cols) (snd cols)) as Hc.
  destruct (slice_bounds (shape0 a) (fst rows) (snd rows)) as [r0 nr].
  destruct (slice_bounds (shape1 a) (fst cols) (snd cols)) as [c0 nc].
  cbn [fst snd] in *. unfold pixel_at in *. cbn [data].
  destruct (nth_error (data a) i) as [row | ] eqn:Hrow; [ | discriminate ].
  pose proof (rectangular_row a i row Hrect Hrow) as Hlen.
  destruct Hrect as [Hh _].
  rewrite nth_error_patch;
    [ | lia | rewrite length_map, length_firstn, length_skipn; lia ].
  destruct ((r0 <=? i) && (i <? r0 + nr))%nat eqn:Hin; cbn [andb].
  - apply andb_true_iff in Hin. destruct Hin as [H1 H2].
    apply Nat.leb_le in H1. apply Nat.ltb_lt in H2.
    rewrite nth_error_map, nth_error_firstn.
    destruct (Nat.ltb_spec (i - r0) nr); [ | lia ].
    rewrite nth_error_skipn. replace (r0 + (i - r0))%nat with i by lia.
    rewrite Hrow. cbn [option_map].
    rewrite nth_error_patch; [ | lia | apply repeat_length ].
    destruct ((c0 <=? j) && (j <? c0 + nc))%nat eqn:Hjn.
    + apply andb_true_iff in Hjn. destruct Hjn as [H3 H4].
      apply Nat.leb_le in H3. apply Nat.ltb_lt in H4.
      rewrite nth_error_repeat by lia. reflexivity.
    + exact Hp.
  - rewrite Hrow. exact Hp.
Qed.

(* ================================================================== *)
(** * The ring light *)

Lemma slice_bounds_first :
  forall (n : nat) (k : Z),
    0 <= k -> slice_bounds n None (Some k) = (0%nat, Nat.min (Z.to_nat k) n).
Proof.
  intros n k Hk. unfold slice_bounds, clip.
  destruct (Z.ltb_spec k 0); [ lia | ]. f_equal; lia.
Qed.

Lemma slice_bounds_last :
  forall (n : nat) (k : Z),
    0 < k ->
    slice_bounds n (Some (- k)) None
    = ((n - Z.to_nat k)%nat, Nat.min (Z.to_nat k) n).
Proof.
  intros n k Hk. unfold slice_bounds, clip.
  destruct (Z.ltb_spec (- k) 0); [ | lia ]. f_equal; lia.
Qed.

Lemma ring_light_rectangular :
  forall a : ndarray,
    rectangular a ->
    rectangular (ring_light a) /\
    shape0 (ring_light a) = shape0 a /\ shape1 (ring_light a) = shape1 a.
Proof.
  intros a H0. unfold ring_light.
  destruct (setitem_rectangular (None, Some FRAME_WIDTH) (None, None)
              RING_LIGHT_VALUE a H0) as (H1 & E1 & F1).
  destruct (setitem_rectangular (Some (- FRAME_WIDTH), None) (None, None)
              RING_LIGHT_VALUE _ H1) as (H2 & E2 & F2).
  destruct (setitem_rectangular (None, None) (None, Some FRAME_WIDTH)
              RING_LIGHT_VALUE _ H2) as (H3 & E3 & F3).
  destruct (setitem_rectangular (None, None) (Some (- FRAME_WIDTH), None)
              RING_LIGHT_VALUE _ H3) as (H4 & E4 & F4).
  cbv zeta. split; [ exact H4 | ]. split; congruence.
Qed.

(** The pixels after the ring light. *)
Lemma ring_light_pixel :
  forall (a : ndarray) (i j : nat) (p : pixel),
    rectangular a ->
    pixel_at a i j = Some p ->
    pixel_at (ring_light a) i j
    = Some (if on_border (shape0 a) (shape1 a) i j then (255, 255, 255)
            else p).
Proof.
  intros a i j p H0 Hp.
  destruct (pixel_at_in_bounds a i j p H0 Hp) as [Hi Hj].
  unfold ring_light. cbv zeta.
  destruct (setitem_rectangular (None, Some FRAME_WIDTH) (None, None)
              RING_LIGHT_VALUE a H0) as (H1 & E1 & F1).
  pose proof (setitem_pixel (None, Some FRAME_WIDTH) (None, None)
                RING_LIGHT_VALUE a i j p H0 Hp) as P1.
  set (a1 := setitem (None, Some FRAME_WIDTH) (None, None) RING_LIGHT_VALUE a)
    in *.
  destruct (setitem_rectangular (Some (- FRAME_WIDTH), None) (None, None)
              RING_LIGHT_VALUE a1 H1) as (H2 & E2 & F2).
  pose proof (setitem_pixel (Some (- FRAME_WIDTH), None) (None, None)
                RING_LIGHT_VALUE a1 i j _ H1 P1) as P2.
  set (a2 := setitem (Some (- FRAME_WIDTH), None) (None, None)
                     RING_LIGHT_VALUE a1) in *.
  destruct (setitem_rectangular (None, None) (None, Some FRAME_WIDTH)
              RING_LIGHT_VALUE a2 H2) as (H3 & E3 & F3).
  pose proof (setitem_pixel (None, None) (None, Some FRAME_WIDTH)
                RING_LIGHT_VALUE a2 i j _ H2 P2) as P3.
  set (a3 := setitem (None, None) (None, Some FRAME_WIDTH)
                     RING_LIGHT_VALUE a2) in *.
  pose proof (setitem_pixel (None, None) (Some (- FRAME_WIDTH), None)
                RING_LIGHT_VALUE a3 i j _ H3 P3) as P4.
  rewrite P4. f_equal.
  rewrite F3, F2, F1, E3, E2, E1. cbn [fst snd].
  rewrite !slice_bounds_all.
  rewrite !slice_bounds_first by (unfold FRAME_WIDTH; lia).
  rewrite !slice_bounds_last by (unfold FRAME_WIDTH; lia).
  cbn [fst snd]. unfold FRAME_WIDTH, RING_LIGHT_VALUE, on_border.
  change (Z.to_nat 3) with 3%nat.
  assert (C1 : ((0 <=? i) && (i <? 0 + Nat.min 3 (shape0 a))
                && (0 <=? j) && (j <? 0 + shape1 a))%nat = (i <? 3)%nat).
  { destruct (Nat.ltb_spec i 3), (Nat.ltb_spec i (0 + Nat.min 3 (shape0 a))),
             (Nat.ltb_spec j (0 + shape1 a)); cbn; try reflexivity; lia. }
  assert (C2 : ((shape0 a - 3 <=? i)
                && (i <? shape0 a - 3 + Nat.min 3 (shape0 a))
                && (0 <=? j) && (j <? 0 + shape1 a))%nat
               = (shape0 a - 3 <=? i)%nat).
  { destruct (Nat.leb_spec (shape0 a - 3) i),
             (Nat.ltb_spec i (shape0 a - 3 + Nat.min 3 (shape0 a))),
             (Nat.ltb_spec j (0 + shape1 a)); cbn; try reflexivity; lia. }
  assert (C3 : ((0 <=? i) && (i <? 0 + shape0 a)
                && (0 <=? j) && (j <? 0 + Nat.min 3 (shape1 a)))%nat
               = (j <? 3)%nat).
  { destruct (Nat.ltb_spec j 3), (Nat.ltb_spec j (0 + Nat.min 3 (shape1 a))),
             (Nat.ltb_spec i (0 + shape0 a)); cbn; try reflexivity; lia. }
  assert (C4 : ((0 <=? i) && (i <? 0 + shape0 a)
                && (shape1 a - 3 <=? j)
                && (j <? shape1 a - 3 + Nat.min 3 (shape1 a)))%nat
               = (shape1 a - 3 <=? j)%nat).
  { destruct (Nat.leb_spec (shape1 a - 3) j),
             (Nat.ltb_spec j (shape1 a - 3 + Nat.min 3 (shape1 a))),
             (Nat.ltb_spec i (0 + shape0 a)); cbn; try reflexivity; lia. }
  rewrite C1, C2, C3, C4.
  destruct (i <? 3)%nat, (shape0 a - 3 <=? i)%nat, (j <? 3)%nat,
           (shape1 a - 3 <=? j)%nat; reflexivity.
Qed.

(** X5.  The ring light keeps the shape of the frame, paints white the
    pixels within [FRAME_WIDTH = 3] of one of the four sides, and leaves
    every other pixel as it was. *)
Theorem ring_light_paints_only_the_border :
  forall (a : ndarray) (i j : nat) (p : pixel),
    rectangular a ->
    pixel_at a i j = Some p ->
    rectangular (ring_light a) /\
    shape0 (ring_light a) = shape0 a /\
    shape1 (ring_light a) = shape1 a /\
    pixel_at (ring_light a) i j
    = Some (if on_border (shape0 a) (shape1 a) i j then (255, 255, 255)
            else p).
Proof.
  intros a i j p H0 Hp.
  destruct (ring_light_rectangular a H0) as (HR & HS0 & HS1).
  split; [ exact HR | ]. split; [ exact HS0 | ]. split; [ exact HS1 | ].
  apply ring_light_pixel; assumption.
Qed.

Lemma ring_light_paints_only_the_border_witness :
  pixel_at (ring_light (numbered 8 8)) 3 4 = Some (px 28) /\
  pixel_at (ring_light (numbered 8 8)) 2 4 = Some (255, 255, 255).
Proof.
  assert (R : rectangular (numbered 8 8)) by apply rectangular_numbered.
  split.
  - exact (proj2 (proj2 (proj2
      (ring_light_paints_only_the_border (numbered 8 8) 3 4 (px 28) R eq_refl)))).
  - exact (proj2 (proj2 (proj2
      (ring_light_paints_only_the_border (numbered 8 8) 2 4 (px 20) R eq_refl)))).
Defined.

(* ================================================================== *)
(** * The reader: more of [read] *)

Lemma parse_values_never_blocks : forall l, parse_values l <> Blocks.
Proof.
  intros l. unfold parse_values, index, int. cbn [obind].
  destruct (nth_error (split_tab l) 0); cbn [obind]; [ | discriminate ].
  destruct (int_literal b); cbn [obind]; [ | discriminate ].
  destruct (nth_error (split_tab l) 1); cbn [obind]; [ | discriminate ].
  destruct (int_literal b0); cbn [obind]; discriminate.
Qed.

(** X6.  Whenever [read] returns, the value it returns is the value the
    reader holds in [last_values] afterwards, and the history buffer is
    untouched. *)
Theorem read_returns_what_it_holds :
  forall (k k' : KnobReader) (v : reading),
    read k = (Returns v, k') ->
    last_values k' = v /\ buffer k' = buffer k.
Proof.
  intros k k' v Hr. split.
  2: { pose proof (read_keeps_buffer k) as H. rewrite Hr in H. exact H. }
  destruct (waiting k) eqn:Hw.
  - destruct (Z.ltb_spec (in_waiting (ser k)) 12) as [Hn | Hn].
    + rewrite read_short in Hr by assumption. congruence.
    + destruct (readline (ser k)) as [[l s'] | ] eqn:Hl.
      * rewrite (read_line k l s') in Hr by assumption.
        destruct (parse_values l) as [v' | [] | ];
          try discriminate; injection Hr as <- <-; reflexivity.
      * rewrite read_blocks in Hr by assumption. discriminate.
  - rewrite read_idle in Hr by assumption. injection Hr as <- <-. reflexivity.
Qed.

Lemma read_returns_what_it_holds_witness :
  last_values (snd (read (awaiting 7 (line "      12" " 34")))) = (12, 34).
Proof.
  exact (proj1 (read_returns_what_it_holds
                  (awaiting 7 (line "      12" " 34"))
                  (snd (read (awaiting 7 (line "      12" " 34"))))
                  (12, 34) eq_refl)).
Defined.

(** X7.  [read] waits for the device exactly when a request is
    outstanding, twelve bytes or more are buffered and none of them is a
    line terminator; the reader is unchanged then.  In no other state does
    it wait. *)
Theorem read_blocks_iff :
  forall k : KnobReader,
    (fst (read k) = Blocks <->
     waiting k = true /\ 12 <= in_waiting (ser k) /\
     take_line (rx (ser k)) = None) /\
    (fst (read k) = Blocks -> snd (read k) = k).
Proof.
  intros k.
  assert (Hline : readline (ser k) = None <-> take_line (rx (ser k)) = None).
  { unfold readline. destruct (take_line (rx (ser k))) as [[l r] | ];
      split; intros H; try discriminate; reflexivity. }
  destruct (waiting k) eqn:Hw.
  - destruct (Z.ltb_spec (in_waiting (ser k)) 12) as [Hn | Hn].
    + rewrite read_short by assumption. cbn [fst snd].
      split; [ split | ]; [ discriminate | intros (_ & H & _); lia | discriminate ].
    + destruct (readline (ser k)) as [[l s'] | ] eqn:Hl.
      * rewrite (read_line k l s') by assumption.
        pose proof (parse_values_never_blocks l) as Hnb.
        assert (Hsome : take_line (rx (ser k)) <> None).
        { intros H. apply Hline in H. discriminate. }
        destruct (parse_values l) as [v' | [] | ]; cbn [fst snd];
          try congruence;
          (split; [ split | ];
           [ discriminate | intros (_ & _ & H); contradiction | discriminate ]).
      * rewrite read_blocks by assumption. cbn [fst snd].
        split; [ split | ]; [ | reflexivity | reflexivity ].
        intros _. split; [ reflexivity | ]. split; [ exact Hn | ].
        apply Hline. reflexivity.
  - rewrite read_idle by assumption. cbn [fst snd].
    split; [ split | ]; [ discriminate | intros (H & _); discriminate | discriminate ].
Qed.

Lemma take_line_app :
  forall s l r, take_line s = Some (l, r) -> s = (l ++ r)%string.
Proof.
  induction s as [ | c s IH]; intros l r H; cbn in H; [ discriminate | ].
  destruct (Ascii.eqb c NL).
  - injection H as <- <-. reflexivity.
  - destruct (take_line s) as [[l' r'] | ]; [ | discriminate ].
    injection H as <- <-. cbn. f_equal. apply IH. reflexivity.
Qed.

(** A line taken off the buffer ends with the terminator and holds no
    other. *)
Lemma take_line_ends :
  forall s l r,
    take_line s = Some (l, r) ->
    exists body : bytes,
      l = (body ++ byte_of NL)%string /\ take_line body = None.
Proof.
  induction s as [ | c s IH]; intros l r H; cbn in H; [ discriminate | ].
  destruct (Ascii.eqb c NL) eqn:Ec.
  - injection H as <- <-. exists ""%string. split; [ | reflexivity ].
    apply Ascii.eqb_eq in Ec. subst c. reflexivity.
  - destruct (take_line s) as [[l' r'] | ] eqn:Hs; [ | discriminate ].
    injection H as <- <-.
    destruct (IH l' r' eq_refl) as (body & -> & Hb).
    exists (String c body). split; [ reflexivity | ].
    cbn. rewrite Ec, Hb. reflexivity.
Qed.

(** X8.  What [read] does to the serial line.  It writes one line
    terminator when no request is outstanding, and nothing otherwise.  It
    consumes nothing, or, with a request outstanding and twelve bytes or
    more buffered, exactly the first line of the buffer: the bytes up to
    and including the first terminator. *)
Theorem read_sends_one_request_and_takes_one_line :
  forall k : KnobReader,
    tx (ser (snd (read k)))
    = (tx (ser k) ++ (if waiting k then "" else byte_of NL))%string /\
    (rx (ser (snd (read k))) = rx (ser k) \/
     waiting k = true /\ 12 <= in_waiting (ser k) /\
     exists l body : bytes,
       take_line (rx (ser k)) = Some (l, rx (ser (snd (read k)))) /\
       rx (ser k) = (l ++ rx (ser (snd (read k))))%string /\
       l = (body ++ byte_of NL)%string /\ take_line body = None).
Proof.
  intros k.
  assert (Hnil : forall s : string, (s ++ "")%string = s).
  { induction s as [ | c s IH]; cbn; [ reflexivity | now rewrite IH ]. }
  destruct (waiting k) eqn:Hw.
  - rewrite Hnil.
    destruct (Z.ltb_spec (in_waiting (ser k)) 12) as [Hn | Hn].
    + rewrite read_short by assumption. cbn [snd]. auto.
    + destruct (readline (ser k)) as [[l s'] | ] eqn:Hl.
      * rewrite (read_line k l s') by assumption.
        unfold readline in Hl.
        destruct (take_line (rx (ser k))) as [[l' r'] | ] eqn:Ht;
          [ | discriminate ].
        injection Hl as <- <-.
        assert (Hboth :
          forall k2, ser k2 = {| rx := r'; tx := tx (ser k) |} ->
            tx (ser k2) = tx (ser k) /\
            (rx (ser k2) = rx (ser k) \/
             true = true /\ 12 <= in_waiting (ser k) /\
             exists l body : bytes,
               Some (l', r') = Some (l, rx (ser k2)) /\
               rx (ser k) = (l ++ rx (ser k2))%string /\
               l = (body ++ byte_of NL)%string /\ take_line body = None)).
        { intros k2 E. rewrite E. cbn [rx tx]. split; [ reflexivity | ].
          right. split; [ reflexivity | ]. split; [ exact Hn | ].
          destruct (take_line_ends _ _ _ Ht) as (body & Hl & Hbody).
          exists l', body. split; [ reflexivity | ].
          split; [ apply take_line_app, Ht | ]. split; assumption. }
        destruct (parse_values l') as [v' | [] | ]; cbn [snd];
          apply Hboth; reflexivity.
      * rewrite read_blocks by assumption. cbn [snd]. auto.
  - rewrite read_idle by assumption. cbn [snd]. split; [ reflexivity | ].
    left. reflexivity.
Qed.

(* ================================================================== *)
(** * The moving average *)

Lemma sum_fst_bounds :
  forall (b : list reading) (lo hi : Z),
    Forall (within lo hi) b ->
    lo * Z.of_nat (List.length b) <= sum_fst b <= hi * Z.of_nat (List.length b).
Proof.
  intros b lo hi H. unfold sum_fst.
  induction H as [ | r b [Hr _] _ IH]; cbn [map fold_right List.length]; lia.
Qed.

Lemma sum_snd_bounds :
  forall (b : list reading) (lo hi : Z),
    Forall (within lo hi) b ->
    lo * Z.of_nat (List.length b) <= sum_snd b <= hi * Z.of_nat (List.length b).
Proof.
  intros b lo hi H. unfold sum_snd.
  induction H as [ | r b [_ Hr] _ IH]; cbn [map fold_right List.length]; lia.
Qed.

(** The mean of readings between two bounds lies between them. *)
Lemma mean_within :
  forall (b : list reading) (lo hi : Z),
    b <> [] -> Forall (within lo hi) b -> within lo hi (mean b).
Proof.
  intros b lo hi Hne H.
  pose proof (sum_fst_bounds b lo hi H) as Hf.
  pose proof (sum_snd_bounds b lo hi H) as Hs.
  assert (Hn : 0 < Z.of_nat (List.length b)).
  { destruct b; [ congruence | cbn [List.length]; lia ]. }
  unfold within, mean. cbn [fst snd].
  set (n := Z.of_nat (List.length b)) in *.
  repeat split.
  - apply Z.div_le_lower_bound; lia.
  - apply Z.div_le_upper_bound; lia.
  - apply Z.div_le_lower_bound; lia.
  - apply Z.div_le_upper_bound; lia.
Qed.

Lemma Forall_removelast :
  forall {A} (P : A -> Prop) (l : list A), Forall P l -> Forall P (removelast l).
Proof.
  intros A P l H. induction H as [ | x l Hx Hl IH]; [ constructor | ].
  cbn [removelast]. destruct l; [ constructor | ].
  constructor; assumption.
Qed.

(** X9.  The moving average does not leave the range of its readings:
    when the history and the new reading lie between [lo] and [hi], so does
    the mean [buffered_read] returns, and so does the history afterwards. *)
Theorem buffered_read_stays_within :
  forall (k k' : KnobReader) (v : reading) (lo hi : Z),
    buffer k <> [] ->
    Forall (within lo hi) (buffer k) ->
    read k = (Returns v, k') ->
    within lo hi v ->
    exists m : reading,
      buffered_read k = (Returns m, set_buffer (v :: removelast (buffer k)) k') /\
      within lo hi m /\
      Forall (within lo hi) (buffer (snd (buffered_read k))).
Proof.
  intros k k' v lo hi Hne Hb Hr Hv.
  pose proof (buffered_read_run k v k' Hne Hr) as Hrun.
  assert (Hnew : Forall (within lo hi) (v :: removelast (buffer k))).
  { constructor; [ exact Hv | apply Forall_removelast, Hb ]. }
  exists (mean (v :: removelast (buffer k))).
  split; [ exact Hrun | ]. split.
  - apply mean_within; [ discriminate | exact Hnew ].
  - rewrite Hrun. exact Hnew.
Qed.

Lemma buffered_read_stays_within_witness :
  exists m : reading,
    buffered_read (awaiting 100 (line "      12" " 34"))
    = (Returns m,
       set_buffer ((12, 34) :: removelast (buffer (awaiting 100 (line "      12" " 34"))))
                  (snd (read (awaiting 100 (line "      12" " 34"))))) /\
    within 12 100 m.
Proof.
  destruct (buffered_read_stays_within
              (awaiting 100 (line "      12" " 34"))
              (snd (read (awaiting 100 (line "      12" " 34"))))
              (12, 34) 12 100) as (m & Hm & Hw & _).
  - discriminate.
  - vm_compute. repeat constructor; discriminate.
  - reflexivity.
  - vm_compute. repeat constructor; discriminate.
  - exists m. split; assumption.
Defined.

(** The buffer of every reachable reader has ten entries. *)
Lemma reachable_buffer_length :
  forall (iv : Z) (k : KnobReader),
    reachable iv k -> List.length (buffer k) = 10%nat.
Proof.
  intros iv k H. induction H as [s | k b _ IH | k _ IH | k _ IH].
  - reflexivity.
  - exact IH.
  - rewrite read_keeps_buffer. exact IH.
  - destruct (read k) as [[v | e | ] k'] eqn:Hr.
    + rewrite (buffered_read_run k v k'); [ | | exact Hr ].
      * cbn [snd set_buffer buffer List.length]. rewrite removelast_length, IH.
        reflexivity.
      * intros E. rewrite E in IH. discriminate.
    + rewrite (buffered_read_propagates k e k' Hr). cbn [snd].
      pose proof (read_keeps_buffer k) as Hk. rewrite Hr in Hk. cbn [snd] in Hk.
      rewrite Hk. exact IH.
    + unfold buffered_read, bind. rewrite Hr. cbn [snd].
      pose proof (read_keeps_buffer k) as Hk. rewrite Hr in Hk. cbn [snd] in Hk.
      rewrite Hk. exact IH.
Qed.

(** X10.  From [__init__] on, whatever the device delivers and however
    [read] and [buffered_read] are called, the history has ten entries.  So
    [buffered_read] returns the mean whenever [read] returns, and it raises
    or waits only when [read] does. *)
Theorem buffered_read_fails_only_with_read :
  forall (initial_value : Z) (k : KnobReader),
    reachable initial_value k ->
    List.length (buffer k) = 10%nat /\
    List.length (buffer (snd (buffered_read k))) = 10%nat /\
    (forall v : reading,
        fst (read k) = Returns v ->
        fst (buffered_read k) = Returns (mean (v :: removelast (buffer k)))) /\
    (forall e : exn,
        fst (buffered_read k) = Raises e -> fst (read k) = Raises e) /\
    (fst (buffered_read k) = Blocks -> fst (read k) = Blocks).
Proof.
  intros iv k H.
  pose proof (reachable_buffer_length iv k H) as Hlen.
  pose proof (reachable_buffer_length iv _ (reach_buffered_read iv k H)) as Hlen'.
  split; [ exact Hlen | ]. split; [ exact Hlen' | ].
  assert (Hne : buffer k <> []).
  { intros E. rewrite E in Hlen. discriminate. }
  destruct (read k) as [[v | e | ] k'] eqn:Hr; cbn [fst].
  - rewrite (buffered_read_run k v k' Hne Hr). cbn [fst].
    split; [ intros v' E; congruence | ].
    split; [ intros e E; discriminate | discriminate ].
  - rewrite (buffered_read_propagates k e k' Hr). cbn [fst].
    split; [ discriminate | ]. split; [ intros e' E; exact E | discriminate ].
  - unfold buffered_read, bind. rewrite Hr. cbn [fst].
    split; [ discriminate | ]. split; [ discriminate | reflexivity ].
Qed.

Lemma buffered_read_fails_only_with_read_witness :
  List.length (buffer (snd (buffered_read (awaiting 7 (line "      12" " 34")))))
  = 10%nat.
Proof.
  apply (buffered_read_fails_only_with_read 7 (awaiting 7 (line "      12" " 34"))).
  unfold awaiting.
  apply (reach_deliver 7 (snd (read (init 7 idle_serial)))).
  apply reach_read. apply reach_init.
Defined.

(* ================================================================== *)
(** * [send_rgb] *)

(** X11.  One call of [send_rgb] sends exactly one datagram, the header
    [4, 5, hi, lo] followed by the payload as it is, when the start index
    fits sixteen bits and the datagram, four bytes longer than the payload,
    fits a UDP datagram.  It sends nothing and raises [OSError] when the
    datagram is too long, [ValueError] when the start index is above
    65535, and [struct.error] when it is below zero; the header is built
    before the socket is asked.  It never touches the frame. *)
Theorem send_rgb_sends_one_datagram_or_none :
  forall (rgb_values : list Z) (start_index : Z) (w : World),
    (0 <= start_index <= 65535 ->
     4 + Z.of_nat (List.length rgb_values) <= MAX_UDP_PAYLOAD ->
     send_rgb rgb_values start_index w
     = (Returns tt,
        {| frame := frame w;
           sent := sent w ++ [[4; 5; start_index / 256; start_index mod 256]
                              ++ rgb_values] |})) /\
    (0 <= start_index <= 65535 ->
     MAX_UDP_PAYLOAD < 4 + Z.of_nat (List.length rgb_values) ->
     send_rgb rgb_values start_index w
     = (Raises (OSError message_too_long), w)) /\
    (65535 < start_index ->
     send_rgb rgb_values start_index w
     = (Raises (ValueError start_index_message), w)) /\
    (start_index < 0 ->
     send_rgb rgb_values start_index w = (Raises StructError, w)).
Proof.
  intros q p w. split; [ | split; [ | split ] ].
  - intros Hp Hfit. rewrite send_rgb_run by lia.
    destruct (Z.leb_spec p 65535); [ | lia ].
    apply Z.leb_le in Hfit. rewrite Hfit.
    unfold datagram_of. cbn [fst snd].
    destruct (byte_split p Hp) as [-> ->]. reflexivity.
  - intros Hp Hbig. rewrite send_rgb_run by lia.
    destruct (Z.leb_spec p 65535); [ | lia ].
    apply Z.leb_gt in Hbig. rewrite Hbig. reflexivity.
  - intros Hp. rewrite send_rgb_run by lia.
    destruct (Z.leb_spec p 65535); [ lia | reflexivity ].
  - intros Hp. unfold send_rgb, bind, lift, dnrgb_header, struct_pack_BBH.
    change (5 >? 255) with false. cbv iota.
    replace (p >? 2 ^ 16 - 1) with false by decide_comparison.
    replace (0 <=? p) with false by (symmetry; apply Z.leb_gt; lia).
    rewrite andb_false_r. reflexivity.
Qed.

Lemma send_rgb_sends_one_datagram_or_none_witness :
  send_rgb [1; 2; 3] 258 {| frame := black 2; sent := [] |}
  = (Returns tt, {| frame := black 2; sent := [[4; 5; 1; 2; 1; 2; 3]] |}) /\
  send_rgb (repeat 7 (Z.to_nat 65504)) 258 {| frame := black 2; sent := [] |}
  = (Raises (OSError message_too_long), {| frame := black 2; sent := [] |}) /\
  send_rgb [1; 2; 3] 65536 {| frame := black 2; sent := [] |}
  = (Raises (ValueError start_index_message),
     {| frame := black 2; sent := [] |}) /\
  send_rgb [1; 2; 3] (-1) {| frame := black 2; sent := [] |}
  = (Raises StructError, {| frame := black 2; sent := [] |}).
Proof.
  split; [ | split; [ | split ] ].
  - apply (proj1 (send_rgb_sends_one_datagram_or_none [1; 2; 3] 258
                    {| frame := black 2; sent := [] |})).
    + lia.
    + vm_compute. discriminate.
  - apply (proj1 (proj2 (send_rgb_sends_one_datagram_or_none
                           (repeat 7 (Z.to_nat 65504)) 258
                           {| frame := black 2; sent := [] |}))).
    + lia.
    + rewrite repeat_length. vm_compute. reflexivity.
  - apply (proj1 (proj2 (proj2 (send_rgb_sends_one_datagram_or_none
                                  [1; 2; 3] 65536
                                  {| frame := black 2; sent := [] |})))).
    lia.
  - apply (proj2 (proj2 (proj2 (send_rgb_sends_one_datagram_or_none
                                  [1; 2; 3] (-1)
                                  {| frame := black 2; sent := [] |})))).
    lia.
Defined.

(* ================================================================== *)
(** * Every pixel is sent once *)

Lemma concat_map_alt_rev :
  forall (q : grid) (o : bool),
    Permutation (List.concat (map_alt o (@rev pixel) q)) (List.concat q).
Proof.
  induction q as [ | row q IH]; intros o; cbn [map_alt List.concat].
  - constructor.
  - apply Permutation_app; [ | apply IH ].
    destruct o; [ apply Permutation_sym, Permutation_rev | apply Permutation_refl ].
Qed.

Lemma concat_serpentine :
  forall q : grid, Permutation (List.concat (serpentine q)) (List.concat q).
Proof.
  intros q. unfold serpentine. rewrite map_odd_alt. apply concat_map_alt_rev.
Qed.

Lemma concat_beside :
  forall l r : grid,
    List.length l = List.length r ->
    Permutation (List.concat (beside l r)) (List.concat l ++ List.concat r).
Proof.
  induction l as [ | a l IH]; intros [ | b r] Hlen; try discriminate.
  - constructor.
  - cbn [beside List.concat]. injection Hlen as Hlen.
    rewrite <- !app_assoc. apply Permutation_app_head.
    rewrite (IH r Hlen). apply Permutation_app_swap_app.
Qed.

(** X12.  No pixel is lost or sent twice: on a frame of even height and
    width the four payloads are each a black placeholder followed by
    pixels, and these pixels together are a permutation of the pixels of the
    frame. *)
Theorem send_quadrant_sends_every_pixel_once :
  forall (a : ndarray) (s : list datagram),
    rectangular a ->
    Nat.even (shape0 a) = true -> Nat.even (shape1 a) = true ->
    exists (segs : list (list Z * Z)) (pixels : list (list pixel)),
      fst (quadrant_segments {| frame := a; sent := s |}) = Returns segs /\
      map fst segs = map (fun l => flatten ((0, 0, 0) :: l)) pixels /\
      List.length pixels = 4%nat /\
      Permutation (List.concat pixels) (List.concat (data a)).
Proof.
  intros a s Hrect EH EW.
  destruct (frame_is_quadrants a Hrect EH EW)
    as (TL & TR & BL & BR & Hq & [HTL _] & [HTR _] & [HBL _] & [HBR _] & Hdata).
  exists (segments_of a),
         (map (fun q => List.concat (serpentine q)) (quadrants_of a)).
  split; [ rewrite quadrant_segments_run by assumption; reflexivity | ].
  split; [ | split ].
  - unfold segments_of. rewrite map_map.
    assert (Hlen : List.length (map (fun q => flatten (leds q)) (quadrants_of a))
                   = List.length (exclusive_cumsum 0
                       (map (fun q => Z.of_nat (List.length (leds q)))
                            (quadrants_of a)))).
    { rewrite Hq. reflexivity. }
    rewrite Hq in *. reflexivity.
  - rewrite Hq. reflexivity.
  - rewrite Hq, Hdata. cbn [map List.concat]. rewrite app_nil_r.
    rewrite concat_app.
    rewrite (concat_beside TL TR) by congruence.
    rewrite (concat_beside BL BR) by congruence.
    rewrite !concat_serpentine. rewrite <- !app_assoc. reflexivity.
Qed.

Lemma send_quadrant_sends_every_pixel_once_witness :
  exists (segs : list (list Z * Z)) (pixels : list (list pixel)),
    fst (quadrant_segments {| frame := numbered 2 4; sent := [] |})
    = Returns segs /\
    map fst segs = map (fun l => flatten ((0, 0, 0) :: l)) pixels /\
    List.length pixels = 4%nat /\
    Permutation (List.concat pixels) (List.concat (data (numbered 2 4))).
Proof.
  apply (send_quadrant_sends_every_pixel_once (numbered 2 4) []).
  - apply rectangular_numbered.
  - reflexivity.
  - reflexivity.
Defined.

(* ================================================================== *)
(** * Which LED shows which pixel *)

Lemma nth_error_concat_shape :
  forall (w : nat) (q : grid) (r c : nat) (row : list pixel),
    Forall (fun row => List.length row = w) q ->
    nth_error q r = Some row -> (c < w)%nat ->
    nth_error (List.concat q) (r * w + c) = nth_error row c.
Proof.
  intros w q. induction q as [ | x q IH]; intros r c row Hw Hr Hc.
  - destruct r; discriminate.
  - apply Forall_cons_iff in Hw. destruct Hw as [Hx Hw].
    cbn [List.concat]. destruct r as [ | r]; cbn [nth_error] in Hr.
    + injection Hr as ->. cbn [Nat.mul Nat.add].
      apply nth_error_app1. lia.
    + rewrite nth_error_app2 by (rewrite Hx; cbn; lia).
      rewrite Hx. replace (S r * w + c - w)%nat with (r * w + c)%nat by (cbn; lia).
      apply IH; assumption.
Qed.

Lemma flatten_nth_error :
  forall (l : list pixel) (n : nat) (r g b : Z),
    nth_error l n = Some (r, g, b) ->
    firstn 3 (skipn (3 * n) (flatten l)) = [r; g; b].
Proof.
  induction l as [ | [[r0 g0] b0] l IH]; intros n r g b H.
  - destruct n; discriminate.
  - destruct n as [ | n]; cbn [nth_error] in H.
    + injection H as -> -> ->. reflexivity.
    + replace (3 * S n)%nat with (S (S (S (3 * n)))) by lia.
      unfold flatten. cbn [flat_map app skipn]. apply IH, H.
Qed.

(** The LED of the pixel at row [r] and column [c] of a quadrant. *)
Lemma leds_nth_error :
  forall (h w : nat) (q : grid) (r c : nat) (row : list pixel),
    has_shape h w q ->
    nth_error q r = Some row -> (c < w)%nat ->
    nth_error (leds q) (led_position w r c) = nth_error row c.
Proof.
  intros h w q r c row [Hh Hw] Hr Hc. unfold leds, led_position.
  cbn [Nat.add nth_error].
  assert (Hlen : List.length row = w).
  { apply (proj1 (Forall_forall _ _) Hw). eapply nth_error_In, Hr. }
  assert (Hs : Forall (fun row => List.length row = w) (serpentine q)).
  { apply (has_shape_serpentine h w q). split; assumption. }
  destruct (Nat.odd r) eqn:Hodd.
  - rewrite (nth_error_concat_shape w (serpentine q) r (w - 1 - c) (rev row) Hs);
      [ | | lia ].
    + rewrite nth_error_rev, Hlen.
      destruct (Nat.ltb_spec (w - 1 - c) w); [ | lia ].
      f_equal. lia.
    + rewrite serpentine_nth_error, Hr, Hodd. reflexivity.
  - rewrite (nth_error_concat_shape w (serpentine q) r c row Hs);
      [ reflexivity | | exact Hc ].
    rewrite serpentine_nth_error, Hr, Hodd. reflexivity.
Qed.

(** X13.  Which LED shows which pixel, on a frame whose datagrams fit a
    UDP datagram.  The pixel at row [r] and column [c] of quadrant [k] is
    sent in datagram [k], whose start index is [k] times the number of LEDs
    of a quadrant, at place [1 + r w + c] of its payload when [r] is even
    and at place [1 + r w + (w - 1 - c)] when [r] is odd. *)
Theorem every_pixel_has_its_led :
  forall (a : ndarray) (k r c : nat) (q : view) (red green blue : Z),
    rectangular a ->
    Nat.even (shape0 a) = true -> Nat.even (shape1 a) = true ->
    datagram_size a <= MAX_UDP_PAYLOAD ->
    nth_error (quadrant_views (Nat.div2 (shape0 a)) (Nat.div2 (shape1 a))) k
    = Some q ->
    (r < nrows q)%nat -> (c < ncols q)%nat ->
    pixel_at a (row0 q + r) (col0 q + c) = Some (red, green, blue) ->
    exists d : datagram,
      nth_error (sent (snd (send_quadrant {| frame := a; sent := [] |}))) k
      = Some d /\
      start_index_of d = Z.of_nat k * leds_per_quadrant a /\
      firstn 3 (skipn (3 * led_position (Nat.div2 (shape1 a)) r c) (payload_of d))
      = [red; green; blue].
Proof.
  intros a k r c q red green blue Hrect EH EW Hfit Hq Hr Hc Hp.
  rewrite (send_quadrant_returns a [] Hrect EH EW Hfit). cbn [snd sent app].
  unfold datagram_size, MAX_UDP_PAYLOAD in Hfit.
  destruct (segments_of_explicit a Hrect EH EW)
    as (p0 & p1 & p2 & p3 & Hsegs & Hpay & _).
  destruct (frame_is_quadrants a Hrect EH EW)
    as (TL & TR & BL & BR & Hquads & HTL & HTR & HBL & HBR & _).
  rewrite Hsegs. rewrite Hquads in Hpay. cbn [map] in Hpay.
  injection Hpay as -> -> -> ->.
  unfold quadrants_of in Hquads.
  set (h := Nat.div2 (shape0 a)) in *. set (w := Nat.div2 (shape1 a)) in *.
  pose proof (leds_per_quadrant_pos a) as Hpos.
  assert (Hpixel : forall Q : grid,
             has_shape h w Q -> slice q (data a) = Q -> ncols q = w ->
             firstn 3 (skipn (3 * led_position w r c) (flatten (leds Q)))
             = [red; green; blue]).
  { intros Q HQ HsQ Hnc.
    pose proof (slice_pixel q (data a) r c) as Hsl.
    apply Nat.ltb_lt in Hr, Hc. rewrite Hr, Hc in Hsl. cbn [andb] in Hsl.
    unfold pixel_at in Hp. rewrite Hp in Hsl. rewrite HsQ in Hsl.
    destruct (nth_error Q r) as [row | ] eqn:Hrow; [ | discriminate ].
    apply flatten_nth_error.
    rewrite (leds_nth_error h w Q r c row HQ Hrow); [ exact Hsl | ].
    apply Nat.ltb_lt in Hc. lia. }
  unfold quadrant_views in Hquads. cbn [map] in Hquads.
  injection Hquads as E0 E1 E2 E3.
  destruct k as [ | [ | [ | [ | k ] ] ] ]; cbn [quadrant_views nth_error] in Hq;
    [ | | | | destruct k; discriminate ];
    injection Hq as <-; cbn [map nth_error];
    eexists; (split; [ reflexivity | ]);
    (split; [ rewrite start_index_of_datagram by lia; lia | ]);
    unfold payload_of, datagram_of; cbn [fst snd app skipn];
    eapply Hpixel; eauto.
Qed.

Lemma every_pixel_has_its_led_witness :
  exists d : datagram,
    nth_error (sent (snd (send_quadrant {| frame := numbered 4 4; sent := [] |}))) 3
    = Some d /\
    start_index_of d = Z.of_nat 3 * leds_per_quadrant (numbered 4 4) /\
    firstn 3 (skipn (3 * led_position (Nat.div2 (shape1 (numbered 4 4))) 1 0)
                    (payload_of d))
    = [14; 14; 14].
Proof.
  apply (every_pixel_has_its_led (numbered 4 4) 3 1 0
           {| row0 := 2; col0 := 2; nrows := 2; ncols := 2 |}).
  - apply rectangular_numbered.
  - reflexivity.
  - reflexivity.
  - vm_compute. discriminate.
  - reflexivity.
  - vm_compute. lia.
  - vm_compute. lia.
  - reflexivity.
Defined.

Local Open Scope Q_scope.

(* ================================================================== *)
(** * Floats: rounding keeps the order with a float *)

Lemma round64_nonpositive : forall x, x <= 0 -> nonpositive (round64 x).
Proof.
  intros x Hx. unfold round64.
  destruct (Qcompare_spec x 0) as [E | L | G].
  - apply Qle_refl.
  - cbv zeta.
    pose proof (pow2_pos (ulp_exp x)) as Hpe.
    assert (Hm : (round_half_even (x / pow2 (ulp_exp x)) <= 0)%Z).
    { apply round_half_even_le. change (inject_Z 0) with 0.
      apply Qle_shift_div_r; [ exact Hpe | ]. rewrite Qmult_0_l. exact Hx. }
    destruct (Qle_bool (pow2 1024) _).
    + unfold nonpositive. apply Qle_bool_iff. exact Hx.
    + unfold nonpositive. rewrite Qred_correct.
      rewrite Zle_Qle in Hm. change (inject_Z 0) with 0 in Hm.
      setoid_replace 0 with (0 * pow2 (ulp_exp x)) by ring.
      apply Qmult_le_compat_r; [ exact Hm | apply Qlt_le_weak, Hpe ].
  - exfalso. apply (Qlt_irrefl 0). eapply Qlt_le_trans; eassumption.
Qed.

Lemma Qabs_nonneg_eq : forall x, 0 <= x -> Qabs x = x.
Proof.
  intros [n d] H. unfold Qabs. f_equal. apply Z.abs_eq.
  unfold Qle in H. cbn in H. lia.
Qed.

Lemma round64_at_least :
  forall x N b,
    (0 < N < 2 ^ 53)%Z -> (-1074 <= b)%Z ->
    inject_Z N * pow2 b <= x ->
    at_least (inject_Z N * pow2 b) (round64 x).
Proof.
  intros x N b HN Hb Hx.
  assert (HB : 0 < inject_Z N * pow2 b).
  { apply Qmult_lt_0_compat; [ | apply pow2_pos ].
    rewrite <- (Zlt_Qlt 0). lia. }
  assert (Hx0 : 0 < x) by (eapply Qlt_le_trans; eassumption).
  unfold round64.
  destruct (Qcompare_spec x 0) as [E | L | G].
  - rewrite E in Hx0. exfalso. exact (Qlt_irrefl _ Hx0).
  - exfalso. apply (Qlt_irrefl 0). eapply Qlt_trans; eassumption.
  - cbv zeta.
    destruct (Qle_bool (pow2 1024) _).
    + unfold at_least. destruct (Qle_bool x 0) eqn:E; [ | reflexivity ].
      apply Qle_bool_iff in E. exfalso. apply (Qlt_irrefl 0).
      eapply Qlt_le_trans; eassumption.
    + unfold at_least. rewrite Qred_correct.
      set (e := ulp_exp x).
      pose proof (pow2_pos e) as Hpe.
      destruct (Z_le_gt_dec e b) as [Heb | Heb].
      * assert (HN' : inject_Z (N * 2 ^ (b - e)) * pow2 e
                      == inject_Z N * pow2 b).
        { rewrite inject_Z_mult, pow2_inject by lia.
          rewrite <- Qmult_assoc, <- pow2_add.
          replace (b - e + e)%Z with b by lia. reflexivity. }
        assert (Hdn : inject_Z (N * 2 ^ (b - e)) <= x / pow2 e).
        { apply Qle_shift_div_l; [ exact Hpe | ]. rewrite HN'. exact Hx. }
        apply round_half_even_ge in Hdn. rewrite Zle_Qle in Hdn.
        rewrite <- HN'.
        apply Qmult_le_compat_r; [ exact Hdn | apply Qlt_le_weak, Hpe ].
      * assert (He : e = (ilog2 (Qabs x) - 52)%Z).
        { unfold e, ulp_exp in *. lia. }
        rewrite Qabs_nonneg_eq in He by (apply Qlt_le_weak, Hx0).
        pose proof (ilog2_lower x Hx0) as Hlow.
        assert (H52 : inject_Z (2 ^ 52) <= x / pow2 e).
        { apply Qle_shift_div_l; [ exact Hpe | ].
          rewrite pow2_inject by lia. rewrite <- pow2_add.
          replace (52 + e)%Z with (ilog2 x) by lia. exact Hlow. }
        apply round_half_even_ge in H52. rewrite Zle_Qle in H52.
        apply Qle_trans with (inject_Z (2 ^ 52) * pow2 e).
        -- apply Qlt_le_weak.
           eapply Qlt_le_trans; [ apply (pow2_53_bound N b); lia | ].
           rewrite pow2_inject by lia. rewrite <- pow2_add.
           apply pow2_le. lia.
        -- apply Qmult_le_compat_r; [ exact H52 | apply Qlt_le_weak, Hpe ].
Qed.

(* ================================================================== *)
(** * The calibration: where it saturates *)

Lemma voltage_to_value_steps :
  forall (z : Z) (q0 : Q),
    float_of_int z = Returns (Fin q0) ->
    voltage_to_value z
    = obind (float_truediv (float_mul (Fin q0) (literal (33 # 10))) (Fin 65535))
            clamp_and_rescale.
Proof.
  intros z q0 Hz. unfold voltage_to_value. rewrite Hz. cbn [obind].
  assert (Hd : float_of_int 65535 = Returns (Fin 65535))
    by (vm_compute; reflexivity).
  rewrite Hd. reflexivity.
Qed.

Lemma Qle_bool_false : forall x y, y < x -> Qle_bool x y = false.
Proof.
  intros x y H. destruct (Qle_bool x y) eqn:E; [ | reflexivity ].
  apply Qle_bool_iff in E. exfalso. apply (Qlt_irrefl y).
  eapply Qlt_le_trans; eassumption.
Qed.

Lemma Qle_bool_true : forall x y, x <= y -> Qle_bool x y = true.
Proof. intros x y H. apply Qle_bool_iff. exact H. Qed.

Lemma clamp_and_rescale_low :
  forall v, nonpositive v -> clamp_and_rescale v = Returns (Fin 0).
Proof.
  intros v Hv. unfold clamp_and_rescale.
  assert (Hhi : literal (28 # 10) = Fin (3152519739159347 # 1125899906842624))
    by (vm_compute; reflexivity).
  assert (Hlo : literal (5 # 100) = Fin (3602879701896397 # 72057594037927936))
    by (vm_compute; reflexivity).
  rewrite Hhi, Hlo. cbv zeta.
  assert (Hend : float_truediv
                   (float_sub (Fin (3602879701896397 # 72057594037927936))
                              (Fin (3602879701896397 # 72057594037927936)))
                   (literal (275 # 100)) = Returns (Fin 0))
    by (vm_compute; reflexivity).
  destruct v as [q | s | ]; cbn in Hv; [ | subst s | contradiction ].
  - unfold float_gt, float_lt.
    rewrite (Qle_bool_true q) by lra. cbn [negb].
    rewrite (Qle_bool_false _ q) by lra. cbn [negb]. exact Hend.
  - cbn [float_gt float_lt negb]. exact Hend.
Qed.

Lemma clamp_and_rescale_high :
  forall v,
    at_least (2936013 # 1048576) v -> clamp_and_rescale v = Returns (Fin 1).
Proof.
  intros v Hv. unfold clamp_and_rescale.
  assert (Hhi : literal (28 # 10) = Fin (3152519739159347 # 1125899906842624))
    by (vm_compute; reflexivity).
  assert (Hlo : literal (5 # 100) = Fin (3602879701896397 # 72057594037927936))
    by (vm_compute; reflexivity).
  rewrite Hhi, Hlo. cbv zeta.
  assert (Hend : (if float_lt (Fin (3152519739159347 # 1125899906842624))
                              (Fin (3602879701896397 # 72057594037927936))
                  then Returns NaN
                  else float_truediv
                         (float_sub (Fin (3152519739159347 # 1125899906842624))
                                    (Fin (3602879701896397 # 72057594037927936)))
                         (literal (275 # 100))) = Returns (Fin 1))
    by (vm_compute; reflexivity).
  assert (Hcmp : float_lt (Fin (3152519739159347 # 1125899906842624))
                          (Fin (3602879701896397 # 72057594037927936)) = false)
    by (vm_compute; reflexivity).
  rewrite Hcmp in Hend.
  destruct v as [q | s | ]; cbn in Hv; [ | subst s | contradiction ].
  - unfold float_gt.
    change (float_lt (Fin (3152519739159347 # 1125899906842624)) (Fin q))
      with (negb (Qle_bool q (3152519739159347 # 1125899906842624))).
    rewrite (Qle_bool_false q) by lra. cbn [negb].
    rewrite Hcmp. exact Hend.
  - unfold float_gt.
    change (float_lt (Fin (3152519739159347 # 1125899906842624)) (Inf false))
      with true.
    cbv iota. rewrite Hcmp. exact Hend.
Qed.

Lemma float_truediv_65535_nonpositive :
  forall v, nonpositive v ->
    exists v', float_truediv v (Fin 65535) = Returns v' /\ nonpositive v'.
Proof.
  intros [q | s | ] Hv; cbn in Hv; [ | subst s | contradiction ].
  - cbn [float_truediv]. change (is_zero 65535) with false. cbv iota.
    eexists. split; [ reflexivity | ]. apply round64_nonpositive.
    apply Qle_shift_div_r; [ reflexivity | ]. lra.
  - eexists. split; [ reflexivity | ]. reflexivity.
Qed.

Lemma float_truediv_65535_at_least :
  forall v, at_least 183499 v ->
    exists v', float_truediv v (Fin 65535) = Returns v' /\
               at_least (2936013 # 1048576) v'.
Proof.
  intros [q | s | ] Hv; cbn in Hv; [ | subst s | contradiction ].
  - cbn [float_truediv]. change (is_zero 65535) with false. cbv iota.
    eexists. split; [ reflexivity | ].
    assert (E : (2936013 # 1048576) == inject_Z 2936013 * pow2 (-20))
      by reflexivity.
    assert (H : inject_Z 2936013 * pow2 (-20) <= q / 65535).
    { rewrite <- E. apply Qle_shift_div_l; [ reflexivity | ]. lra. }
    pose proof (round64_at_least (q / 65535) 2936013 (-20)
                  ltac:(lia) ltac:(lia) H) as R.
    destruct (round64 (q / 65535)) as [q' | s' | ]; cbn in R |- *;
      [ rewrite E; exact R | exact R | exact R ].
  - eexists. split; [ reflexivity | ]. reflexivity.
Qed.

Local Close Scope Q_scope.

(** X14.  The calibration has a dead zone and saturates: every raw value
    up to 992, down to the most negative integer that converts to a float,
    gives exactly 0.0, and every raw value from 55606 on gives exactly 1.0;
    993 and 55605 give values strictly between 0 and 1. *)
Theorem voltage_to_value_saturates :
  (forall z : Z,
      - (2 ^ 1024 - 2 ^ 970) < z <= 992 ->
      voltage_to_value z = Returns (Fin 0)) /\
  (forall z : Z,
      55606 <= z < 2 ^ 1024 - 2 ^ 970 ->
      voltage_to_value z = Returns (Fin 1)) /\
  (exists lo : Q,
      voltage_to_value 993 = Returns (Fin lo) /\ (0 < lo < 1)%Q) /\
  (exists hi : Q,
      voltage_to_value 55605 = Returns (Fin hi) /\ (0 < hi < 1)%Q).
Proof.
  split; [ | split; [ | split ] ].
  - intros z Hz.
    destruct (Z_lt_le_dec z 0) as [Hneg | Hpos].
    + destruct (float_of_int_below z ltac:(lia)) as (q0 & Hq0).
      assert (Hq : (q0 <= 0)%Q).
      { assert (Hz0 : (inject_Z z <= 0)%Q).
        { change 0%Q with (inject_Z 0). rewrite <- Zle_Qle. lia. }
        pose proof (round64_nonpositive (inject_Z z) Hz0) as Hn.
        unfold float_of_int in Hq0.
        destruct (round64 (inject_Z z)) as [q | s | ]; try discriminate.
        injection Hq0 as <-. exact Hn. }
      rewrite (voltage_to_value_steps z q0 Hq0).
      assert (H33 : literal (33 # 10)
                    = Fin (3715469692580659 # 1125899906842624))
        by (vm_compute; reflexivity).
      rewrite H33. cbn [float_mul].
      assert (Hprod : nonpositive
                        (round64 (q0 * (3715469692580659 # 1125899906842624)))).
      { apply round64_nonpositive. lra. }
      destruct (float_truediv_65535_nonpositive _ Hprod) as (v' & -> & Hv').
      cbn [obind]. apply clamp_and_rescale_low, Hv'.
    + assert (Hall : forallb
                       (fun n => match voltage_to_value (Z.of_nat n) with
                                 | Returns (Fin (Qmake Z0 xH)) => true
                                 | _ => false
                                 end) (seq 0 993) = true)
        by (vm_compute; reflexivity).
      pose proof (proj1 (forallb_forall _ _) Hall (Z.to_nat z)) as Hn.
      specialize (Hn ltac:(apply in_seq; lia)). cbv beta in Hn.
      rewrite Z2Nat.id in Hn by exact Hpos. clear Hall.
      destruct (voltage_to_value z) as [[[[ | p | p] [d | d | ]] | s | ] | e | ];
        try discriminate. reflexivity.
  - intros z Hz.
    destruct (float_of_int_below z ltac:(lia)) as (q0 & Hq0).
    assert (Hq : (55606 <= q0)%Q).
    { assert (H : (inject_Z 55606 * pow2 0 <= inject_Z z)%Q).
      { change (pow2 0) with 1%Q. rewrite Qmult_1_r. rewrite <- Zle_Qle. lia. }
      pose proof (round64_at_least (inject_Z z) 55606 0
                    ltac:(lia) ltac:(lia) H) as Hn.
      unfold float_of_int in Hq0.
      destruct (round64 (inject_Z z)) as [q | s | ]; try discriminate.
      injection Hq0 as <-. cbn in Hn.
      change (pow2 0) with 1%Q in Hn. rewrite Qmult_1_r in Hn. exact Hn. }
    rewrite (voltage_to_value_steps z q0 Hq0).
    assert (H33 : literal (33 # 10)
                  = Fin (3715469692580659 # 1125899906842624))
      by (vm_compute; reflexivity).
    rewrite H33. cbn [float_mul].
    assert (Hprod : at_least 183499
                      (round64 (q0 * (3715469692580659 # 1125899906842624)))).
    { assert (H : (inject_Z 183499 * pow2 0
                   <= q0 * (3715469692580659 # 1125899906842624))%Q).
      { change (pow2 0) with 1%Q. rewrite Qmult_1_r.
        change (inject_Z 183499) with 183499%Q. lra. }
      pose proof (round64_at_least _ 183499 0 ltac:(lia) ltac:(lia) H) as Hn.
      destruct (round64 (q0 * (3715469692580659 # 1125899906842624)));
        cbn in Hn |- *; [ | exact Hn | exact Hn ].
      change (pow2 0) with 1%Q in Hn. rewrite Qmult_1_r in Hn. exact Hn. }
    destruct (float_truediv_65535_at_least _ Hprod) as (v' & -> & Hv').
    cbn [obind]. apply clamp_and_rescale_high, Hv'.
  - eexists. split; [ vm_compute; reflexivity | split; reflexivity ].
  - eexists. split; [ vm_compute; reflexivity | split; reflexivity ].
Qed.

Lemma voltage_to_value_saturates_witness :
  voltage_to_value (-5) = Returns (Fin 0) /\
  voltage_to_value 70000 = Returns (Fin 1).
Proof.
  split.
  - apply (proj1 voltage_to_value_saturates). split; [ reflexivity | lia ].
  - apply (proj1 (proj2 voltage_to_value_saturates)).
    split; [ lia | reflexivity ].
Defined.

(* ================================================================== *)
(** * [get_knob_values] *)

(** X15.  [get_knob_values] on readings that convert to floats: when the
    history and the new reading are bounded in magnitude by some
    [B < 2^1024 - 2^970], it returns two floats between 0 and 1, and leaves
    the reader as [buffered_read] does. *)
Theorem get_knob_values_in_unit_interval :
  forall (k k' : KnobReader) (v : reading) (B : Z),
    buffer k <> [] ->
    Forall (within (- B) B) (buffer k) ->
    read k = (Returns v, k') ->
    within (- B) B v ->
    B < 2 ^ 1024 - 2 ^ 970 ->
    exists a b : Q,
      get_knob_values k
      = (Returns (Fin a, Fin b), set_buffer (v :: removelast (buffer k)) k') /\
      (0 <= a <= 1)%Q /\ (0 <= b <= 1)%Q.
Proof.
  intros k k' v B Hne Hb Hr Hv HB.
  pose proof (buffered_read_run k v k' Hne Hr) as Hrun.
  assert (Hnew : Forall (within (- B) B) (v :: removelast (buffer k))).
  { constructor; [ exact Hv | apply Forall_removelast, Hb ]. }
  assert (Hcons : v :: removelast (buffer k) <> []) by discriminate.
  pose proof (mean_within _ (- B) B Hcons Hnew) as [Hm1 Hm2].
  set (m := mean (v :: removelast (buffer k))) in *.
  destruct (float_of_int_below (fst m) ltac:(lia)) as (q1 & Hq1).
  destruct (float_of_int_below (snd m) ltac:(lia)) as (q2 & Hq2).
  destruct (voltage_to_value_returns (fst m) q1 Hq1) as (a & Ha & Ha01).
  destruct (voltage_to_value_returns (snd m) q2 Hq2) as (b & Hb' & Hb01).
  exists a, b. split; [ | split; assumption ].
  unfold get_knob_values, bind. rewrite Hrun. unfold lift.
  rewrite Ha, Hb'. reflexivity.
Qed.

Lemma get_knob_values_in_unit_interval_witness :
  exists a b : Q,
    get_knob_values (awaiting 100 (line "      12" " 34"))
    = (Returns (Fin a, Fin b),
       set_buffer ((12, 34) :: removelast (buffer (awaiting 100 (line "      12" " 34"))))
                  (snd (read (awaiting 100 (line "      12" " 34"))))) /\
    (0 <= a <= 1)%Q /\ (0 <= b <= 1)%Q.
Proof.
  apply (get_knob_values_in_unit_interval
           (awaiting 100 (line "      12" " 34"))
           (snd (read (awaiting 100 (line "      12" " 34"))))
           (12, 34) 100).
  - discriminate.
  - vm_compute. repeat constructor; discriminate.
  - reflexivity.
  - vm_compute. repeat constructor; discriminate.
  - reflexivity.
Defined.

(* ================================================================== *)
(** * The noise mask *)

Lemma noise_row_run :
  forall (w : nat) (prob thres : float) (g : Random),
    noise_row w prob thres g
    = (Returns (map (fun j => noise_entry prob thres (draws g (drawn g + j)))
                    (seq 0 w)),
       advance w g).
Proof.
  induction w as [ | w IH]; intros prob thres g.
  - cbn. unfold ret, advance. rewrite Nat.add_0_r. destruct g; reflexivity.
  - cbn [noise_row]. unfold bind, random. rewrite IH.
    unfold ret, advance. cbn [draws drawn]. f_equal.
    + f_equal. cbn [seq map]. rewrite Nat.add_0_r. f_equal.
      rewrite <- seq_shift, map_map. apply map_ext. intros j.
      f_equal. f_equal. lia.
    + f_equal. lia.
Qed.

Lemma noise_rows_run :
  forall (h w : nat) (prob thres : float) (g : Random),
    noise_rows h w prob thres g
    = (Returns (map (fun i =>
                       map (fun j => noise_entry prob thres
                                       (draws g (drawn g + i * w + j)))
                           (seq 0 w))
                    (seq 0 h)),
       advance (h * w) g).
Proof.
  induction h as [ | h IH]; intros w prob thres g.
  - cbn. unfold ret, advance. rewrite Nat.add_0_r. destruct g; reflexivity.
  - cbn [noise_rows]. unfold bind. rewrite noise_row_run, IH.
    unfold ret, advance. cbn [draws drawn]. f_equal.
    + f_equal. cbn [seq map]. f_equal.
      * apply map_ext. intros j. f_equal. f_equal. lia.
      * rewrite <- seq_shift, map_map. apply map_ext. intros i.
        apply map_ext. intros j. f_equal. f_equal. cbn. lia.
    + f_equal. cbn. lia.
Qed.

Lemma fits_uniform :
  forall (a : ndarray) (f : nat -> nat -> Z),
    fits (map (fun i => map (f i) (seq 0 (shape1 a))) (seq 0 (shape0 a))) a
    = true.
Proof.
  intros a f. unfold fits. apply andb_true_iff. split.
  - rewrite length_map, length_seq. apply Nat.eqb_refl.
  - apply forallb_forall. intros row Hin. apply in_map_iff in Hin.
    destruct Hin as (i & <- & _). rewrite length_map, length_seq.
    apply Nat.eqb_refl.
Qed.

Lemma mask_at_uniform :
  forall (h w : nat) (f : nat -> nat -> Z) (i j : nat),
    (i < h)%nat -> (j < w)%nat ->
    mask_at (map (fun i => map (f i) (seq 0 w)) (seq 0 h)) i j = Some (f i j).
Proof.
  intros h w f i j Hi Hj. unfold mask_at.
  rewrite nth_error_map, nth_error_seq.
  destruct (Nat.ltb_spec i h); [ | lia ]. cbn [option_map].
  rewrite nth_error_map, nth_error_seq.
  destruct (Nat.ltb_spec j w); [ | lia ]. reflexivity.
Qed.

Lemma repeat_as_map :
  forall {A} (x : A) (n : nat), repeat x n = map (fun _ => x) (seq 0 n).
Proof.
  intros A x n. generalize 0%nat. induction n as [ | n IH]; intros s.
  - reflexivity.
  - cbn. f_equal. apply IH.
Qed.

(** [noise_effect] from 0.83 on. *)
Lemma noise_effect_full :
  forall (frame : ndarray) (value : float) (g : Random),
    float_lt value (literal (83 # 100)) = false ->
    noise_effect frame value g
    = (Returns (repeat (repeat 1 (shape1 frame)) (shape0 frame)), g).
Proof.
  intros frame value g Hge. unfold noise_effect. rewrite Hge. reflexivity.
Qed.

(** [noise_effect] below 0.83: the two loops in closed form. *)
Lemma noise_effect_below :
  forall (frame : ndarray) (value prob : float) (g : Random),
    float_lt value (literal (83 # 100)) = true ->
    float_truediv value (Fin 3) = Returns prob ->
    noise_effect frame value g
    = (Returns (map (fun i =>
                       map (fun j =>
                              noise_entry prob (float_sub (Fin 1) prob)
                                (draws g (drawn g + i * shape1 frame + j)))
                           (seq 0 (shape1 frame)))
                    (seq 0 (shape0 frame))),
       advance (shape0 frame * shape1 frame) g).
Proof.
  intros frame value prob g Hlt Hprob. unfold noise_effect. rewrite Hlt.
  unfold bind, lift. rewrite Hprob. unfold sp_noise_mask. cbn [fst snd].
  apply noise_rows_run.
Qed.

(** X16.  The mask of [noise_effect].  From 0.83 on it is all ones and no
    random number is drawn.  Below, it has the shape of the frame, [h w]
    numbers are drawn row by row, and the entry at [(i, j)] is -1, 1 or 0 as
    draw number [i w + j] is below [value / 3], above [1 - value / 3], or
    neither. *)
Theorem noise_effect_mask :
  forall (frame : ndarray) (value : float) (g : Random),
    (float_lt value (literal (83 # 100)) = false ->
     noise_effect frame value g
     = (Returns (repeat (repeat 1 (shape1 frame)) (shape0 frame)), g)) /\
    (forall prob : float,
        float_lt value (literal (83 # 100)) = true ->
        float_truediv value (Fin 3) = Returns prob ->
        exists noise : mask,
          noise_effect frame value g
          = (Returns noise, advance (shape0 frame * shape1 frame) g) /\
          fits noise frame = true /\
          forall i j : nat,
            (i < shape0 frame)%nat -> (j < shape1 frame)%nat ->
            mask_at noise i j
            = Some (noise_entry prob (float_sub (Fin 1) prob)
                      (draws g (drawn g + i * shape1 frame + j)))).
Proof.
  intros frame value g. split.
  - apply noise_effect_full.
  - intros prob Hlt Hprob.
    rewrite (noise_effect_below frame value prob g Hlt Hprob).
    eexists. split; [ reflexivity | ]. split.
    + apply (fits_uniform frame
               (fun i j => noise_entry prob (float_sub (Fin 1) prob)
                             (draws g (drawn g + i * shape1 frame + j)))).
    + intros i j Hi Hj.
      apply (mask_at_uniform (shape0 frame) (shape1 frame)
               (fun i j => noise_entry prob (float_sub (Fin 1) prob)
                             (draws g (drawn g + i * shape1 frame + j))));
        assumption.
Qed.

(* ================================================================== *)
(** * Painting by a mask *)

Lemma nth_error_combine :
  forall {A B} (l1 : list A) (l2 : list B) (i : nat),
    nth_error (combine l1 l2) i
    = match nth_error l1 i, nth_error l2 i with
      | Some a, Some b => Some (a, b)
      | _, _ => None
      end.
Proof.
  induction l1 as [ | x l1 IH]; intros l2 i.
  - destruct i; reflexivity.
  - destruct l2 as [ | y l2].
    + destruct i; cbn; [ reflexivity | ].
      destruct (nth_error l1 i); reflexivity.
    + destruct i; cbn; [ reflexivity | apply IH ].
Qed.

Lemma fits_shape :
  forall (noise : mask) (a : ndarray),
    fits noise a = true ->
    List.length noise = shape0 a /\
    Forall (fun row => List.length row = shape1 a) noise.
Proof.
  intros noise a H. unfold fits in H. apply andb_true_iff in H.
  destruct H as [H0 H1]. apply Nat.eqb_eq in H0. split; [ exact H0 | ].
  apply Forall_forall. intros row Hin.
  apply Nat.eqb_eq. apply (proj1 (forallb_forall _ _) H1 row Hin).
Qed.

Lemma paint_run :
  forall (noise : mask) (m : Z) (v : pixel) (a : ndarray),
    rectangular a -> fits noise a = true ->
    exists a' : ndarray,
      paint noise m v a = Returns a' /\
      rectangular a' /\
      shape0 a' = shape0 a /\ shape1 a' = shape1 a /\
      fits noise a' = true /\
      forall (i j : nat) (p : pixel) (n : Z),
        pixel_at a i j = Some p -> mask_at noise i j = Some n ->
        pixel_at a' i j = Some (if n =? m then v else p).
Proof.
  intros noise m v a [Hh Hw] Hfits.
  destruct (fits_shape noise a Hfits) as [Nh Nw].
  unfold paint. rewrite Hfits. eexists. split; [ reflexivity | ].
  split; [ | split; [ reflexivity | split; [ reflexivity | split ] ] ].
  - unfold rectangular. cbn [shape0 shape1 data]. split.
    + rewrite length_map, length_combine. lia.
    + apply Forall_map. apply Forall_forall. intros [nrow row] Hin.
      cbn [fst snd]. rewrite length_map, length_combine.
      pose proof (in_combine_l _ _ _ _ Hin) as Hn.
      pose proof (in_combine_r _ _ _ _ Hin) as Hr.
      pose proof (proj1 (Forall_forall _ _) Nw nrow Hn) as E1.
      pose proof (proj1 (Forall_forall _ _) Hw row Hr) as E2.
      cbv beta in E1, E2. lia.
  - exact Hfits.
  - intros i j p n Hp Hn. unfold pixel_at, mask_at in *. cbn [data].
    rewrite nth_error_map, nth_error_combine.
    destruct (nth_error noise i) as [nrow | ]; [ | discriminate ].
    destruct (nth_error (data a) i) as [row | ]; [ | discriminate ].
    cbn [option_map fst snd].
    rewrite nth_error_map, nth_error_combine, Hn, Hp. reflexivity.
Qed.

(** Every pixel of the image has an entry in a mask that fits. *)
Lemma mask_at_fits :
  forall (noise : mask) (a : ndarray) (i j : nat) (p : pixel),
    rectangular a -> fits noise a = true -> pixel_at a i j = Some p ->
    exists n : Z, mask_at noise i j = Some n.
Proof.
  intros noise a i j p Hrect Hfits Hp.
  destruct (pixel_at_in_bounds a i j p Hrect Hp) as [Hi Hj].
  destruct (fits_shape noise a Hfits) as [Nh Nw].
  unfold mask_at.
  destruct (nth_error noise i) as [nrow | ] eqn:Hrow.
  - pose proof (proj1 (Forall_forall _ _) Nw nrow (nth_error_In _ _ Hrow)) as E.
    cbv beta in E.
    destruct (nth_error nrow j) as [n | ] eqn:Hn; [ eauto | ].
    apply nth_error_None in Hn. lia.
  - apply nth_error_None in Hrow. lia.
Qed.

(* ================================================================== *)
(** * [hue_effect] *)

Local Open Scope Q_scope.

Lemma Qabs_le_of_bounds : forall x B, - B <= x -> x <= B -> Qabs x <= B.
Proof. intros x B H1 H2. apply Qabs_Qle_condition. split; assumption. Qed.

(** The colour of the middle range of the knob. *)
Lemma hue_of_value_returns :
  forall v : Q,
    0 <= v <= 1 ->
    exists (hue : float) (n : Z),
      float_truediv (float_sub (Fin v) (literal (1 # 10)))
                    (float_sub (literal (9 # 10)) (literal (1 # 10)))
      = Returns hue /\
      round_float (float_mul hue (Fin 255)) = Returns n.
Proof.
  intros v [Hv0 Hv1].
  assert (H01 : literal (1 # 10) = Fin (3602879701896397 # 36028797018963968))
    by (vm_compute; reflexivity).
  assert (Hd : float_sub (literal (9 # 10)) (literal (1 # 10))
               = Fin (3602879701896397 # 4503599627370496))
    by (vm_compute; reflexivity).
  rewrite Hd, H01. cbn [float_sub].
  destruct (round64_bounded (v - (3602879701896397 # 36028797018963968)) 1 0)
    as (u & Hu & Hub & _); [ lia | lia | | ].
  { change (inject_Z 1 * pow2 0) with (1 * 1).
    apply Qabs_le_of_bounds; lra. }
  rewrite Hu. cbn [float_truediv].
  change (is_zero (3602879701896397 # 4503599627370496)) with false. cbv iota.
  change (inject_Z 1 * pow2 0) with (1 * 1) in Hub.
  apply Qabs_Qle_condition in Hub. destruct Hub as [Hu1 Hu2].
  set (d := 3602879701896397 # 4503599627370496) in *.
  assert (Hinv : u / d == u * (4503599627370496 # 3602879701896397))
    by (unfold d; field).
  destruct (round64_bounded (u / d) 2 0) as (hue & Hhue & Hhb & _);
    [ lia | lia | | ].
  { change (inject_Z 2 * pow2 0) with (2 * 1). rewrite Hinv.
    apply Qabs_le_of_bounds; lra. }
  exists (Fin hue). rewrite Hhue. cbn [float_mul].
  change (inject_Z 2 * pow2 0) with (2 * 1) in Hhb.
  apply Qabs_Qle_condition in Hhb. destruct Hhb as [Hh1 Hh2].
  destruct (round64_bounded (hue * 255) 510 0) as (x & Hx & _ & _);
    [ lia | lia | | ].
  { change (inject_Z 510 * pow2 0) with (510 * 1).
    apply Qabs_le_of_bounds; lra. }
  rewrite Hx. eexists. split; reflexivity.
Qed.

(** The colour of the rainbow, from a reading of the clock. *)
Lemma hue_of_clock_returns :
  forall t : Q,
    0 <= t <= inject_Z (2 ^ 53) ->
    exists (t' : float) (n : Z),
      float_truediv (Fin t) (Fin 10) = Returns t' /\
      round_float (float_mul (float_mod_1 t') (Fin 255)) = Returns n.
Proof.
  intros t [Ht0 Ht1]. cbn [float_truediv]. change (is_zero 10) with false.
  cbv iota.
  assert (Hinv : t / 10 == t * (1 # 10)) by field.
  destruct (round64_bounded (t / 10) (2 ^ 52) 0) as (t1 & Ht1' & _ & Hpos);
    [ lia | lia | | ].
  { change (inject_Z (2 ^ 52) * pow2 0) with (4503599627370496 * 1).
    change (inject_Z (2 ^ 53)) with 9007199254740992 in Ht1.
    rewrite Hinv. apply Qabs_le_of_bounds; lra. }
  assert (Ht10 : 0 <= t1) by (apply Hpos; rewrite Hinv; lra).
  exists (Fin t1). rewrite Ht1'. unfold float_mod_1.
  rewrite (Qle_bool_true 0 t1 Ht10).
  pose proof (Qfloor_le t1) as Hfl. pose proof (Qlt_floor t1) as Hfu.
  rewrite inject_Z_plus in Hfu. change (inject_Z 1) with 1 in Hfu.
  set (m := t1 - inject_Z (Qfloor t1)) in *.
  assert (Hm0 : 0 <= m) by (unfold m; lra).
  assert (Hm1 : m <= 1) by (unfold m; lra).
  unfold is_neg. rewrite (Qle_bool_true 0 m Hm0). cbn [negb float_mul].
  destruct (round64_bounded (Qred m * 255) 255 0) as (x & Hx & _ & _);
    [ lia | lia | | ].
  { change (inject_Z 255 * pow2 0) with (255 * 1).
    assert (E : Qred m * 255 == m * 255) by (rewrite Qred_correct; reflexivity).
    rewrite (Qabs_wd _ _ E). apply Qabs_le_of_bounds; lra. }
  rewrite Hx. eexists. split; reflexivity.
Qed.

Local Close Scope Q_scope.

Lemma hue_effect_run :
  forall (hue_to_rgb : Z -> pixel) (frame : ndarray) (noise : mask)
         (v t : Q),
    (0 <= v <= 1)%Q -> (0 <= t <= inject_Z (2 ^ 53))%Q ->
    exists high : pixel,
      hue_effect hue_to_rgb frame noise (Fin v) (Fin t)
      = (frame <~ paint noise (-1) (0, 0, 0) frame ;;
         paint noise 1 high frame)%py /\
      (float_lt (Fin v) (literal (1 # 10)) = true -> high = (255, 255, 255)).
Proof.
  intros hue_to_rgb frame noise v t Hv Ht. unfold hue_effect. cbv zeta.
  destruct (float_lt (Fin v) (literal (1 # 10))) eqn:H1.
  - exists (255, 255, 255). split; reflexivity.
  - destruct (float_lt (Fin v) (literal (9 # 10))) eqn:H9.
    + destruct (hue_of_value_returns v Hv) as (hue & n & Hhue & Hn).
      exists (hue_to_rgb n). split; [ | discriminate ].
      rewrite Hhue. cbn [obind]. rewrite Hn. reflexivity.
    + destruct (hue_of_clock_returns t Ht) as (t' & n & Ht' & Hn).
      exists (hue_to_rgb n). split; [ | discriminate ].
      rewrite Ht'. cbn [obind]. rewrite Hn. reflexivity.
Qed.

(** The two assignments of [hue_effect], for knob values and a clock in
    their ranges. *)
Lemma hue_effect_painted :
  forall (hue_to_rgb : Z -> pixel) (frame : ndarray) (noise : mask)
         (v t : Q),
    rectangular frame ->
    fits noise frame = true ->
    (0 <= v <= 1)%Q ->
    (0 <= t <= inject_Z (2 ^ 53))%Q ->
    exists (high : pixel) (frame' : ndarray),
      hue_effect hue_to_rgb frame noise (Fin v) (Fin t) = Returns frame' /\
      (float_lt (Fin v) (literal (1 # 10)) = true -> high = (255, 255, 255)) /\
      rectangular frame' /\
      shape0 frame' = shape0 frame /\ shape1 frame' = shape1 frame /\
      forall (i j : nat) (p : pixel) (n : Z),
        pixel_at frame i j = Some p -> mask_at noise i j = Some n ->
        pixel_at frame' i j
        = Some (if n =? 1 then high else if n =? -1 then (0, 0, 0) else p).
Proof.
  intros hue_to_rgb frame noise v t Hrect Hfits Hv Ht.
  destruct (hue_effect_run hue_to_rgb frame noise v t Hv Ht)
    as (high & Hrun & Hwhite).
  destruct (paint_run noise (-1) (0, 0, 0) frame Hrect Hfits)
    as (f1 & Hp1 & R1 & S10 & S11 & F1 & P1).
  destruct (paint_run noise 1 high f1 R1 F1)
    as (f2 & Hp2 & R2 & S20 & S21 & F2 & P2).
  exists high, f2. split.
  { rewrite Hrun, Hp1. cbn [obind]. exact Hp2. }
  split; [ exact Hwhite | ]. split; [ exact R2 | ].
  split; [ congruence | ]. split; [ congruence | ].
  intros i j p n Hp Hn. apply (P2 i j _ n (P1 i j p n Hp Hn) Hn).
Qed.

(** X17.  [hue_effect] with a mask of the shape of the frame, a knob value
    between 0 and 1 and a clock below [2^53] seconds returns.  It keeps the
    shape, paints black where the mask is -1 and one colour [high] where it
    is 1, and leaves the other pixels; [high] is white when the value is
    below 0.1. *)
Theorem hue_effect_paints_by_mask :
  forall (hue_to_rgb : Z -> pixel) (frame : ndarray) (noise : mask)
         (v t : Q),
    rectangular frame ->
    fits noise frame = true ->
    (0 <= v <= 1)%Q ->
    (0 <= t <= inject_Z (2 ^ 53))%Q ->
    exists (high : pixel) (frame' : ndarray),
      hue_effect hue_to_rgb frame noise (Fin v) (Fin t) = Returns frame' /\
      (float_lt (Fin v) (literal (1 # 10)) = true -> high = (255, 255, 255)) /\
      rectangular frame' /\
      shape0 frame' = shape0 frame /\ shape1 frame' = shape1 frame /\
      forall (i j : nat) (p : pixel),
        pixel_at frame i j = Some p ->
        exists n : Z,
          mask_at noise i j = Some n /\
          pixel_at frame' i j
          = Some (if n =? 1 then high
                  else if n =? -1 then (0, 0, 0) else p).
Proof.
  intros hue_to_rgb frame noise v t Hrect Hfits Hv Ht.
  destruct (hue_effect_painted hue_to_rgb frame noise v t Hrect Hfits Hv Ht)
    as (high & frame' & Hrun & Hwhite & R & S0 & S1 & Hpix).
  exists high, frame'.
  split; [ exact Hrun | ]. split; [ exact Hwhite | ]. split; [ exact R | ].
  split; [ exact S0 | ]. split; [ exact S1 | ].
  intros i j p Hp.
  destruct (mask_at_fits noise frame i j p Hrect Hfits Hp) as (n & Hn).
  exists n. split; [ exact Hn | ]. apply (Hpix i j p n Hp Hn).
Qed.

Lemma hue_effect_paints_by_mask_witness :
  exists (high : pixel) (frame' : ndarray),
    hue_effect (fun _ => (1, 2, 3)) (numbered 2 2) [[1; 0]; [-1; 0]]
               (Fin (1 # 20)) (Fin 0)
    = Returns frame' /\
    (float_lt (Fin (1 # 20)) (literal (1 # 10)) = true ->
     high = (255, 255, 255)) /\
    rectangular frame' /\
    shape0 frame' = shape0 (numbered 2 2) /\
    shape1 frame' = shape1 (numbered 2 2) /\
    forall (i j : nat) (p : pixel),
      pixel_at (numbered 2 2) i j = Some p ->
      exists n : Z,
        mask_at [[1; 0]; [-1; 0]] i j = Some n /\
        pixel_at frame' i j
        = Some (if n =? 1 then high else if n =? -1 then (0, 0, 0) else p).
Proof.
  apply (hue_effect_paints_by_mask (fun _ => (1, 2, 3)) (numbered 2 2)
           [[1; 0]; [-1; 0]] (1 # 20) 0).
  - apply rectangular_numbered.
  - reflexivity.
  - split; vm_compute; discriminate.
  - split; vm_compute; discriminate.
Defined.

(* ================================================================== *)
(** * Operations on every row or every channel *)

Lemma map_rows_rectangular :
  forall (f : list pixel -> list pixel) (a : ndarray),
    (forall row, List.length (f row) = List.length row) ->
    rectangular a -> rectangular (map_rows f a).
Proof.
  intros f a Hf [Hh Hw]. unfold rectangular, map_rows. cbn [shape0 shape1 data].
  split; [ rewrite length_map; exact Hh | ].
  apply Forall_map. eapply Forall_impl; [ | exact Hw ].
  intros row Hrow. cbv beta in *. rewrite Hf. exact Hrow.
Qed.

Lemma map_channels_rectangular :
  forall (f : Z -> Z) (a : ndarray),
    rectangular a -> rectangular (map_channels f a).
Proof.
  intros f a. apply map_rows_rectangular. intros row. apply length_map.
Qed.

Lemma map_channels_pixel :
  forall (f : Z -> Z) (a : ndarray) (i j : nat),
    pixel_at (map_channels f a) i j
    = option_map (fun p : pixel => let '(r, g, b) := p in (f r, f g, f b))
                 (pixel_at a i j).
Proof.
  intros f a i j. unfold pixel_at, map_channels, map_rows. cbn [data].
  rewrite nth_error_map.
  destruct (nth_error (data a) i) as [row | ]; cbn [option_map];
    [ apply nth_error_map | reflexivity ].
Qed.

Lemma mirror_rectangular :
  forall a : ndarray, rectangular a -> rectangular (mirror a).
Proof.
  intros a. apply map_rows_rectangular. intros row. apply length_rev.
Qed.

(* ================================================================== *)
(** * The gamma table *)

Lemma gamma_table_checked :
  forallb (fun u =>
             (0 <=? gamma (Z.of_nat u)) && (gamma (Z.of_nat u) <=? Z.of_nat u)
             && forallb (fun v => negb (u <=? v)%nat
                                  || (gamma (Z.of_nat u) <=? gamma (Z.of_nat v)))
                        (seq 0 256))
          (seq 0 256) = true.
Proof. vm_compute. reflexivity. Qed.

Lemma gamma_bounds :
  forall v : Z, uint8 v -> 0 <= gamma v <= v.
Proof.
  intros v [H0 H1].
  pose proof (proj1 (forallb_forall _ _) gamma_table_checked (Z.to_nat v)
                    ltac:(apply in_seq; lia)) as H.
  cbv beta in H. rewrite Z2Nat.id in H by exact H0.
  apply andb_true_iff in H. destruct H as [H _].
  apply andb_true_iff in H. destruct H as [Ha Hb].
  apply Z.leb_le in Ha, Hb. lia.
Qed.

Lemma gamma_monotone :
  forall u v : Z, 0 <= u -> u <= v -> v <= 255 -> gamma u <= gamma v.
Proof.
  intros u v H0 Huv H1.
  pose proof (proj1 (forallb_forall _ _) gamma_table_checked (Z.to_nat u)
                    ltac:(apply in_seq; lia)) as H.
  cbv beta in H. rewrite Z2Nat.id in H by exact H0.
  apply andb_true_iff in H. destruct H as [_ H].
  pose proof (proj1 (forallb_forall _ _) H (Z.to_nat v)
                    ltac:(apply in_seq; lia)) as Hv.
  cbv beta in Hv. rewrite Z2Nat.id in Hv by lia.
  apply orb_true_iff in Hv. destruct Hv as [Hv | Hv].
  - apply negb_true_iff in Hv. apply Nat.leb_gt in Hv. lia.
  - apply Z.leb_le in Hv. exact Hv.
Qed.

Lemma gamma_pixel :
  forall (frame : ndarray) (i j : nat) (r g b : Z),
    pixel_at frame i j = Some (r, g, b) ->
    uint8 r -> uint8 g -> uint8 b ->
    pixel_at (astype_uint8 (LUT frame GAMMA)) i j
    = Some (gamma r, gamma g, gamma b).
Proof.
  intros frame i j r g b Hp Hr Hg Hb.
  pose proof (gamma_bounds r Hr) as Br.
  pose proof (gamma_bounds g Hg) as Bg.
  pose proof (gamma_bounds b Hb) as Bb.
  unfold astype_uint8, LUT. rewrite !map_channels_pixel, Hp.
  cbn [option_map]. fold (gamma r) (gamma g) (gamma b).
  unfold uint8 in *. rewrite !Z.mod_small by lia. reflexivity.
Qed.

(** X18.  The gamma table never brightens and keeps the order: on a
    [uint8] frame every channel value [v] becomes [GAMMA[v]], which lies
    between 0 and [v], so that [astype(np.uint8)] changes nothing; the table
    is non-decreasing and maps 0 to 0 and 255 to 255. *)
Theorem gamma_table_darkens :
  (forall (frame : ndarray) (i j : nat) (r g b : Z),
      pixel_at frame i j = Some (r, g, b) ->
      uint8 r -> uint8 g -> uint8 b ->
      pixel_at (astype_uint8 (LUT frame GAMMA)) i j
      = Some (gamma r, gamma g, gamma b) /\
      0 <= gamma r <= r /\ 0 <= gamma g <= g /\ 0 <= gamma b <= b) /\
  (forall u v : Z, 0 <= u -> u <= v -> v <= 255 -> gamma u <= gamma v) /\
  gamma 0 = 0 /\ gamma 255 = 255.
Proof.
  split; [ | split; [ exact gamma_monotone | split; reflexivity ] ].
  intros frame i j r g b Hp Hr Hg Hb.
  pose proof (gamma_bounds r Hr) as Br.
  pose proof (gamma_bounds g Hg) as Bg.
  pose proof (gamma_bounds b Hb) as Bb.
  split; [ | repeat split; lia ].
  apply gamma_pixel; assumption.
Qed.

Lemma gamma_table_darkens_witness :
  pixel_at (astype_uint8 (LUT (numbered 2 2) GAMMA)) 1 1
  = Some (gamma 3, gamma 3, gamma 3) /\
  0 <= gamma 3 <= 3.
Proof.
  destruct (proj1 gamma_table_darkens (numbered 2 2) 1%nat 1%nat 3 3 3)
    as (H & H3 & _).
  - reflexivity.
  - unfold uint8. lia.
  - unfold uint8. lia.
  - unfold uint8. lia.
  - split; [ exact H | exact H3 ].
Defined.

(* ================================================================== *)
(** * The rotation *)

Lemma rot90_3 : forall m : ndarray, rot90 m 3 = flip1 (transpose m).
Proof. intros m. reflexivity. Qed.

Lemma transpose_rectangular :
  forall a : ndarray, rectangular a -> rectangular (transpose a).
Proof.
  intros a [Hh Hw]. unfold rectangular, transpose. cbn [shape0 shape1 data].
  split; [ rewrite length_map, length_seq; reflexivity | ].
  apply Forall_map. apply Forall_forall. intros j _.
  rewrite length_map. exact Hh.
Qed.

Lemma rot90_3_rectangular :
  forall a : ndarray,
    rectangular a ->
    rectangular (rot90 a 3) /\
    shape0 (rot90 a 3) = shape1 a /\ shape1 (rot90 a 3) = shape0 a.
Proof.
  intros a Hrect. rewrite rot90_3. split; [ | split; reflexivity ].
  apply map_rows_rectangular; [ intros row; apply length_rev | ].
  apply transpose_rectangular, Hrect.
Qed.

Lemma column_reversed_nth_error :
  forall {A} (g : list (list A)) (i j : nat) (row : list A) (p d : A),
    nth_error g i = Some row -> nth_error row j = Some p ->
    nth_error (rev (map (fun row => nth j row d) g)) (List.length g - 1 - i)
    = Some p.
Proof.
  intros A g i j row p d Hrow Hp.
  assert (Hi : (i < List.length g)%nat).
  { apply nth_error_Some. congruence. }
  rewrite nth_error_rev, length_map.
  destruct (Nat.ltb_spec (List.length g - 1 - i) (List.length g)); [ | lia ].
  replace (List.length g - S (List.length g - 1 - i))%nat with i by lia.
  rewrite nth_error_map, Hrow. cbn [option_map]. f_equal.
  apply nth_error_nth, Hp.
Qed.

(** Where the rotation puts a pixel. *)
Lemma rot90_3_pixel :
  forall (a : ndarray) (i j : nat) (p : pixel),
    rectangular a ->
    pixel_at a i j = Some p ->
    pixel_at (rot90 a 3) j (shape0 a - 1 - i) = Some p.
Proof.
  intros a i j p Hrect Hp.
  destruct (pixel_at_in_bounds a i j p Hrect Hp) as [Hi Hj].
  rewrite rot90_3. unfold pixel_at in Hp.
  destruct (nth_error (data a) i) as [row | ] eqn:Hrow; [ | discriminate ].
  unfold pixel_at, flip1, map_rows, transpose. cbn [data shape0 shape1].
  rewrite nth_error_map, nth_error_map, nth_error_seq.
  destruct (Nat.ltb_spec j (shape1 a)); [ | lia ]. cbn [option_map].
  destruct Hrect as [Hh _]. rewrite <- Hh.
  apply (column_reversed_nth_error (data a) i (0 + j) row p (0, 0, 0) Hrow Hp).
Qed.

(** X19.  [np.rot90(frame, 3)], the rotation [start_cam] applies, is a
    quarter turn clockwise: height and width are swapped, and pixel [(i, j)]
    moves to [(j, h - 1 - i)]. *)
Theorem rot90_3_turns_clockwise :
  forall (a : ndarray) (i j : nat) (p : pixel),
    rectangular a ->
    pixel_at a i j = Some p ->
    shape0 (rot90 a 3) = shape1 a /\
    shape1 (rot90 a 3) = shape0 a /\
    rectangular (rot90 a 3) /\
    pixel_at (rot90 a 3) j (shape0 a - 1 - i) = Some p.
Proof.
  intros a i j p Hrect Hp.
  destruct (rot90_3_rectangular a Hrect) as (HR & H0 & H1).
  split; [ exact H0 | ]. split; [ exact H1 | ]. split; [ exact HR | ].
  apply rot90_3_pixel; assumption.
Qed.

Lemma rot90_3_turns_clockwise_witness :
  pixel_at (rot90 (numbered 2 3) 3) 2 1 = Some (px 2) /\
  shape0 (rot90 (numbered 2 3) 3) = 3%nat.
Proof.
  destruct (rot90_3_turns_clockwise (numbered 2 3) 0 2 (px 2)) as (H0 & _ & _ & H).
  - apply rectangular_numbered.
  - reflexivity.
  - split; [ exact H | exact H0 ].
Defined.

(* ================================================================== *)
(** * One turn of the loop *)

Lemma mirror_pixel :
  forall (a : ndarray) (i j : nat) (p : pixel),
    rectangular a -> pixel_at a i j = Some p ->
    pixel_at (mirror a) i (shape1 a - 1 - j) = Some p.
Proof.
  intros a i j p Hrect Hp.
  destruct (pixel_at_in_bounds a i j p Hrect Hp) as [Hi Hj].
  unfold pixel_at, mirror, map_rows in *. cbn [data].
  rewrite nth_error_map.
  destruct (nth_error (data a) i) as [row | ] eqn:Hrow; [ | discriminate ].
  pose proof (rectangular_row a i row Hrect Hrow) as Hlen.
  cbn [option_map]. rewrite nth_error_rev, Hlen.
  destruct (Nat.ltb_spec (shape1 a - 1 - j) (shape1 a)); [ | lia ].
  replace (shape1 a - S (shape1 a - 1 - j))%nat with j by lia. exact Hp.
Qed.

Lemma shown_rectangular :
  forall frame : ndarray,
    rectangular frame ->
    rectangular (shown frame) /\
    shape0 (shown frame) = shape1 frame /\
    shape1 (shown frame) = shape0 frame.
Proof.
  intros frame Hrect. unfold shown.
  assert (H1 : rectangular (astype_uint8 (LUT (mirror frame) GAMMA))).
  { unfold astype_uint8, LUT.
    apply map_channels_rectangular, map_channels_rectangular,
          mirror_rectangular, Hrect. }
  destruct (rot90_3_rectangular _ H1) as (H2 & E0 & E1).
  destruct (ring_light_rectangular _ H2) as (H3 & F0 & F1).
  split; [ exact H3 | ]. split.
  - rewrite F0, E0. reflexivity.
  - rewrite F1, E1. reflexivity.
Qed.

(** The datagrams of a frame whose datagrams fit. *)
Lemma send_quadrant_four_datagrams :
  forall (a : ndarray) (s : list datagram),
    rectangular a ->
    Nat.even (shape0 a) = true -> Nat.even (shape1 a) = true ->
    datagram_size a <= MAX_UDP_PAYLOAD ->
    exists d0 d1 d2 d3 : datagram,
      send_quadrant {| frame := a; sent := s |}
      = (Returns tt,
         {| frame := serpentine_frame a; sent := s ++ [d0; d1; d2; d3] |}) /\
      map datagram_of (segments_of a) = [d0; d1; d2; d3] /\
      map start_index_of [d0; d1; d2; d3]
      = [0; leds_per_quadrant a; 2 * leds_per_quadrant a;
         3 * leds_per_quadrant a] /\
      Forall (fun d => Z.of_nat (List.length d) = 4 + 3 * leds_per_quadrant a)
             [d0; d1; d2; d3].
Proof.
  intros a s Hrect EH EW Hfit.
  destruct (segments_of_explicit a Hrect EH EW)
    as (p0 & p1 & p2 & p3 & Hsegs & _ & Hlen).
  pose proof (leds_per_quadrant_pos a) as Hpos.
  exists (datagram_of (p0, 0)), (datagram_of (p1, leds_per_quadrant a)),
         (datagram_of (p2, 2 * leds_per_quadrant a)),
         (datagram_of (p3, 3 * leds_per_quadrant a)).
  split; [ | split; [ | split ] ].
  - rewrite (send_quadrant_returns a s Hrect EH EW Hfit), Hsegs. reflexivity.
  - rewrite Hsegs. reflexivity.
  - unfold datagram_size, MAX_UDP_PAYLOAD in Hfit.
    cbn [map]. rewrite !start_index_of_datagram by lia. reflexivity.
  - apply Forall_cons_iff in Hlen. destruct Hlen as [L0 Hlen].
    apply Forall_cons_iff in Hlen. destruct Hlen as [L1 Hlen].
    apply Forall_cons_iff in Hlen. destruct Hlen as [L2 Hlen].
    apply Forall_cons_iff in Hlen. destruct Hlen as [L3 _].
    repeat constructor; unfold datagram_of; cbn [fst snd];
      rewrite length_app; cbn [List.length]; lia.
Qed.

Lemma leds_per_quadrant_swapped :
  forall a b : ndarray,
    shape0 b = shape1 a -> shape1 b = shape0 a ->
    leds_per_quadrant b = leds_per_quadrant a.
Proof.
  intros a b H0 H1. unfold leds_per_quadrant. rewrite H0, H1.
  rewrite Nat.mul_comm. reflexivity.
Qed.

(** The end of a turn: the rotation, the ring light and the datagrams. *)
Lemma display_run :
  forall (f : ndarray) (s : Program),
    rectangular f ->
    Nat.even (shape0 f) = true -> Nat.even (shape1 f) = true ->
    datagram_size f <= MAX_UDP_PAYLOAD ->
    exists d0 d1 d2 d3 : datagram,
      send_frame (ring_light (rot90 f 3)) s
      = (Returns tt,
         {| knob_reader := knob_reader s; random_state := random_state s;
            sock := sock s ++ [d0; d1; d2; d3] |}) /\
      sent (snd (send_quadrant {| frame := ring_light (rot90 f 3);
                                  sent := [] |}))
      = [d0; d1; d2; d3] /\
      map start_index_of [d0; d1; d2; d3]
      = [0; leds_per_quadrant f; 2 * leds_per_quadrant f;
         3 * leds_per_quadrant f] /\
      Forall (fun d => Z.of_nat (List.length d) = 4 + 3 * leds_per_quadrant f)
             [d0; d1; d2; d3].
Proof.
  intros f s Hrect EH EW Hfit.
  destruct (rot90_3_rectangular f Hrect) as (H2 & E0 & E1).
  destruct (ring_light_rectangular _ H2) as (H3 & F0 & F1).
  set (a := ring_light (rot90 f 3)) in *.
  assert (S0 : shape0 a = shape1 f) by congruence.
  assert (S1 : shape1 a = shape0 f) by congruence.
  assert (Hc : leds_per_quadrant a = leds_per_quadrant f)
    by (apply leds_per_quadrant_swapped; assumption).
  assert (EH' : Nat.even (shape0 a) = true) by (rewrite S0; exact EW).
  assert (EW' : Nat.even (shape1 a) = true) by (rewrite S1; exact EH).
  assert (Hfit' : datagram_size a <= MAX_UDP_PAYLOAD)
    by (unfold datagram_size in *; rewrite Hc; exact Hfit).
  destruct (send_quadrant_four_datagrams a (sock s) H3 EH' EW' Hfit')
    as (d0 & d1 & d2 & d3 & Hsend & Hsegs & Hidx & Hlen).
  exists d0, d1, d2, d3. rewrite <- Hc. split; [ | split; [ | split ] ].
  - unfold send_frame. rewrite Hsend. reflexivity.
  - rewrite (send_quadrant_returns a [] H3 EH' EW' Hfit').
    cbn [snd sent app]. exact Hsegs.
  - exact Hidx.
  - exact Hlen.
Qed.

Lemma knob_effects_without_reader :
  forall (hue_to_rgb : Z -> pixel) (frame : ndarray) (monotonic : float)
         (s : Program),
    knob_reader s = None ->
    knob_effects hue_to_rgb frame monotonic s = (Returns frame, s).
Proof.
  intros hue_to_rgb frame monotonic s H. unfold knob_effects. rewrite H.
  reflexivity.
Qed.

Lemma corrected_rectangular :
  forall frame : ndarray,
    rectangular frame ->
    rectangular (astype_uint8 (LUT (mirror frame) GAMMA)) /\
    shape0 (astype_uint8 (LUT (mirror frame) GAMMA)) = shape0 frame /\
    shape1 (astype_uint8 (LUT (mirror frame) GAMMA)) = shape1 frame.
Proof.
  intros frame Hrect. split; [ | split; reflexivity ].
  unfold astype_uint8, LUT.
  apply map_channels_rectangular, map_channels_rectangular,
        mirror_rectangular, Hrect.
Qed.

(** X20.  One turn of the loop without a knob reader, on a resized frame
    of even height and width whose datagrams, of [4 + 3 c] bytes for [c]
    LEDs per quadrant, fit a UDP datagram.  It returns and sends exactly
    four datagrams of [4 + 3 c] bytes
    with the start indices [0, c, 2 c, 3 c], the datagrams of the frame
    [shown]: pixel [(i, j)] of the resized frame is there, gamma-corrected,
    at [(w - 1 - j, h - 1 - i)], unless that place is on the ring light. *)
Theorem start_cam_body_without_knobs :
  forall (hue_to_rgb : Z -> pixel) (frame : ndarray) (monotonic : float)
         (s : Program),
    rectangular frame ->
    Nat.even (shape0 frame) = true -> Nat.even (shape1 frame) = true ->
    datagram_size frame <= MAX_UDP_PAYLOAD ->
    knob_reader s = None ->
    (exists d0 d1 d2 d3 : datagram,
        start_cam_body hue_to_rgb frame monotonic s
        = (Returns tt,
           {| knob_reader := None; random_state := random_state s;
              sock := sock s ++ [d0; d1; d2; d3] |}) /\
        sent (snd (send_quadrant {| frame := shown frame; sent := [] |}))
        = [d0; d1; d2; d3] /\
        map start_index_of [d0; d1; d2; d3]
        = [0; leds_per_quadrant frame; 2 * leds_per_quadrant frame;
           3 * leds_per_quadrant frame] /\
        Forall (fun d => Z.of_nat (List.length d)
                         = 4 + 3 * leds_per_quadrant frame)
               [d0; d1; d2; d3]) /\
    shape0 (shown frame) = shape1 frame /\
    shape1 (shown frame) = shape0 frame /\
    (forall (i j : nat) (r g b : Z),
        pixel_at frame i j = Some (r, g, b) ->
        uint8 r -> uint8 g -> uint8 b ->
        pixel_at (shown frame) (shape1 frame - 1 - j) (shape0 frame - 1 - i)
        = Some (if on_border (shape1 frame) (shape0 frame)
                             (shape1 frame - 1 - j) (shape0 frame - 1 - i)
                then (255, 255, 255)
                else (gamma r, gamma g, gamma b))).
Proof.
  intros hue_to_rgb frame monotonic s Hrect EH EW Hfit Hnone.
  destruct (corrected_rectangular frame Hrect) as (Hc & C0 & C1).
  set (f := astype_uint8 (LUT (mirror frame) GAMMA)) in *.
  assert (Hlpq : leds_per_quadrant f = leds_per_quadrant frame).
  { unfold leds_per_quadrant. rewrite C0, C1. reflexivity. }
  split; [ | split; [ | split ] ].
  - destruct (display_run f s Hc ltac:(rewrite C0; exact EH)
                ltac:(rewrite C1; exact EW)
                ltac:(unfold datagram_size in *; rewrite Hlpq; exact Hfit))
      as (d0 & d1 & d2 & d3 & Hrun & Hsent & Hidx & Hlen).
    exists d0, d1, d2, d3. rewrite <- Hlpq.
    split; [ | split; [ exact Hsent | split; [ exact Hidx | exact Hlen ] ] ].
    unfold start_cam_body, bind. cbv zeta. fold f.
    rewrite knob_effects_without_reader by exact Hnone.
    change (3 =? 1) with false. change (3 =? 2) with false.
    change (3 =? 3) with true. cbv iota.
    rewrite Hrun, Hnone. reflexivity.
  - apply (shown_rectangular frame Hrect).
  - apply (shown_rectangular frame Hrect).
  - intros i j r g b Hp Hr Hg Hb.
    destruct (pixel_at_in_bounds frame i j _ Hrect Hp) as [Hi Hj].
    pose proof (mirror_pixel frame i j _ Hrect Hp) as P1.
    pose proof (gamma_pixel (mirror frame) i (shape1 frame - 1 - j) r g b
                  P1 Hr Hg Hb) as P2.
    fold f in P2.
    pose proof (rot90_3_pixel f i (shape1 frame - 1 - j) _ Hc P2) as P3.
    rewrite C0 in P3.
    destruct (rot90_3_rectangular f Hc) as (H2 & E0 & E1).
    pose proof (ring_light_pixel (rot90 f 3) _ _ _ H2 P3) as P4.
    rewrite E0, E1, C0, C1 in P4. exact P4.
Qed.

Lemma start_cam_body_without_knobs_witness :
  exists d0 d1 d2 d3 : datagram,
    start_cam_body (fun _ => (0, 0, 0)) (numbered 8 8) (Fin 0)
                   program_without_knobs
    = (Returns tt,
       {| knob_reader := None; random_state := silent_generator;
          sock := [] ++ [d0; d1; d2; d3] |}) /\
    sent (snd (send_quadrant {| frame := shown (numbered 8 8); sent := [] |}))
    = [d0; d1; d2; d3] /\
    map start_index_of [d0; d1; d2; d3]
    = [0; leds_per_quadrant (numbered 8 8); 2 * leds_per_quadrant (numbered 8 8);
       3 * leds_per_quadrant (numbered 8 8)] /\
    Forall (fun d => Z.of_nat (List.length d)
                     = 4 + 3 * leds_per_quadrant (numbered 8 8))
           [d0; d1; d2; d3].
Proof.
  apply (start_cam_body_without_knobs (fun _ => (0, 0, 0)) (numbered 8 8)
           (Fin 0) program_without_knobs).
  - apply rectangular_numbered.
  - reflexivity.
  - reflexivity.
  - vm_compute. discriminate.
  - reflexivity.
Defined.

(* ================================================================== *)
(** * The loop with the knobs *)

Lemma fits_ones :
  forall a : ndarray, fits (repeat (repeat 1 (shape1 a)) (shape0 a)) a = true.
Proof.
  intros a. unfold fits. apply andb_true_iff. split.
  - rewrite repeat_length. apply Nat.eqb_refl.
  - apply forallb_forall. intros row Hin. apply repeat_spec in Hin. subst row.
    rewrite repeat_length. apply Nat.eqb_refl.
Qed.

(** [noise_effect] always answers a mask of the shape of the frame. *)
Lemma noise_effect_fits :
  forall (frame : ndarray) (a : Q) (g : Random),
    exists (noise : mask) (g' : Random),
      noise_effect frame (Fin a) g = (Returns noise, g') /\
      fits noise frame = true.
Proof.
  intros frame a g.
  destruct (float_lt (Fin a) (literal (83 # 100))) eqn:Hlt.
  - assert (Hprob : float_truediv (Fin a) (Fin 3) = Returns (round64 (a / 3)))
      by reflexivity.
    rewrite (noise_effect_below frame (Fin a) _ g Hlt Hprob).
    eexists. eexists. split; [ reflexivity | ].
    apply (fits_uniform frame
             (fun i j => noise_entry (round64 (a / 3))
                           (float_sub (Fin 1) (round64 (a / 3)))
                           (draws g (drawn g + i * shape1 frame + j)))).
  - exists (repeat (repeat 1 (shape1 frame)) (shape0 frame)), g.
    split; [ apply noise_effect_full, Hlt | apply fits_ones ].
Qed.

(** X21.  One turn of the loop with a knob reader, on a resized frame of
    even height and width whose datagrams fit a UDP datagram.  When
    [get_knob_values] raises, so does the turn, with nothing sent; while it
    waits for the device, the turn does not come back and nothing is sent.
    When it returns two values between 0 and 1, the turn returns and sends
    four datagrams of [4 + 3 c] bytes with the start indices
    [0, c, 2 c, 3 c]. *)
Theorem start_cam_body_with_knobs :
  forall (hue_to_rgb : Z -> pixel) (frame : ndarray) (t : Q)
         (s : Program) (k k' : KnobReader),
    rectangular frame ->
    Nat.even (shape0 frame) = true -> Nat.even (shape1 frame) = true ->
    datagram_size frame <= MAX_UDP_PAYLOAD ->
    (0 <= t <= inject_Z (2 ^ 53))%Q ->
    knob_reader s = Some k ->
    (forall e : exn,
        get_knob_values k = (Raises e, k') ->
        start_cam_body hue_to_rgb frame (Fin t) s
        = (Raises e, {| knob_reader := Some k';
                        random_state := random_state s; sock := sock s |})) /\
    (get_knob_values k = (Blocks, k') ->
     start_cam_body hue_to_rgb frame (Fin t) s
     = (Blocks, {| knob_reader := Some k';
                   random_state := random_state s; sock := sock s |})) /\
    (forall a b : Q,
        get_knob_values k = (Returns (Fin a, Fin b), k') ->
        (0 <= a <= 1)%Q -> (0 <= b <= 1)%Q ->
        exists (g' : Random) (d0 d1 d2 d3 : datagram),
          start_cam_body hue_to_rgb frame (Fin t) s
          = (Returns tt,
             {| knob_reader := Some k'; random_state := g';
                sock := sock s ++ [d0; d1; d2; d3] |}) /\
          map start_index_of [d0; d1; d2; d3]
          = [0; leds_per_quadrant frame; 2 * leds_per_quadrant frame;
             3 * leds_per_quadrant frame] /\
          Forall (fun d => Z.of_nat (List.length d)
                           = 4 + 3 * leds_per_quadrant frame)
                 [d0; d1; d2; d3]).
Proof.
  intros hue_to_rgb frame t s k k' Hrect EH EW Hfit Ht Hk.
  destruct (corrected_rectangular frame Hrect) as (Hc & C0 & C1).
  set (f := astype_uint8 (LUT (mirror frame) GAMMA)) in *.
  split; [ | split ].
  - intros e Hget. unfold start_cam_body, bind, knob_effects. cbv zeta.
    fold f. rewrite Hk, Hget. reflexivity.
  - intros Hget. unfold start_cam_body, bind, knob_effects. cbv zeta.
    fold f. rewrite Hk, Hget. reflexivity.
  - intros a b Hget Ha Hb.
    destruct (noise_effect_fits f a (random_state s))
      as (noise & g' & Hnoise & Hfits).
    destruct (hue_effect_painted hue_to_rgb f noise b t Hc Hfits Hb Ht)
      as (high & f' & Hhue & _ & Hc' & S0 & S1 & _).
    assert (Hlpq : leds_per_quadrant f' = leds_per_quadrant frame).
    { unfold leds_per_quadrant. rewrite S0, S1, C0, C1. reflexivity. }
    destruct (display_run f'
                {| knob_reader := Some k'; random_state := g'; sock := sock s |}
                Hc' ltac:(rewrite S0, C0; exact EH)
                ltac:(rewrite S1, C1; exact EW)
                ltac:(unfold datagram_size in *; rewrite Hlpq; exact Hfit))
      as (d0 & d1 & d2 & d3 & Hrun & _ & Hidx & Hlen).
    exists g', d0, d1, d2, d3. rewrite <- Hlpq.
    split; [ | split; [ exact Hidx | exact Hlen ] ].
    unfold start_cam_body, bind, knob_effects. cbv zeta. fold f.
    rewrite Hk, Hget, Hnoise, Hhue.
    change (3 =? 1) with false. change (3 =? 2) with false.
    change (3 =? 3) with true. cbv iota.
    rewrite Hrun. reflexivity.
Qed.

Lemma start_cam_body_with_knobs_witness :
  exists (g' : Random) (d0 d1 d2 d3 : datagram),
    start_cam_body (fun hue => (hue, 255, 0)) (numbered 8 8) (Fin 0)
                   program_with_knobs
    = (Returns tt,
       {| knob_reader :=
            Some (snd (get_knob_values
                         (awaiting 30000 (line "30000" "60000"))));
          random_state := g';
          sock := sock program_with_knobs ++ [d0; d1; d2; d3] |}) /\
    map start_index_of [d0; d1; d2; d3]
    = [0; leds_per_quadrant (numbered 8 8); 2 * leds_per_quadrant (numbered 8 8);
       3 * leds_per_quadrant (numbered 8 8)] /\
    Forall (fun d => Z.of_nat (List.length d)
                     = 4 + 3 * leds_per_quadrant (numbered 8 8))
           [d0; d1; d2; d3].
Proof.
  apply (proj2 (proj2
           (start_cam_body_with_knobs (fun hue => (hue, 255, 0))
              (numbered 8 8) 0
              program_with_knobs (awaiting 30000 (line "30000" "60000"))
              (snd (get_knob_values (awaiting 30000 (line "30000" "60000"))))
              (rectangular_numbered 8 8) eq_refl eq_refl
              ltac:(vm_compute; discriminate)
              ltac:(split; vm_compute; discriminate)
              eq_refl))
           (1196027641109727 # 2251799813685248)%Q
           (5278898346800511 # 9007199254740992)%Q).
  - vm_compute. reflexivity.
  - split; vm_compute; discriminate.
  - split; vm_compute; discriminate.
Defined.

(* ================================================================== *)
(** * The two knob effects at the ends of the first knob *)

Lemma noise_entry_zero :
  forall r : Q,
    (0 <= r < 1)%Q ->
    noise_entry (round64 (0 / 3)) (float_sub (Fin 1) (round64 (0 / 3))) (Fin r)
    = 0.
Proof.
  intros r [H0 H1].
  assert (Hp : round64 (0 / 3) = Fin 0) by (vm_compute; reflexivity).
  rewrite Hp.
  assert (Ht : float_sub (Fin 1) (Fin 0) = Fin 1) by (vm_compute; reflexivity).
  rewrite Ht. unfold noise_entry, float_gt, float_lt.
  rewrite (Qle_bool_true 0 r H0). cbn [negb].
  rewrite (Qle_bool_true r 1) by (apply Qlt_le_weak, H1). reflexivity.
Qed.

(** X22.  The ends of the first knob.  At 0.0 the two effects leave every
    pixel as it was (the random numbers lying in [0, 1)).  From 0.83 on no
    random number is drawn and every pixel takes the colour of the second
    knob, white below 0.1. *)
Theorem knob_effects_at_the_extremes :
  forall (hue_to_rgb : Z -> pixel) (frame : ndarray) (g : Random) (v t : Q),
    rectangular frame ->
    (0 <= v <= 1)%Q ->
    (0 <= t <= inject_Z (2 ^ 53))%Q ->
    (forall n : nat, exists r : Q, draws g n = Fin r /\ (0 <= r < 1)%Q) ->
    (exists (noise : mask) (frame' : ndarray),
        noise_effect frame (Fin 0) g
        = (Returns noise, advance (shape0 frame * shape1 frame) g) /\
        hue_effect hue_to_rgb frame noise (Fin v) (Fin t) = Returns frame' /\
        forall (i j : nat) (p : pixel),
          pixel_at frame i j = Some p -> pixel_at frame' i j = Some p) /\
    (forall k1 : Q,
        float_lt (Fin k1) (literal (83 # 100)) = false ->
        exists (noise : mask) (high : pixel) (frame' : ndarray),
          noise_effect frame (Fin k1) g = (Returns noise, g) /\
          hue_effect hue_to_rgb frame noise (Fin v) (Fin t) = Returns frame' /\
          (float_lt (Fin v) (literal (1 # 10)) = true ->
           high = (255, 255, 255)) /\
          forall (i j : nat) (p : pixel),
            pixel_at frame i j = Some p -> pixel_at frame' i j = Some high).
Proof.
  intros hue_to_rgb frame g v t Hrect Hv Ht Hdraws. split.
  - assert (Hlt : float_lt (Fin 0) (literal (83 # 100)) = true)
      by (vm_compute; reflexivity).
    assert (Hprob : float_truediv (Fin 0) (Fin 3) = Returns (round64 (0 / 3)))
      by reflexivity.
    pose proof (noise_effect_below frame (Fin 0) _ g Hlt Hprob) as Hrun.
    set (entry := fun i j : nat =>
                    noise_entry (round64 (0 / 3))
                      (float_sub (Fin 1) (round64 (0 / 3)))
                      (draws g (drawn g + i * shape1 frame + j))) in *.
    pose proof (fits_uniform frame entry) as Hfits.
    destruct (hue_effect_painted hue_to_rgb frame _ v t Hrect Hfits Hv Ht)
      as (high & frame' & Hhue & _ & _ & _ & _ & Hpix).
    eexists. exists frame'. split; [ exact Hrun | ]. split; [ exact Hhue | ].
    intros i j p Hp.
    destruct (pixel_at_in_bounds frame i j p Hrect Hp) as [Hi Hj].
    pose proof (mask_at_uniform (shape0 frame) (shape1 frame) entry i j Hi Hj)
      as Hn.
    unfold entry in Hn at 2.
    destruct (Hdraws (drawn g + i * shape1 frame + j)%nat) as (r & Hr & Hr01).
    rewrite Hr, (noise_entry_zero r Hr01) in Hn.
    apply (Hpix i j p 0 Hp Hn).
  - intros k1 Hge.
    pose proof (noise_effect_full frame (Fin k1) g Hge) as Hrun.
    pose proof (fits_ones frame) as Hfits.
    destruct (hue_effect_painted hue_to_rgb frame _ v t Hrect Hfits Hv Ht)
      as (high & frame' & Hhue & Hwhite & _ & _ & _ & Hpix).
    eexists. exists high, frame'. split; [ exact Hrun | ].
    split; [ exact Hhue | ]. split; [ exact Hwhite | ].
    intros i j p Hp.
    destruct (pixel_at_in_bounds frame i j p Hrect Hp) as [Hi Hj].
    assert (Hone : mask_at (repeat (repeat 1 (shape1 frame)) (shape0 frame)) i j
                   = Some 1).
    { unfold mask_at. rewrite (nth_error_repeat _ Hi).
      apply nth_error_repeat, Hj. }
    apply (Hpix i j p 1 Hp Hone).
Qed.

Lemma knob_effects_at_the_extremes_witness :
  exists (noise : mask) (frame' : ndarray),
    noise_effect (numbered 2 2) (Fin 0) silent_generator
    = (Returns noise, advance (2 * 2) silent_generator) /\
    hue_effect (fun _ => (1, 2, 3)) (numbered 2 2) noise (Fin (1 # 2)) (Fin 0)
    = Returns frame' /\
    forall (i j : nat) (p : pixel),
      pixel_at (numbered 2 2) i j = Some p -> pixel_at frame' i j = Some p.
Proof.
  assert (Hv : (0 <= 1 # 2 <= 1)%Q) by (split; vm_compute; discriminate).
  assert (Ht : (0 <= 0 <= inject_Z (2 ^ 53))%Q)
    by (split; vm_compute; discriminate).
  assert (Hd : forall n : nat,
             exists r : Q, draws silent_generator n = Fin r /\ (0 <= r < 1)%Q).
  { intros n. exists 0%Q. split; [ reflexivity | ].
    split; [ vm_compute; discriminate | reflexivity ]. }
  exact (proj1 (knob_effects_at_the_extremes (fun _ => (1, 2, 3))
                  (numbered 2 2) silent_generator (1 # 2) 0
                  (rectangular_numbered 2 2) Hv Ht Hd)).
Defined.
